(** * zsh_history_cleaner: a shallow embedding of the erase primitive and of
    the history rewrite engine, with the properties of the specification.

    Source files embedded here:
    - [src/core/SecureDelete.cpp]   ([secureDelete])
    - [src/core/HistoryCleaner.cpp] ([calculateTimestamps],
      [processCommandBlock], [processHistory], [performCleanup],
      [backupHistoryFile], [cleanup])
    - [src/utils/Utils.cpp]         ([dateToEpoch])
    - [include/zsh_history_cleaner/Constants.h]

    Conventions.  Text (lines, file contents, paths) is [string]; an [ascii]
    is one byte.  Sizes and offsets are [nat]; [int] and [time_t] values are
    [Z].  The file system is a finite map from paths to nodes.  Everything the
    operating system decides (which call fails, what the random generator
    returns) is read from an environment [Env], and the outcomes of the
    coming [write(2)] calls from a list in the [World], so that every
    function below is a total, executable function of its inputs.  The
    functions return the new [World] next to their C++ result; members of
    the cleaner that a function assigns come back as a new [HistoryCleaner].

    The definitions come first: the embedding of the sources, then the
    vocabulary of the properties and the sample inputs.  The properties
    follow, grouped by the part of the program they are about. *)

From Stdlib Require Import ZArith Ascii String List Lia Bool Arith.
From stdpp Require Import base gmap strings list.

Local Open Scope Z_scope.
Local Open Scope nat_scope.
Local Open Scope stdpp_scope.

#[local] Arguments String.append _ _ : simpl nomatch.

(* ===================================================================== *)
(** * Constants.h *)
(* ===================================================================== *)

Definition SHRED_PASSES : Z := 32.
Definition TMP_PREFIX : string := ".zsh_history_cleaner_".
Definition SHRED_BUFFER_SIZE : nat := 4096.

(* ===================================================================== *)
(** * Strings: the few [std::string] operations the code uses *)
(* ===================================================================== *)

Module Str.

Definition LF : ascii := ascii_of_nat 10.
Definition CR : ascii := ascii_of_nat 13.
Definition TAB : ascii := ascii_of_nat 9.
Definition SPACE : ascii := ascii_of_nat 32.

Definition is_empty (s : string) : bool :=
  match s with EmptyString => true | String _ _ => false end.

(** [s.back()], for a non-empty [s]. *)
Fixpoint back (s : string) : option ascii :=
  match s with
  | EmptyString => None
  | String c EmptyString => Some c
  | String _ s' => back s'
  end.

(** [s.pop_back()]. *)
Fixpoint pop_back (s : string) : string :=
  match s with
  | EmptyString => EmptyString
  | String _ EmptyString => EmptyString
  | String c s' => String c (pop_back s')
  end.

(** [s.substr(0, n)] and [s.substr(n)]. *)
Fixpoint take (n : nat) (s : string) : string :=
  match n, s with
  | S n', String c s' => String c (take n' s')
  | _, _ => EmptyString
  end.

Fixpoint drop (n : nat) (s : string) : string :=
  match n, s with
  | S n', String _ s' => drop n' s'
  | _, _ => s
  end.

(** [s.find(c)]: index of the first occurrence of the character. *)
Fixpoint find_char (c : ascii) (s : string) : option nat :=
  match s with
  | EmptyString => None
  | String d s' =>
      if Ascii.eqb d c then Some 0 else option_map S (find_char c s')
  end.

(** [s.find(needle)]: index of the first occurrence of [needle]; the empty
    needle is found at 0. *)
Fixpoint find (needle s : string) : option nat :=
  if String.prefix needle s then Some 0
  else match s with
       | EmptyString => None
       | String _ s' => option_map S (find needle s')
       end.

(** [s.erase(0, s.find_first_not_of(set))]: drops the longest prefix made
    of characters of [set] (everything, when no other character occurs). *)
Fixpoint erase_leading (inset : ascii -> bool) (s : string) : string :=
  match s with
  | EmptyString => EmptyString
  | String c s' => if inset c then erase_leading inset s' else s
  end.

Fixpoint forallb (p : ascii -> bool) (s : string) : bool :=
  match s with
  | EmptyString => true
  | String c s' => p c && forallb p s'
  end.

(** The longest prefix of characters satisfying [p], and the rest. *)
Fixpoint span (p : ascii -> bool) (s : string) : string * string :=
  match s with
  | EmptyString => (EmptyString, EmptyString)
  | String c s' =>
      if p c then let '(a, b) := span p s' in (String c a, b)
      else (EmptyString, s)
  end.

(** The rest of [s] after its first character, when that is [c]. *)
Definition expect (c : ascii) (s : string) : option string :=
  match s with
  | String d r => if Ascii.eqb d c then Some r else None
  | EmptyString => None
  end.

Fixpoint concat (l : list string) : string :=
  match l with
  | [] => EmptyString
  | s :: l' => s +:+ concat l'
  end.

(** [n] copies of a character source indexed from [from]. *)
Fixpoint tabulate (f : nat -> ascii) (from n : nat) : string :=
  match n with
  | 0 => EmptyString
  | S n' => String (f from) (tabulate f (S from) n')
  end.

End Str.

(* ===================================================================== *)
(** * The file system and the environment *)
(* ===================================================================== *)

(** A directory entry is a regular file with its bytes, or anything else
    (directory, device, socket ...). *)
Inductive node :=
| RegularFile (content : string)
| SpecialFile.

(** What a stream or the log receives.  The text is the fixed part of the
    source's message; [SayLine] carries the line number printed with it,
    [WouldDelete] the dry-run report of one entry and [Summary] the counts
    printed after the scan. *)
Inductive msg :=
| Say (text : string)
| SayLine (text : string) (lineNum : nat)
| WouldDelete (lineNum : nat) (block : string)
| Summary (linesRead kept deleted : nat).

(** Effects on the file system, in the order they happened. *)
Inductive event :=
| EvWrite (p : string) (off len : nat)
| EvFsync (p : string)
| EvRename (src dst : string)
| EvRemove (p : string)
| EvCreate (p : string)
| EvAppend (p : string) (len : nat)
| EvCopy (src dst : string).

(** Result of one [write(2)] call: everything asked for was written, the call
    was interrupted ([EINTR]), it failed with another error, or it wrote only
    [n] bytes. *)
Inductive write_outcome :=
| WriteAll
| WriteEINTR
| WriteError
| WriteShort (n : nat).

(** Result of [open(path, O_WRONLY | O_SYNC)]. *)
Inductive open_outcome :=
| OpenOk
| OpenSyncUnsupported   (* errno is EINVAL or EOPNOTSUPP *)
| OpenFailed.

(** The environment: which operations the operating system lets fail, and the
    values the random generators return. *)
Record Env := {
  status_error : string -> bool;        (* fs::is_regular_file(p, ec) sets ec *)
  size_error : string -> bool;          (* fs::file_size(p, ec) sets ec *)
  open_sync : string -> open_outcome;   (* open(p, O_WRONLY | O_SYNC) *)
  open_plain_fails : string -> bool;    (* open(p, O_WRONLY) *)
  seek_fails : nat -> bool;             (* lseek of pass number n *)
  fsync_fails : nat -> bool;            (* fsync of pass number n *)
  rename_fails : string -> string -> bool;
  remove_fails : string -> bool;
  read_open_fails : string -> bool;     (* std::ifstream constructor *)
  read_error_after : option nat;        (* getline fails after n lines *)
  create_fails : string -> bool;        (* std::ofstream constructor *)
  append_fails : nat -> bool;           (* newFile << entry number n *)
  copy_fails : string -> string -> bool;
  shred_gen : nat -> nat;               (* dist(gen) in secureDelete *)
  temp_gen : nat -> nat;                (* dist(gen) in processHistory *)
  backup_gen : nat -> nat               (* dist(gen) in backupHistoryFile *)
}.

(** The state of the outside world. *)
Record World := {
  files : gmap string node;
  writes : list write_outcome;  (* results of the coming write(2) calls;
                                   once exhausted every write is complete *)
  sink : nat;                   (* bytes accepted by write(2) so far *)
  trace : list event;
  cerr : list msg;
  cout : list msg
}.

Definition set_files (f : gmap string node -> gmap string node) (w : World) : World :=
  {| files := f (files w); writes := writes w; sink := sink w;
     trace := trace w; cerr := cerr w; cout := cout w |}.

Definition set_writes (s : list write_outcome) (w : World) : World :=
  {| files := files w; writes := s; sink := sink w;
     trace := trace w; cerr := cerr w; cout := cout w |}.

Definition add_sink (n : nat) (w : World) : World :=
  {| files := files w; writes := writes w; sink := sink w + n;
     trace := trace w; cerr := cerr w; cout := cout w |}.

Definition emit (e : event) (w : World) : World :=
  {| files := files w; writes := writes w; sink := sink w;
     trace := trace w ++ [e]; cerr := cerr w; cout := cout w |}.

Definition log_err (m : msg) (w : World) : World :=
  {| files := files w; writes := writes w; sink := sink w;
     trace := trace w; cerr := cerr w ++ [m]; cout := cout w |}.

Definition log_out (m : msg) (w : World) : World :=
  {| files := files w; writes := writes w; sink := sink w;
     trace := trace w; cerr := cerr w; cout := cout w ++ [m] |}.

(** ** Paths *)

(** [p.parent_path()]: the path up to its last separator; the root for an
    entry of the root, empty for a bare name. *)
Fixpoint last_slash (s : string) (i : nat) : option nat :=
  match s with
  | EmptyString => None
  | String c s' =>
      match last_slash s' (S i) with
      | Some j => Some j
      | None => if Ascii.eqb c "/" then Some i else None
      end
  end.

Definition parent_path (p : string) : string :=
  match last_slash p 0 with
  | None => ""
  | Some 0 => "/"
  | Some i => Str.take i p
  end.

(** [dir / name]. *)
Definition path_append (dir name : string) : string :=
  if Str.is_empty dir then name
  else match Str.back dir with
       | Some c => if Ascii.eqb c "/" then dir +:+ name else dir +:+ "/" +:+ name
       | None => name
       end.

(** ** std::filesystem operations *)

(** [fs::is_regular_file(p, ec)]: the answer and whether [ec] is set.  It is
    [is_regular_file(status(p, ec))], and [status] reports a missing file
    through [ec] as well as through the [not_found] type. *)
Definition fs_is_regular_file (E : Env) (p : string) (w : World) : bool * bool :=
  if status_error E p then (false, true)
  else match files w !! p with
       | None => (false, true)
       | Some (RegularFile _) => (true, false)
       | Some SpecialFile => (false, false)
       end.

Definition fs_exists (p : string) (w : World) : bool :=
  match files w !! p with Some _ => true | None => false end.

(** [fs::file_size(p, ec)]: [None] when [ec] is set. *)
Definition fs_file_size (E : Env) (p : string) (w : World) : option nat :=
  if size_error E p then None
  else match files w !! p with
       | Some (RegularFile c) => Some (String.length c)
       | _ => None
       end.

(** [fs::remove(p, ec)]: true exactly when an entry was removed. *)
Definition fs_remove (E : Env) (p : string) (w : World) : bool * World :=
  match files w !! p with
  | None => (false, w)
  | Some _ =>
      if remove_fails E p then (false, w)
      else (true, emit (EvRemove p) (set_files (delete p) w))
  end.

(** [fs::rename(src, dst, ec)]: true when [ec] stays clear. *)
Definition fs_rename (E : Env) (src dst : string) (w : World) : bool * World :=
  match files w !! src with
  | None => (false, w)
  | Some n =>
      if rename_fails E src dst then (false, w)
      else (true, emit (EvRename src dst)
                    (set_files (fun m => <[dst := n]> (delete src m)) w))
  end.

(* ===================================================================== *)
(** * SecureDelete.cpp *)
(* ===================================================================== *)

(** [dist(gen)]: a value of [uniform_int_distribution<unsigned>(0, 255)]. *)
Definition draw (gen : nat -> nat) (k : nat) : nat := gen k mod 256.

(** [SecureBuffer::fillRandom]: one draw per byte of the buffer, starting at
    draw number [cur]. *)
Definition fillRandom (gen : nat -> nat) (cur : nat) : string :=
  Str.tabulate (fun k => ascii_of_nat (draw gen k)) cur SHRED_BUFFER_SIZE.

(** Bytes [off .. off + |bytes|) of the content replaced by [bytes]. *)
Definition overwrite (content : string) (off : nat) (bytes : string) : string :=
  Str.take off content +:+ bytes +:+ Str.drop (off + String.length bytes) content.

(** The effect of a [write(2)] that accepts [bytes] at file offset [off]. *)
Definition do_write (p : string) (off : nat) (bytes : string) (w : World) : World :=
  emit (EvWrite p off (String.length bytes))
    (add_sink (String.length bytes)
       (set_files (fun m =>
          match m !! p with
          | Some (RegularFile c) => <[p := RegularFile (overwrite c off bytes)]> m
          | _ => m
          end) w)).

(** The inner [while (remaining > 0)] loop once no outcome is scheduled any
    more: every write is complete.  [fuel] is an upper bound of [remaining];
    each turn lowers [remaining] by at least one byte. *)
Fixpoint write_rest (fuel : nat) (p buf : string) (remaining pos : nat)
    (w : World) : World :=
  match fuel with
  | 0 => w
  | S fuel' =>
      if remaining =? 0 then w
      else
        let writeSize := Nat.min (String.length buf) remaining in
        write_rest fuel' p buf (remaining - writeSize) (pos + writeSize)
          (do_write p pos (Str.take writeSize buf) w)
  end.

(** The inner loop, lines 129-144, consuming the scheduled outcomes of
    [write(2)].  Returns false after logging when the pass must be given up. *)
Fixpoint write_loop (script : list write_outcome) (p buf : string)
    (remaining pos : nat) (w : World) : bool * World :=
  if remaining =? 0 then (true, set_writes script w)
  else
    let writeSize := Nat.min (String.length buf) remaining in
    match script with
    | [] => (true, write_rest remaining p buf remaining pos (set_writes [] w))
    | WriteEINTR :: script' => write_loop script' p buf remaining pos w
    | WriteError :: script' =>
        (false, log_err (Say "Error: Write failed") (set_writes script' w))
    | WriteShort n :: script' =>
        let written := Nat.min n writeSize in
        let w' := do_write p pos (Str.take written buf) w in
        if written =? writeSize
        then write_loop script' p buf (remaining - written) (pos + written) w'
        else (false, log_err (Say "Error: Incomplete write") (set_writes script' w'))
    | WriteAll :: script' =>
        write_loop script' p buf (remaining - writeSize) (pos + writeSize)
          (do_write p pos (Str.take writeSize buf) w)
    end.

(** The [for (pass = 1; pass <= passes; ++pass)] loop, lines 119-150, with
    [n] passes still to run.  [cur] counts the draws taken from the generator.
    Returns false as soon as a seek or a write fails. *)
Fixpoint overwrite_passes (E : Env) (n pass : nat) (p : string)
    (fileSize cur : nat) (w : World) : bool * nat * World :=
  match n with
  | 0 => (true, cur, w)
  | S n' =>
      if seek_fails E pass
      then (false, cur, log_err (Say "Error: Failed to seek to start of file") w)
      else
        let buf := fillRandom (shred_gen E) cur in
        let cur' := cur + SHRED_BUFFER_SIZE in
        match write_loop (writes w) p buf fileSize 0 w with
        | (false, w1) => (false, cur', w1)
        | (true, w1) =>
            let w2 := if fsync_fails E pass
                      then log_err (Say "Warning: fsync failed") w1
                      else emit (EvFsync p) w1 in
            overwrite_passes E n' (S pass) p fileSize cur' w2
        end
  end.

Definition charset62 : string :=
  "ABCDEFGHIJKLMNOPQRSTUVWXYZabcdefghijklmnopqrstuvwxyz0123456789".

Definition charset36 : string := "0123456789ABCDEFGHIJKLMNOPQRSTUVWXYZ".

Definition char_at (s : string) (i : nat) : ascii :=
  match String.get i s with Some c => c | None => "000"%char end.

(** The fifteen characters [charset[dist(gen) % (sizeof(charset) - 1)]]. *)
Definition random_name62 (gen : nat -> nat) (cur : nat) : string :=
  Str.tabulate (fun k => char_at charset62 (draw gen k mod 62)) cur 15.

(** [open(2)] of lines 100-104: true when a descriptor was obtained; the
    O_SYNC-less retry is logged. *)
Definition open_for_overwrite (E : Env) (p : string) (w : World) : bool * World :=
  match files w !! p with
  | None => (false, w)
  | Some _ =>
      match open_sync E p with
      | OpenOk => (true, w)
      | OpenSyncUnsupported =>
          let w1 := log_err (Say "Info: O_SYNC not supported, falling back to standard write mode") w in
          (negb (open_plain_fails E p), w1)
      | OpenFailed => (false, w)
      end
  end.

(** [bool secureDelete(const fs::path& filepath, int passes, std::ostream& log)];
    the log is [std::cerr], as at its call site. *)
Definition secureDelete (E : Env) (filepath : string) (passes : Z) (w : World)
    : bool * World :=
  (* 1. Validate file *)
  match fs_is_regular_file E filepath w with
  | (false, true) => (false, log_err (Say "Error: Failed to check file status") w)
  | (false, false) =>
      if fs_exists filepath w
      then fs_remove E filepath
             (log_err (Say "Warning: Not a regular file, using standard delete") w)
      else (true, log_err (Say "Info: File already deleted") w)
  | (true, _) =>
      (* 2. Get file size *)
      match fs_file_size E filepath w with
      | None => fs_remove E filepath (log_err (Say "Error: Failed to get file size") w)
      | Some 0 =>
          fs_remove E filepath (log_err (Say "Info: Empty file, using standard delete") w)
      | Some fileSize =>
          (* 3. Open file with sync flags *)
          match open_for_overwrite E filepath w with
          | (false, w1) =>
              fs_remove E filepath (log_err (Say "Error: Failed to open file") w1)
          | (true, w1) =>
              (* 5. Perform overwrite passes *)
              match overwrite_passes E (Z.to_nat passes) 1 filepath fileSize 0 w1 with
              | (false, _, w2) => fs_remove E filepath w2
              | (true, cur, w2) =>
                  (* 6. Rename before delete *)
                  let randomStr := random_name62 (shred_gen E) cur in
                  let obscurePath := path_append (parent_path filepath) randomStr in
                  let '(renamed, w3) := fs_rename E filepath obscurePath w2 in
                  let obscurePath := if renamed then obscurePath else filepath in
                  (* 8. Final deletion *)
                  match fs_remove E obscurePath w3 with
                  | (false, w4) => (false, log_err (Say "Error: Failed to delete file") w4)
                  | (true, w4) => (true, w4)
                  end
              end
          end
      end
  end.

(** The randomized sibling name [secureDelete] renames a file of [fileSize]
    bytes to after [passes] complete passes. *)
Definition obscure_path (E : Env) (filepath : string) (passes : Z) : string :=
  path_append (parent_path filepath)
    (random_name62 (shred_gen E) (Z.to_nat passes * SHRED_BUFFER_SIZE)).

(** An environment in which no operation fails; the generators return the
    values of [g]. *)
Definition quiet_env (g : nat -> nat) : Env :=
  {| status_error := fun _ => false; size_error := fun _ => false;
     open_sync := fun _ => OpenOk; open_plain_fails := fun _ => false;
     seek_fails := fun _ => false; fsync_fails := fun _ => false;
     rename_fails := fun _ _ => false; remove_fails := fun _ => false;
     read_open_fails := fun _ => false; read_error_after := None;
     create_fails := fun _ => false; append_fails := fun _ => false;
     copy_fails := fun _ _ => false;
     shred_gen := g; temp_gen := g; backup_gen := g |}.

Definition world_of (m : gmap string node) : World :=
  {| files := m; writes := []; sink := 0; trace := []; cerr := []; cout := [] |}.

(* ===================================================================== *)
(** * Utils.cpp: dates *)
(* ===================================================================== *)

(** The fields of [struct tm] the code reads or writes. *)
Record tm := {
  tm_sec : Z; tm_min : Z; tm_hour : Z;
  tm_mday : Z; tm_mon : Z; tm_year : Z;
  tm_isdst : Z
}.

Definition with_time (h m s : Z) (t : tm) : tm :=
  {| tm_sec := s; tm_min := m; tm_hour := h; tm_mday := tm_mday t;
     tm_mon := tm_mon t; tm_year := tm_year t; tm_isdst := tm_isdst t |}.

Definition with_sec (s : Z) (t : tm) : tm :=
  with_time (tm_hour t) (tm_min t) s t.

Definition with_isdst (d : Z) (t : tm) : tm :=
  {| tm_sec := tm_sec t; tm_min := tm_min t; tm_hour := tm_hour t;
     tm_mday := tm_mday t; tm_mon := tm_mon t; tm_year := tm_year t;
     tm_isdst := d |}.

(** The C library's calendar, which depends on the time zone of the process:
    [strptime input format] gives the fields it parsed and the unparsed rest
    of the input, or nothing. *)
Record Libc := {
  strptime : string -> string -> option (tm * string);
  mktime : tm -> Z;
  localtime_r : Z -> tm;
  nowEpoch : Z
}.

Definition TIME_T_MAX : Z := (2 ^ 63 - 1)%Z.

(** [\s] of the regular expressions and [std::isspace] in the C locale. *)
Definition is_space (c : ascii) : bool :=
  let n := nat_of_ascii c in (n =? 32) || ((9 <=? n) && (n <=? 13)).

Definition is_digit (c : ascii) : bool :=
  let n := nat_of_ascii c in (48 <=? n) && (n <=? 57).

Definition is_blank (c : ascii) : bool :=
  Ascii.eqb c Str.SPACE || Ascii.eqb c Str.TAB.

(** What the code throws. *)
Inductive exn :=
| TimeComponentRequired
| ConversionFailed
| InvalidDateFormat
| ModeNotSet.

Inductive result (A : Type) :=
| Ok (a : A)
| Throw (e : exn).
Arguments Ok {A} a.
Arguments Throw {A} e.

Definition date_formats : list string :=
  ["%Y-%m-%d %H:%M:%S"; "%Y-%m-%d %H:%M"; "%Y-%m-%d"].

(** One turn of the loop over the formats: [None] stands for [continue]. *)
Definition try_format (L : Libc) (dateStr : string) (precise : bool)
    (idx : nat) (format : string) : option (result Z) :=
  match strptime L dateStr format with
  | None => None
  | Some (t, rest) =>
      if negb (Str.is_empty (Str.erase_leading is_space rest)) then None
      else
        let isDateOnly := idx =? 2 in
        if isDateOnly && precise then Some (Throw TimeComponentRequired)
        else
          let t1 := if idx =? 1 then with_sec 0 t
                    else if isDateOnly then with_time 0 0 0 t   (* defaultTime 00:00:00 *)
                    else t in
          let epoch := mktime L (with_isdst (-1) t1) in
          if (epoch =? -1)%Z then Some (Throw ConversionFailed)
          else Some (Ok epoch)
  end.

Fixpoint try_formats (L : Libc) (dateStr : string) (precise : bool)
    (idx : nat) (formats : list string) : result Z :=
  match formats with
  | [] => Throw InvalidDateFormat
  | f :: fs =>
      match try_format L dateStr precise idx f with
      | Some r => r
      | None => try_formats L dateStr precise (S idx) fs
      end
  end.

(** [std::time_t dateToEpoch(dateStr, precise, defaultTime = "00:00:00")]. *)
Definition dateToEpoch (L : Libc) (dateStr : string) (precise : bool) : result Z :=
  try_formats L dateStr precise 0 date_formats.

(* ===================================================================== *)
(** * HistoryCleaner.h *)
(* ===================================================================== *)

Inductive Mode :=
| NONE | TODAY | LAST_7_DAYS | LAST_30_DAYS | SPECIFIC_DAY | BETWEEN
| BEFORE | AFTER | OLDER_THAN | NEWER_THAN | ALL_TIME.

(** A compiled [std::regex] of the content filters is represented by what
    [std::regex_search] answers on a command. *)
Definition regex := string -> bool.

(** The members of the class.  [interrupted_] is the flag the signal handler
    sets; the handler then ends the process itself ([cleanupAndExit] raises
    the signal again with its default disposition), so that during a run the
    flag keeps the value it had at the start. *)
Record HistoryCleaner := {
  tempFilePath_ : string;
  backupFilePath_ : string;
  effectiveHistoryFilePath_ : string;
  mode_ : Mode;
  startDateStr_ : string;
  endDateStr_ : string;
  specificDateStr_ : string;
  olderThanDays_ : Z;
  doBackup_ : bool;
  dryRun_ : bool;
  preciseTime_ : bool;
  shredPasses_ : Z;
  startTimestamp_ : Z;
  endTimestamp_ : Z;
  filterKeywords_ : list string;
  filterRegexes_ : list regex;
  interrupted_ : bool
}.

Definition set_window (s e : Z) (hc : HistoryCleaner) : HistoryCleaner :=
  {| tempFilePath_ := tempFilePath_ hc; backupFilePath_ := backupFilePath_ hc;
     effectiveHistoryFilePath_ := effectiveHistoryFilePath_ hc;
     mode_ := mode_ hc; startDateStr_ := startDateStr_ hc;
     endDateStr_ := endDateStr_ hc; specificDateStr_ := specificDateStr_ hc;
     olderThanDays_ := olderThanDays_ hc; doBackup_ := doBackup_ hc;
     dryRun_ := dryRun_ hc; preciseTime_ := preciseTime_ hc;
     shredPasses_ := shredPasses_ hc;
     startTimestamp_ := s; endTimestamp_ := e;
     filterKeywords_ := filterKeywords_ hc; filterRegexes_ := filterRegexes_ hc;
     interrupted_ := interrupted_ hc |}.

Definition set_temp (p : string) (hc : HistoryCleaner) : HistoryCleaner :=
  {| tempFilePath_ := p; backupFilePath_ := backupFilePath_ hc;
     effectiveHistoryFilePath_ := effectiveHistoryFilePath_ hc;
     mode_ := mode_ hc; startDateStr_ := startDateStr_ hc;
     endDateStr_ := endDateStr_ hc; specificDateStr_ := specificDateStr_ hc;
     olderThanDays_ := olderThanDays_ hc; doBackup_ := doBackup_ hc;
     dryRun_ := dryRun_ hc; preciseTime_ := preciseTime_ hc;
     shredPasses_ := shredPasses_ hc;
     startTimestamp_ := startTimestamp_ hc; endTimestamp_ := endTimestamp_ hc;
     filterKeywords_ := filterKeywords_ hc; filterRegexes_ := filterRegexes_ hc;
     interrupted_ := interrupted_ hc |}.

Definition set_backup (p : string) (hc : HistoryCleaner) : HistoryCleaner :=
  {| tempFilePath_ := tempFilePath_ hc; backupFilePath_ := p;
     effectiveHistoryFilePath_ := effectiveHistoryFilePath_ hc;
     mode_ := mode_ hc; startDateStr_ := startDateStr_ hc;
     endDateStr_ := endDateStr_ hc; specificDateStr_ := specificDateStr_ hc;
     olderThanDays_ := olderThanDays_ hc; doBackup_ := doBackup_ hc;
     dryRun_ := dryRun_ hc; preciseTime_ := preciseTime_ hc;
     shredPasses_ := shredPasses_ hc;
     startTimestamp_ := startTimestamp_ hc; endTimestamp_ := endTimestamp_ hc;
     filterKeywords_ := filterKeywords_ hc; filterRegexes_ := filterRegexes_ hc;
     interrupted_ := interrupted_ hc |}.

(* ===================================================================== *)
(** * HistoryCleaner.cpp: the time window *)
(* ===================================================================== *)

(** The value of an [int] expression, two's complement on 32 bits. *)
Definition int_wrap (z : Z) : Z := ((z + 2 ^ 31) mod 2 ^ 32 - 2 ^ 31)%Z.

(** [localtime_r] of an instant, set to 23:59:59, through [mktime]. *)
Definition end_of_day (L : Libc) (t : Z) : Z :=
  mktime L (with_time 23 59 59 (localtime_r L t)).

(** [void HistoryCleaner::calculateTimestamps()]. *)
Definition calculateTimestamps (L : Libc) (hc : HistoryCleaner)
    : result HistoryCleaner :=
  let now := nowEpoch L in
  let timeinfo := localtime_r L now in
  match mode_ hc with
  | TODAY =>
      Ok (set_window (mktime L (with_time 0 0 0 timeinfo)) TIME_T_MAX hc)
  | LAST_7_DAYS =>
      Ok (set_window (now - 7 * 24 * 60 * 60)%Z TIME_T_MAX hc)
  | LAST_30_DAYS =>
      Ok (set_window (now - 30 * 24 * 60 * 60)%Z TIME_T_MAX hc)
  | SPECIFIC_DAY =>
      match dateToEpoch L (specificDateStr_ hc) (preciseTime_ hc) with
      | Throw e => Throw e
      | Ok start =>
          if preciseTime_ hc then Ok (set_window start start hc)
          else Ok (set_window start (end_of_day L start) hc)
      end
  | BETWEEN =>
      match dateToEpoch L (startDateStr_ hc) (preciseTime_ hc) with
      | Throw e => Throw e
      | Ok start =>
          match dateToEpoch L (endDateStr_ hc) (preciseTime_ hc) with
          | Throw e => Throw e
          | Ok e =>
              if negb (preciseTime_ hc)
              then Ok (set_window start (end_of_day L e) hc)
              else Ok (set_window start e hc)
          end
      end
  | BEFORE =>
      match dateToEpoch L (specificDateStr_ hc) (preciseTime_ hc) with
      | Throw e => Throw e
      | Ok e =>
          if negb (preciseTime_ hc)
          then Ok (set_window 0 (e - 1)%Z hc)
          else Ok (set_window 0 e hc)
      end
  | AFTER =>
      match dateToEpoch L (specificDateStr_ hc) (preciseTime_ hc) with
      | Throw e => Throw e
      | Ok start => Ok (set_window start TIME_T_MAX hc)
      end
  | OLDER_THAN =>
      Ok (set_window 0 (now - int_wrap (olderThanDays_ hc * 24 * 60 * 60))%Z hc)
  | NEWER_THAN =>
      Ok (set_window (now - int_wrap (olderThanDays_ hc * 24 * 60 * 60))%Z
            TIME_T_MAX hc)
  | ALL_TIME => Ok (set_window 0 TIME_T_MAX hc)
  | NONE => Throw ModeNotSet
  end.

(* ===================================================================== *)
(** * HistoryCleaner.cpp: header lines and timestamps *)
(* ===================================================================== *)

(** [.] of the regular expressions: any character but a line terminator. *)
Definition is_dot (c : ascii) : bool :=
  negb (Ascii.eqb c Str.LF || Ascii.eqb c Str.CR).

(** [std::regex_match(line, match, historyEntryRegex_)] for the expression
    [^\s*:\s*(\d+):\d+\s*;.*$]: the first capture group when the whole line
    matches.  No two adjacent pieces of the expression can start with the
    same character, so the match is found without backtracking. *)
Definition historyEntryRegex_ (line : string) : option string :=
  match Str.expect ":" (Str.erase_leading is_space line) with
  | None => None
  | Some s1 =>
      let '(ts, s2) := Str.span is_digit (Str.erase_leading is_space s1) in
      if Str.is_empty ts then None
      else match Str.expect ":" s2 with
           | None => None
           | Some s3 =>
               let '(dur, s4) := Str.span is_digit s3 in
               if Str.is_empty dur then None
               else match Str.expect ";" (Str.erase_leading is_space s4) with
                    | None => None
                    | Some rest =>
                        if Str.forallb is_dot rest then Some ts else None
                    end
           end
  end.

Definition LLONG_MAX : Z := (2 ^ 63 - 1)%Z.
Definition LLONG_MIN : Z := (- 2 ^ 63)%Z.

Inductive stoll_result :=
| StollValue (z : Z)
| StollOutOfRange       (* std::out_of_range *)
| StollInvalid.         (* std::invalid_argument *)

Definition digit_value (c : ascii) : Z := (Z.of_nat (nat_of_ascii c) - 48)%Z.

(** The value of a string of decimal digits, most significant first. *)
Fixpoint digits_value (acc : Z) (s : string) : Z :=
  match s with
  | EmptyString => acc
  | String c s' => digits_value (10 * acc + digit_value c)%Z s'
  end.

(** [std::stoll(s)]: leading white space, an optional sign, then the longest
    run of decimal digits. *)
Definition stoll (s : string) : stoll_result :=
  let s1 := Str.erase_leading is_space s in
  let '(neg, s2) :=
    match Str.expect "-" s1, Str.expect "+" s1 with
    | Some r, _ => (true, r)
    | None, Some r => (false, r)
    | None, None => (false, s1)
    end in
  let '(ds, _) := Str.span is_digit s2 in
  if Str.is_empty ds then StollInvalid
  else
    let v := digits_value 0 ds in
    let z := if neg then (- v)%Z else v in
    if (LLONG_MIN <=? z)%Z && (z <=? LLONG_MAX)%Z then StollValue z
    else StollOutOfRange.

(* ===================================================================== *)
(** * HistoryCleaner.cpp: the decision on one entry *)
(* ===================================================================== *)

(** The stream handed to [processHistory]: [std::cout] in a dry run, a stream
    in a failed state (which drops what it is sent) otherwise. *)
Inductive ostream := ToCout | ToNull.

Definition send (o : ostream) (m : msg) (w : World) : World :=
  match o with
  | ToCout => log_out m w
  | ToNull => w
  end.

(** [keptCount] and [deletedCount]. *)
Record Counts := { keptCount : nat; deletedCount : nat }.

Definition kept_incr (c : Counts) : Counts :=
  {| keptCount := S (keptCount c); deletedCount := deletedCount c |}.

Definition deleted_incr (c : Counts) : Counts :=
  {| keptCount := keptCount c; deletedCount := S (deletedCount c) |}.

(** The loop over [filterKeywords_], lines 996-1001. *)
Fixpoint any_keyword (keywords : list string) (command : string) : bool :=
  match keywords with
  | [] => false
  | keyword :: ks =>
      match Str.find keyword command with
      | Some _ => true
      | None => any_keyword ks command
      end
  end.

(** The loop over [filterRegexes_], lines 1006-1011. *)
Fixpoint any_regex (regexes : list regex) (command : string) : bool :=
  match regexes with
  | [] => false
  | r :: rs => if r command then true else any_regex rs command
  end.

Definition is_nil {A : Type} (l : list A) : bool :=
  match l with [] => true | _ :: _ => false end.

(** Lines 982-1014: [shouldDelete] for a first line inside the window. *)
Definition content_filters (hc : HistoryCleaner) (firstLine : string) : bool :=
  match Str.find_char ";" firstLine with
  | None => false
  | Some cmdStart =>
      let command := Str.erase_leading is_blank (Str.drop (S cmdStart) firstLine) in
      if is_nil (filterKeywords_ hc) && is_nil (filterRegexes_ hc) then true
      else
        let shouldDelete :=
          if negb (is_nil (filterKeywords_ hc))
          then any_keyword (filterKeywords_ hc) command
          else false in
        if negb (is_nil (filterRegexes_ hc)) && negb shouldDelete
        then any_regex (filterRegexes_ hc) command
        else shouldDelete
  end.

(** [bool HistoryCleaner::processCommandBlock(block, lineNum, output,
    keptCount, deletedCount)]: true when the block is to be deleted. *)
Definition processCommandBlock (hc : HistoryCleaner) (block : string)
    (lineNum : nat) (output : ostream) (c : Counts) (w : World)
    : bool * Counts * World :=
  match Str.find_char Str.LF block with
  | None =>
      (false, kept_incr c,
       log_err (SayLine "Warning: Malformed history entry. Keeping block." lineNum) w)
  | Some firstLineEnd =>
      let firstLine := Str.take firstLineEnd block in
      match historyEntryRegex_ firstLine with
      | None =>
          (false, kept_incr c,
           log_err (SayLine "Warning: Invalid history entry format. Keeping block." lineNum) w)
      | Some digits =>
          match stoll digits with
          | StollOutOfRange =>
              (false, kept_incr c,
               log_err (SayLine "Warning: Timestamp out of range. Keeping entry." lineNum) w)
          | StollInvalid =>
              (false, kept_incr c,
               log_err (SayLine "Warning: Invalid timestamp format. Keeping entry." lineNum) w)
          | StollValue timestamp =>
              if (startTimestamp_ hc <=? timestamp)%Z
                 && (timestamp <=? endTimestamp_ hc)%Z
                 && content_filters hc firstLine
              then
                (true, deleted_incr c,
                 if dryRun_ hc then send output (WouldDelete lineNum block) w else w)
              else (false, kept_incr c, w)
          end
      end
  end.

(* ===================================================================== *)
(** * HistoryCleaner.cpp: scanning the history file *)
(* ===================================================================== *)

(** What successive [std::getline] calls extract from a file: the pieces
    between line feeds; a last piece without line feed counts when it is not
    empty. *)
Fixpoint getlines (s : string) : list string :=
  match s with
  | EmptyString => []
  | String c s' =>
      if Ascii.eqb c Str.LF then EmptyString :: getlines s'
      else match getlines s' with
           | [] => [String c EmptyString]
           | l :: ls => String c l :: ls
           end
  end.

(** Lines 1075-1077: a trailing carriage return is dropped. *)
Definition strip_cr (line : string) : string :=
  match Str.back line with
  | Some c => if Ascii.eqb c Str.CR then Str.pop_back line else line
  | None => line
  end.

Definition NL : string := String Str.LF EmptyString.

(** The local variables of [processHistory] during the scan. *)
Record Scan := {
  lineNum : nat;
  currentCommandBlock : string;
  keptEntries : list string;
  counts : Counts;
  world : World
}.

(** Lines 1085-1090 and 1111-1116: the pending block is decided and, when it
    survives a mutating run, stored. *)
Definition flush_block (hc : HistoryCleaner) (output : ostream) (ln : nat)
    (st : Scan) : Scan :=
  if Str.is_empty (currentCommandBlock st) then st
  else
    let '(shouldDelete, c, w) :=
      processCommandBlock hc (currentCommandBlock st) ln output (counts st) (world st) in
    {| lineNum := lineNum st;
       currentCommandBlock := currentCommandBlock st;
       keptEntries := if negb shouldDelete && negb (dryRun_ hc)
                      then keptEntries st ++ [currentCommandBlock st]
                      else keptEntries st;
       counts := c;
       world := w |}.

(** Lines 1072-1107: the body of the loop for one line read. *)
Definition scan_line (hc : HistoryCleaner) (output : ostream) (raw : string)
    (st : Scan) : Scan :=
  let n := S (lineNum st) in
  let line := strip_cr raw in
  match historyEntryRegex_ line with
  | Some _ =>
      let st1 := flush_block hc output (n - 1) st in
      {| lineNum := n;
         currentCommandBlock := line +:+ NL;
         keptEntries := keptEntries st1;
         counts := counts st1;
         world := world st1 |}
  | None =>
      if negb (Str.is_empty (currentCommandBlock st))
      then
        {| lineNum := n;
           currentCommandBlock := currentCommandBlock st +:+ (line +:+ NL);
           keptEntries := keptEntries st;
           counts := counts st;
           world := world st |}
      else
        {| lineNum := n;
           currentCommandBlock := currentCommandBlock st;
           keptEntries := if negb (dryRun_ hc)
                          then keptEntries st ++ [line +:+ NL]
                          else keptEntries st;
           counts := kept_incr (counts st);
           world := log_err (SayLine "Warning: Line found before first valid history entry timestamp. Keeping line." n)
                      (world st) |}
  end.

Definition with_world (w : World) (st : Scan) : Scan :=
  {| lineNum := lineNum st; currentCommandBlock := currentCommandBlock st;
     keptEntries := keptEntries st; counts := counts st; world := w |}.

(** The [while (true)] loop, lines 1058-1108, over the lines still to be
    read.  False when the scan is given up. *)
Fixpoint scan_lines (E : Env) (hc : HistoryCleaner) (output : ostream)
    (lines : list string) (st : Scan) : bool * Scan :=
  if interrupted_ hc
  then (false, with_world (log_err (Say "Interrupted during history processing.") (world st)) st)
  else
    match read_error_after E with
    | Some k =>
        if k =? lineNum st
        then (false, with_world (log_err (SayLine "Error reading history file" (lineNum st)) (world st)) st)
        else match lines with
             | [] => (true, st)
             | raw :: rest => scan_lines E hc output rest (scan_line hc output raw st)
             end
    | None =>
        match lines with
        | [] => (true, st)
        | raw :: rest => scan_lines E hc output rest (scan_line hc output raw st)
        end
    end.

(** The [std::ifstream] on the history file: its content when it could be
    opened. *)
Definition open_history (E : Env) (p : string) (w : World) : option string :=
  if read_open_fails E p then None
  else match files w !! p with
       | Some (RegularFile c) => Some c
       | _ => None
       end.

(* ===================================================================== *)
(** * HistoryCleaner.cpp: cleanup, backup and the commit *)
(* ===================================================================== *)

(** [void HistoryCleaner::cleanup()]. *)
Definition cleanup (E : Env) (hc : HistoryCleaner) (w : World)
    : HistoryCleaner * World :=
  if negb (Str.is_empty (tempFilePath_ hc)) && fs_exists (tempFilePath_ hc) w
  then
    let '(removed, w1) := fs_remove E (tempFilePath_ hc) w in
    let w2 := if removed then w1
              else log_err (Say "Warning: Failed to remove temporary file") w1 in
    (set_temp "" hc, w2)
  else (hc, w).

(** [p.filename()]. *)
Definition filename (p : string) : string :=
  match last_slash p 0 with
  | None => p
  | Some i => Str.drop (S i) p
  end.

(** The fifteen characters [charset[dist(gen)]], [dist] uniform on 0..35. *)
Definition random_name36 (gen : nat -> nat) : string :=
  Str.tabulate (fun k => char_at charset36 (gen k mod 36)) 0 15.

Definition backup_path (E : Env) (hc : HistoryCleaner) : string :=
  path_append (parent_path (effectiveHistoryFilePath_ hc))
    (filename (effectiveHistoryFilePath_ hc) +:+ ".backup_" +:+ random_name36 (backup_gen E)).

Definition temp_path (E : Env) (hc : HistoryCleaner) : string :=
  path_append (parent_path (effectiveHistoryFilePath_ hc)) (random_name36 (temp_gen E)).

(** [fs::copy_file(src, dst, overwrite_existing, ec)]: true when [ec] stays
    clear. *)
Definition fs_copy_file (E : Env) (src dst : string) (w : World) : bool * World :=
  match files w !! src with
  | Some (RegularFile c) =>
      if copy_fails E src dst then (false, w)
      else (true, emit (EvCopy src dst) (set_files (insert dst (RegularFile c)) w))
  | _ => (false, w)
  end.

(** [bool HistoryCleaner::backupHistoryFile()]. *)
Definition backupHistoryFile (E : Env) (hc : HistoryCleaner) (w : World)
    : bool * HistoryCleaner * World :=
  if interrupted_ hc then (false, hc, log_err (Say "Interrupted before backup.") w)
  else
    let hc1 := set_backup (backup_path E hc) hc in
    match fs_copy_file E (effectiveHistoryFilePath_ hc) (backupFilePath_ hc1) w with
    | (false, w1) =>
        (false, set_backup "" hc1, log_err (Say "Error: Failed to create backup file") w1)
    | (true, w1) => (true, hc1, log_out (Say "Backup created") w1)
    end.

(** [bool HistoryCleaner::performCleanup(std::ostream& output)]. *)
Definition performCleanup (E : Env) (hc : HistoryCleaner) (output : ostream)
    (w : World) : bool * HistoryCleaner * World :=
  if interrupted_ hc
  then (false, hc, log_err (Say "Interrupted before final cleanup steps.") w)
  else if dryRun_ hc
  then (true, hc, send output (Say "Dry run: No changes made.") w)
  else
    (* 1. Backup original file if requested *)
    let '(backedUp, hc1, w1) :=
      if doBackup_ hc then backupHistoryFile E hc w else (true, hc, w) in
    if negb backedUp
    then (false, hc1,
          log_err (Say "Backup failed. Aborting cleanup to preserve original file.") w1)
    else
      (* 2. Securely delete the original history file *)
      let w2 := send output (Say "Securely deleting original history file") w1 in
      match secureDelete E (effectiveHistoryFilePath_ hc1) (shredPasses_ hc1) w2 with
      | (false, w3) =>
          (false, hc1,
           log_err (Say "Error: Secure delete of original history file failed.") w3)
      | (true, w3) =>
          (true, hc1, send output (Say "Original history file securely deleted.") w3)
      end.

(** [newFile << entry]: the bytes reach the temporary file. *)
Definition append_entry (p entry : string) (w : World) : World :=
  emit (EvAppend p (String.length entry))
    (set_files (fun m =>
       match m !! p with
       | Some (RegularFile c) => <[p := RegularFile (c +:+ entry)]> m
       | _ => m
       end) w).

(** Lines 1146-1154: the loop writing the kept entries; [i] numbers them.
    False at the first entry the stream fails on. *)
Fixpoint write_entries (E : Env) (p : string) (i : nat) (entries : list string)
    (w : World) : bool * World :=
  match entries with
  | [] => (true, w)
  | entry :: rest =>
      if append_fails E i
      then (false, log_err (Say "Error: Failed to write to new history file") w)
      else write_entries E p (S i) rest (append_entry p entry w)
  end.

(** Lines 1128-1174: what a mutating run does after the scan. *)
Definition commit (E : Env) (hc : HistoryCleaner) (output : ostream)
    (kept : list string) (w : World) : bool * HistoryCleaner * World :=
  let hc1 := set_temp (temp_path E hc) hc in
  (* Write kept entries to the new file *)
  if create_fails E (tempFilePath_ hc1)
  then (false, hc1, log_err (Say "Error: Cannot create new history file") w)
  else
    let w1 := emit (EvCreate (tempFilePath_ hc1))
                (set_files (insert (tempFilePath_ hc1) (RegularFile "")) w) in
    match write_entries E (tempFilePath_ hc1) 0 kept w1 with
    | (false, w2) =>
        let '(hc2, w3) := cleanup E hc1 w2 in (false, hc2, w3)
    | (true, w2) =>
        (* Now we can safely replace the original file *)
        match performCleanup E hc1 output w2 with
        | (false, hc2, w3) =>
            let '(hc3, w4) := cleanup E hc2 w3 in (false, hc3, w4)
        | (true, hc2, w3) =>
            (* Rename new file to original name *)
            match fs_rename E (tempFilePath_ hc2) (effectiveHistoryFilePath_ hc2) w3 with
            | (false, w4) =>
                let '(hc3, w5) :=
                  cleanup E hc2
                    (log_err (Say "Error: Failed to rename new history file") w4) in
                (false, hc3, w5)
            | (true, w4) => (true, set_temp "" hc2, w4)
            end
        end
    end.

Definition scan_start (w : World) : Scan :=
  {| lineNum := 0; currentCommandBlock := ""; keptEntries := [];
     counts := {| keptCount := 0; deletedCount := 0 |}; world := w |}.

(** [bool HistoryCleaner::processHistory(std::ostream& output)]. *)
Definition processHistory (E : Env) (hc : HistoryCleaner) (output : ostream)
    (w : World) : bool * HistoryCleaner * World :=
  if interrupted_ hc
  then (false, hc, log_err (Say "Interrupted before processing history.") w)
  else
    match open_history E (effectiveHistoryFilePath_ hc) w with
    | None =>
        if fs_exists (effectiveHistoryFilePath_ hc) w
        then (false, hc, log_err (Say "Error: Cannot open history file for reading") w)
        else (false, hc, log_err (SayLine "Error reading history file" 0) w)
    | Some content =>
        match scan_lines E hc output (getlines content) (scan_start w) with
        | (false, st) => (false, hc, world st)
        | (true, st) =>
            (* Process the last block if any *)
            let st1 := flush_block hc output (lineNum st) st in
            let w1 := log_out (Summary (lineNum st1) (keptCount (counts st1))
                                 (deletedCount (counts st1))) (world st1) in
            if dryRun_ hc then (true, hc, w1)
            else commit E hc output (keptEntries st1) w1
        end
    end.

(* ===================================================================== *)
(** * The vocabulary of the properties *)
(* ===================================================================== *)

(** ** Environments *)

(** No operation of the environment fails. *)
Record NoFaults (E : Env) : Prop := {
  nf_status : forall p, status_error E p = false;
  nf_size : forall p, size_error E p = false;
  nf_open : forall p, open_sync E p = OpenOk;
  nf_seek : forall n, seek_fails E n = false;
  nf_fsync : forall n, fsync_fails E n = false;
  nf_rename : forall p q, rename_fails E p q = false;
  nf_remove : forall p, remove_fails E p = false;
  nf_read_open : forall p, read_open_fails E p = false;
  nf_read : read_error_after E = None;
  nf_create : forall p, create_fails E p = false;
  nf_append : forall n, append_fails E n = false;
  nf_copy : forall p q, copy_fails E p q = false
}.

(** Two worlds with the same file system, the same effects recorded and the
    same pending outcomes: only the streams may differ. *)
Definition same_disk (w w' : World) : Prop :=
  files w' = files w /\ trace w' = trace w /\ sink w' = sink w
  /\ writes w' = writes w.

Definition log_errs (ms : list msg) (w : World) : World :=
  {| files := files w; writes := writes w; sink := sink w;
     trace := trace w; cerr := cerr w ++ ms; cout := cout w |}.

(** ** The overwrite passes *)

(** The number of [write] calls one pass needs for [n] bytes with a buffer of
    [b] bytes. *)
Definition chunks (b n : nat) : nat := (n + (b - 1)) / b.

(** The writes of one complete pass over a file of [n] bytes: consecutive
    pieces of at most [b] bytes, the first at offset [pos]. *)
Definition pass_writes (p : string) (b pos n : nat) : list event :=
  map (fun i => EvWrite p (pos + i * b) (Nat.min b (n - i * b)))
      (seq 0 (chunks b n)).

(** The bytes the writes among some events carry. *)
Fixpoint written_bytes (evs : list event) : nat :=
  match evs with
  | [] => 0
  | EvWrite _ _ len :: evs' => len + written_bytes evs'
  | _ :: evs' => written_bytes evs'
  end.

(** One complete pass: its writes from offset 0, then the sync. *)
Definition pass_events (p : string) (n : nat) : list event :=
  pass_writes p SHRED_BUFFER_SIZE 0 n ++ [EvFsync p].

(** ** Header lines *)

(** Where a string starts: with a character outside [p], or nowhere. *)
Definition starts_outside (p : ascii -> bool) (s : string) : Prop :=
  match s with
  | EmptyString => True
  | String c _ => p c = false
  end.

(** The grammar of [^\s*:\s*(\d+):\d+\s*;.*$], with the capture group [ts]
    and the text [rest] after the semicolon. *)
Definition header_line (line ts rest : string) : Prop :=
  exists ws1 ws2 dur ws3,
    line = ws1 +:+ ":" +:+ ws2 +:+ ts +:+ ":" +:+ dur +:+ ws3 +:+ ";" +:+ rest
    /\ Str.forallb is_space ws1 = true
    /\ Str.forallb is_space ws2 = true
    /\ Str.forallb is_digit ts = true /\ ts <> ""
    /\ Str.forallb is_digit dur = true /\ dur <> ""
    /\ Str.forallb is_space ws3 = true
    /\ Str.forallb is_dot rest = true.

(** The timestamp [processCommandBlock] reads from a block: none when the
    block has no line feed, its first line is not a header line, or [stoll]
    throws on the digits. *)
Definition header_timestamp (block : string) : option Z :=
  match Str.find_char Str.LF block with
  | None => None
  | Some i =>
      match historyEntryRegex_ (Str.take i block) with
      | None => None
      | Some digits =>
          match stoll digits with
          | StollValue ts => Some ts
          | _ => None
          end
      end
  end.

(** ** The decision, in the words of the specification *)

Definition inWindow (hc : HistoryCleaner) (ts : Z) : Prop :=
  (startTimestamp_ hc <= ts <= endTimestamp_ hc)%Z.

Definition is_substring (k s : string) : Prop :=
  exists pre post, s = pre +:+ k +:+ post.

Definition matches (hc : HistoryCleaner) (commandText : string) : Prop :=
  (filterKeywords_ hc = [] /\ filterRegexes_ hc = [])
  \/ (exists k, In k (filterKeywords_ hc) /\ is_substring k commandText)
  \/ (exists r, In r (filterRegexes_ hc) /\ r commandText = true).

(** The command text of a header line whose text after the delimiter is
    [rest]. *)
Definition commandText (rest : string) : string :=
  Str.erase_leading is_blank rest.

(** ** The scan and its records *)

Definition no_counts : Counts := {| keptCount := 0; deletedCount := 0 |}.

(** The scan of a run that is neither interrupted nor hit by a read error:
    the loop body over the lines, in order. *)
Definition scan_fold (hc : HistoryCleaner) (output : ostream)
    (lines : list string) (st : Scan) : Scan :=
  fold_left (fun st raw => scan_line hc output raw st) lines st.

Definition preamble_warning (n : nat) : msg :=
  SayLine "Warning: Line found before first valid history entry timestamp. Keeping line." n.

(** A record is a line met before the first header line, or a block: a
    header line with the lines that follow it, and the number of the last
    line read when it is decided. *)
Inductive record :=
| Preamble (raw : string)
| Entry (raw : string) (endLine : nat).

Definition raw_of (r : record) : string :=
  match r with
  | Preamble raw => raw
  | Entry raw _ => raw
  end.

Definition pending (cur : string) (ln : nat) : list record :=
  if Str.is_empty cur then [] else [Entry cur ln].

(** The records the loop of [processHistory] forms from the lines still to
    be read, [cur] being the block under construction and [ln] the number of
    lines read. *)
Fixpoint records_from (cur : string) (ln : nat) (lines : list string)
    : list record :=
  match lines with
  | [] => pending cur ln
  | raw :: rest =>
      let line := strip_cr raw in
      match historyEntryRegex_ line with
      | Some _ => pending cur ln ++ records_from (line +:+ NL) (S ln) rest
      | None =>
          if Str.is_empty cur
          then Preamble (line +:+ NL) :: records_from cur (S ln) rest
          else records_from (cur +:+ (line +:+ NL)) (S ln) rest
      end
  end.

Definition records (content : string) : list record :=
  records_from "" 0 (getlines content).

(** The decision of [processCommandBlock] on a block; it depends on nothing
    but the block, the window and the filters. *)
Definition decide (hc : HistoryCleaner) (block : string) : bool :=
  fst (fst (processCommandBlock hc block 0 ToNull no_counts (world_of ∅))).

Definition deleted (hc : HistoryCleaner) (r : record) : bool :=
  match r with
  | Preamble _ => false
  | Entry raw _ => decide hc raw
  end.

Definition survivors (hc : HistoryCleaner) (rs : list record) : list record :=
  List.filter (fun r => negb (deleted hc r)) rs.

Definition casualties (hc : HistoryCleaner) (rs : list record) : list record :=
  List.filter (fun r => deleted hc r) rs.

(** ** Line ends *)

(** A file with its line ends normalized: a last line without line feed gets
    one, and a carriage return right before a line feed goes. *)
Definition ensure_final_newline (s : string) : string :=
  match Str.back s with
  | None => ""
  | Some c => if Ascii.eqb c Str.LF then s else s +:+ NL
  end.

Definition starts_with (c : ascii) (s : string) : bool :=
  match s with
  | String d _ => Ascii.eqb d c
  | EmptyString => false
  end.

Fixpoint crlf_to_lf (s : string) : string :=
  match s with
  | EmptyString => EmptyString
  | String c s' =>
      if Ascii.eqb c Str.CR && starts_with Str.LF s' then crlf_to_lf s'
      else String c (crlf_to_lf s')
  end.

Definition no_LF (l : string) : Prop :=
  Str.forallb (fun c => negb (Ascii.eqb c Str.LF)) l = true.

(* ===================================================================== *)
(** * Sample inputs *)
(* ===================================================================== *)

(** A generator whose first fifteen values differ and whose later values are
    all the same. *)
Definition sample_gen (k : nat) : nat := if k <? 15 then 2 * k + 1 else 5.
Definition sample_env : Env := quiet_env sample_gen.
Definition sample_path : string := "/home/u/.zsh_history".
Definition sample_world : World :=
  world_of {[ sample_path := RegularFile "secret" ]}.

(** A history of four lines: one before the first header line, an entry of
    two lines stamped 150 and an entry of one line stamped 300. *)
Definition sample_history : string :=
  "junk" +:+ NL +:+ ": 150:0;ls -l" +:+ NL +:+ "continued" +:+ NL
  +:+ ": 300:0;echo hi" +:+ NL.

Definition sample_history_world : World :=
  world_of {[ sample_path := RegularFile sample_history ]}.

(** A mutating run over the window [100, 200] with the keyword "ls". *)
Definition sample_cleaner : HistoryCleaner :=
  {| tempFilePath_ := ""; backupFilePath_ := "";
     effectiveHistoryFilePath_ := sample_path;
     mode_ := BETWEEN; startDateStr_ := ""; endDateStr_ := "";
     specificDateStr_ := ""; olderThanDays_ := -1;
     doBackup_ := false; dryRun_ := false; preciseTime_ := false;
     shredPasses_ := 2; startTimestamp_ := 100; endTimestamp_ := 200;
     filterKeywords_ := ["ls"]; filterRegexes_ := [];
     interrupted_ := false |}.

Definition set_dryRun (b : bool) (hc : HistoryCleaner) : HistoryCleaner :=
  {| tempFilePath_ := tempFilePath_ hc; backupFilePath_ := backupFilePath_ hc;
     effectiveHistoryFilePath_ := effectiveHistoryFilePath_ hc;
     mode_ := mode_ hc; startDateStr_ := startDateStr_ hc;
     endDateStr_ := endDateStr_ hc; specificDateStr_ := specificDateStr_ hc;
     olderThanDays_ := olderThanDays_ hc; doBackup_ := doBackup_ hc;
     dryRun_ := b; preciseTime_ := preciseTime_ hc;
     shredPasses_ := shredPasses_ hc;
     startTimestamp_ := startTimestamp_ hc; endTimestamp_ := endTimestamp_ hc;
     filterKeywords_ := filterKeywords_ hc; filterRegexes_ := filterRegexes_ hc;
     interrupted_ := interrupted_ hc |}.

(** The same run over the window [0, 0], which holds no entry of the sample
    history. *)
Definition keep_all_cleaner : HistoryCleaner := set_window 0 0 sample_cleaner.

Definition sample_scan (block : string) : Scan :=
  {| lineNum := 1; currentCommandBlock := block; keptEntries := [];
     counts := no_counts; world := sample_world |}.

(** What the sample run keeps of the sample history. *)
Definition sample_survivors : list string :=
  ["junk" +:+ NL; ": 300:0;echo hi" +:+ NL].

(** An environment in which nothing fails but a rename onto the history
    file, and one in which nothing fails but the creation of a file. *)
Definition rename_blocked_env : Env :=
  {| status_error := fun _ => false; size_error := fun _ => false;
     open_sync := fun _ => OpenOk; open_plain_fails := fun _ => false;
     seek_fails := fun _ => false; fsync_fails := fun _ => false;
     rename_fails := fun _ dst => String.eqb dst sample_path;
     remove_fails := fun _ => false;
     read_open_fails := fun _ => false; read_error_after := None;
     create_fails := fun _ => false; append_fails := fun _ => false;
     copy_fails := fun _ _ => false;
     shred_gen := sample_gen; temp_gen := sample_gen; backup_gen := sample_gen |}.

Definition create_blocked_env : Env :=
  {| status_error := fun _ => false; size_error := fun _ => false;
     open_sync := fun _ => OpenOk; open_plain_fails := fun _ => false;
     seek_fails := fun _ => false; fsync_fails := fun _ => false;
     rename_fails := fun _ _ => false;
     remove_fails := fun _ => false;
     read_open_fails := fun _ => false; read_error_after := None;
     create_fails := fun _ => true; append_fails := fun _ => false;
     copy_fails := fun _ _ => false;
     shred_gen := sample_gen; temp_gen := sample_gen; backup_gen := sample_gen |}.

(** A C library for a process in UTC that knows the first day of 2024. *)
Definition sample_tm (h m s : Z) : tm :=
  {| tm_sec := s; tm_min := m; tm_hour := h; tm_mday := 1; tm_mon := 0;
     tm_year := 124; tm_isdst := 0 |}.

Definition sample_libc : Libc :=
  {| strptime := fun input format =>
       if String.eqb format "%Y-%m-%d %H:%M:%S"
          && String.eqb input "2024-01-01 00:00:00"
       then Some (sample_tm 0 0 0, "")
       else if String.eqb format "%Y-%m-%d" && String.eqb input "2024-01-01"
       then Some (sample_tm 0 0 0, "")
       else None;
     mktime := fun t =>
       (1704067200 + (tm_mday t - 1) * 86400 + tm_hour t * 3600
        + tm_min t * 60 + tm_sec t)%Z;
     localtime_r := fun z =>
       sample_tm ((z - 1704067200) / 3600) ((z - 1704067200) mod 3600 / 60)
         ((z - 1704067200) mod 60);
     nowEpoch := 1704100000%Z |}.

(** The mode "before" on a date, without content filter. *)
Definition before_cleaner (date : string) (precise : bool) : HistoryCleaner :=
  {| tempFilePath_ := ""; backupFilePath_ := "";
     effectiveHistoryFilePath_ := sample_path;
     mode_ := BEFORE; startDateStr_ := ""; endDateStr_ := "";
     specificDateStr_ := date; olderThanDays_ := -1;
     doBackup_ := false; dryRun_ := false; preciseTime_ := precise;
     shredPasses_ := 2; startTimestamp_ := 0; endTimestamp_ := 0;
     filterKeywords_ := []; filterRegexes_ := [];
     interrupted_ := false |}.

(* ===================================================================== *)
(** * HistoryCleaner.cpp: the command line *)
(* ===================================================================== *)

(** The member [doBackup_] set to [b]. *)
Definition set_doBackup (b : bool) (hc : HistoryCleaner) : HistoryCleaner :=
  {| tempFilePath_ := tempFilePath_ hc; backupFilePath_ := backupFilePath_ hc;
     effectiveHistoryFilePath_ := effectiveHistoryFilePath_ hc;
     mode_ := mode_ hc; startDateStr_ := startDateStr_ hc;
     endDateStr_ := endDateStr_ hc; specificDateStr_ := specificDateStr_ hc;
     olderThanDays_ := olderThanDays_ hc; doBackup_ := b;
     dryRun_ := dryRun_ hc; preciseTime_ := preciseTime_ hc;
     shredPasses_ := shredPasses_ hc;
     startTimestamp_ := startTimestamp_ hc; endTimestamp_ := endTimestamp_ hc;
     filterKeywords_ := filterKeywords_ hc; filterRegexes_ := filterRegexes_ hc;
     interrupted_ := interrupted_ hc |}.

(** [std::string getEnvVar(name, defaultValue)], over the environment of the
    process. *)
Definition getEnvVar (getenv : string -> option string) (name default : string)
    : string :=
  match getenv name with
  | None => default
  | Some value => value
  end.

(** A call that ends the process: [errorExit] with its message and the exit
    code 1, or [usage] with the exit code 0. *)
Inductive outcome (A : Type) :=
| Continue (a : A)
| Exited (code : Z) (message : string).
Arguments Continue {A} a.
Arguments Exited {A} code message.

Definition INT_MAX : Z := (2 ^ 31 - 1)%Z.
Definition INT_MIN : Z := (- 2 ^ 31)%Z.

(** [std::stoi(s)]: as [std::stoll], within the range of [int]. *)
Definition stoi (s : string) : stoll_result :=
  let s1 := Str.erase_leading is_space s in
  let '(neg, s2) :=
    match Str.expect "-" s1, Str.expect "+" s1 with
    | Some r, _ => (true, r)
    | None, Some r => (false, r)
    | None, None => (false, s1)
    end in
  let '(ds, _) := Str.span is_digit s2 in
  if Str.is_empty ds then StollInvalid
  else
    let v := digits_value 0 ds in
    let z := if neg then (- v)%Z else v in
    if (INT_MIN <=? z)%Z && (z <=? INT_MAX)%Z then StollValue z
    else StollOutOfRange.

(** The members of the class the command line sets, written together. *)
Definition with_options (m : Mode) (startDate endDate date : string) (days : Z)
    (backup dry precise : bool) (passes : Z) (keywords : list string)
    (regexes : list regex) (hc : HistoryCleaner) : HistoryCleaner :=
  {| tempFilePath_ := tempFilePath_ hc; backupFilePath_ := backupFilePath_ hc;
     effectiveHistoryFilePath_ := effectiveHistoryFilePath_ hc;
     mode_ := m; startDateStr_ := startDate; endDateStr_ := endDate;
     specificDateStr_ := date; olderThanDays_ := days; doBackup_ := backup;
     dryRun_ := dry; preciseTime_ := precise; shredPasses_ := passes;
     startTimestamp_ := startTimestamp_ hc; endTimestamp_ := endTimestamp_ hc;
     filterKeywords_ := keywords; filterRegexes_ := regexes;
     interrupted_ := interrupted_ hc |}.

Definition set_mode (m : Mode) (hc : HistoryCleaner) : HistoryCleaner :=
  with_options m (startDateStr_ hc) (endDateStr_ hc) (specificDateStr_ hc)
    (olderThanDays_ hc) (doBackup_ hc) (dryRun_ hc) (preciseTime_ hc)
    (shredPasses_ hc) (filterKeywords_ hc) (filterRegexes_ hc) hc.

Definition set_precise (b : bool) (hc : HistoryCleaner) : HistoryCleaner :=
  with_options (mode_ hc) (startDateStr_ hc) (endDateStr_ hc) (specificDateStr_ hc)
    (olderThanDays_ hc) (doBackup_ hc) (dryRun_ hc) b
    (shredPasses_ hc) (filterKeywords_ hc) (filterRegexes_ hc) hc.

Definition set_startDate (s : string) (hc : HistoryCleaner) : HistoryCleaner :=
  with_options (mode_ hc) s (endDateStr_ hc) (specificDateStr_ hc)
    (olderThanDays_ hc) (doBackup_ hc) (dryRun_ hc) (preciseTime_ hc)
    (shredPasses_ hc) (filterKeywords_ hc) (filterRegexes_ hc) hc.

Definition set_endDate (s : string) (hc : HistoryCleaner) : HistoryCleaner :=
  with_options (mode_ hc) (startDateStr_ hc) s (specificDateStr_ hc)
    (olderThanDays_ hc) (doBackup_ hc) (dryRun_ hc) (preciseTime_ hc)
    (shredPasses_ hc) (filterKeywords_ hc) (filterRegexes_ hc) hc.

Definition set_date (s : string) (hc : HistoryCleaner) : HistoryCleaner :=
  with_options (mode_ hc) (startDateStr_ hc) (endDateStr_ hc) s
    (olderThanDays_ hc) (doBackup_ hc) (dryRun_ hc) (preciseTime_ hc)
    (shredPasses_ hc) (filterKeywords_ hc) (filterRegexes_ hc) hc.

Definition set_days (d : Z) (hc : HistoryCleaner) : HistoryCleaner :=
  with_options (mode_ hc) (startDateStr_ hc) (endDateStr_ hc) (specificDateStr_ hc)
    d (doBackup_ hc) (dryRun_ hc) (preciseTime_ hc)
    (shredPasses_ hc) (filterKeywords_ hc) (filterRegexes_ hc) hc.

Definition set_passes (n : Z) (hc : HistoryCleaner) : HistoryCleaner :=
  with_options (mode_ hc) (startDateStr_ hc) (endDateStr_ hc) (specificDateStr_ hc)
    (olderThanDays_ hc) (doBackup_ hc) (dryRun_ hc) (preciseTime_ hc)
    n (filterKeywords_ hc) (filterRegexes_ hc) hc.

Definition push_keyword (k : string) (hc : HistoryCleaner) : HistoryCleaner :=
  with_options (mode_ hc) (startDateStr_ hc) (endDateStr_ hc) (specificDateStr_ hc)
    (olderThanDays_ hc) (doBackup_ hc) (dryRun_ hc) (preciseTime_ hc)
    (shredPasses_ hc) (filterKeywords_ hc ++ [k]) (filterRegexes_ hc) hc.

Definition push_regex (r : regex) (hc : HistoryCleaner) : HistoryCleaner :=
  with_options (mode_ hc) (startDateStr_ hc) (endDateStr_ hc) (specificDateStr_ hc)
    (olderThanDays_ hc) (doBackup_ hc) (dryRun_ hc) (preciseTime_ hc)
    (shredPasses_ hc) (filterKeywords_ hc) (filterRegexes_ hc ++ [r]) hc.

(** The cleaner with the members that take no part in the scan:
    [historyFilePath_], [interactive_] and [filterRegexStrs_]. *)
Record Cli := {
  members : HistoryCleaner;
  historyFilePath_ : string;
  interactive_ : bool;
  filterRegexStrs_ : list string
}.

Definition on_members (f : HistoryCleaner -> HistoryCleaner) (c : Cli) : Cli :=
  {| members := f (members c); historyFilePath_ := historyFilePath_ c;
     interactive_ := interactive_ c; filterRegexStrs_ := filterRegexStrs_ c |}.

Definition set_historyFilePath (p : string) (c : Cli) : Cli :=
  {| members := members c; historyFilePath_ := p;
     interactive_ := interactive_ c; filterRegexStrs_ := filterRegexStrs_ c |}.

Definition set_interactive (b : bool) (c : Cli) : Cli :=
  {| members := members c; historyFilePath_ := historyFilePath_ c;
     interactive_ := b; filterRegexStrs_ := filterRegexStrs_ c |}.

Definition push_regexStr (s : string) (r : regex) (c : Cli) : Cli :=
  {| members := push_regex r (members c); historyFilePath_ := historyFilePath_ c;
     interactive_ := interactive_ c;
     filterRegexStrs_ := filterRegexStrs_ c ++ [s] |}.

(** The object when the constructor calls [parseArguments]: the default
    member initializers of the class and [shredPasses_ = SHRED_PASSES]. *)
Definition initial_members : HistoryCleaner :=
  {| tempFilePath_ := ""; backupFilePath_ := ""; effectiveHistoryFilePath_ := "";
     mode_ := NONE; startDateStr_ := ""; endDateStr_ := "";
     specificDateStr_ := ""; olderThanDays_ := -1;
     doBackup_ := false; dryRun_ := false; preciseTime_ := false;
     shredPasses_ := SHRED_PASSES; startTimestamp_ := 0; endTimestamp_ := 0;
     filterKeywords_ := []; filterRegexes_ := [];
     interrupted_ := false |}.

Definition initial_cli : Cli :=
  {| members := initial_members; historyFilePath_ := "";
     interactive_ := true; filterRegexStrs_ := [] |}.

(** Lines 475-486: the names of the modes. *)
Definition mode_of_string (s : string) : option Mode :=
  if String.eqb s "today" then Some TODAY
  else if String.eqb s "last_7_days" then Some LAST_7_DAYS
  else if String.eqb s "last_30_days" then Some LAST_30_DAYS
  else if String.eqb s "between" then Some BETWEEN
  else if String.eqb s "specific_day" then Some SPECIFIC_DAY
  else if String.eqb s "before" then Some BEFORE
  else if String.eqb s "after" then Some AFTER
  else if String.eqb s "all" then Some ALL_TIME
  else if String.eqb s "older_than" then Some OLDER_THAN
  else if String.eqb s "newer_than" then Some NEWER_THAN
  else None.

(** [args[i + 1][0] != '-'] negated; the first character of an empty string
    is the terminating null character. *)
Definition starts_with_dash (s : string) : bool :=
  match s with
  | String c _ => Ascii.eqb c "-"
  | EmptyString => false
  end.

(** Where the loop over the arguments stands: at an option, or inside the
    inner loop that takes the values of [--keyword] or of [--regex]. *)
Inductive collecting := NoValues | Keywords | Regexes.

(** Lines 467-558: the loop over [args]; [compile] is the constructor of
    [std::regex], which throws on some patterns; [has] is
    [hasNonHistfileArgs]. *)
Fixpoint parse_args (compile : string -> option regex) (col : collecting)
    (args : list string) (c : Cli) (has : bool) : outcome (Cli * bool) :=
  match args with
  | [] => Continue (c, has)
  | arg :: rest =>
      match col, starts_with_dash arg with
      | Keywords, false =>
          parse_args compile Keywords rest (on_members (push_keyword arg) c) has
      | Regexes, false =>
          match compile arg with
          | None => Exited 1 "Invalid regex pattern provided to --regex"
          | Some r => parse_args compile Regexes rest (push_regexStr arg r c) has
          end
      | _, _ =>
          if String.eqb arg "-h" || String.eqb arg "--help"
          then Exited 0 "usage"
          else if String.eqb arg "--mode" then
            match rest with
            | [] => Exited 1 "--mode requires an argument."
            | modeStr :: rest' =>
                match mode_of_string modeStr with
                | None => Exited 1 "Invalid mode"
                | Some m =>
                    parse_args compile NoValues rest' (on_members (set_mode m) c) true
                end
            end
          else if String.eqb arg "--precise" then
            parse_args compile NoValues rest (on_members (set_precise true) c) has
          else if String.eqb arg "--start-date" then
            match rest with
            | [] => Exited 1 "--start-date requires a DATE argument."
            | v :: rest' =>
                parse_args compile NoValues rest' (on_members (set_startDate v) c) true
            end
          else if String.eqb arg "--end-date" then
            match rest with
            | [] => Exited 1 "--end-date requires a DATE argument."
            | v :: rest' =>
                parse_args compile NoValues rest' (on_members (set_endDate v) c) true
            end
          else if String.eqb arg "--date" then
            match rest with
            | [] => Exited 1 "--date requires a DATE argument."
            | v :: rest' =>
                parse_args compile NoValues rest' (on_members (set_date v) c) true
            end
          else if String.eqb arg "--backup" then
            parse_args compile NoValues rest (on_members (set_doBackup true) c) true
          else if String.eqb arg "--dry-run" then
            parse_args compile NoValues rest (on_members (set_dryRun true) c) true
          else if String.eqb arg "--histfile" then
            match rest with
            | [] => Exited 1 "--histfile requires a PATH argument."
            | v :: rest' =>
                parse_args compile NoValues rest' (set_historyFilePath v c) has
            end
          else if String.eqb arg "--keyword" then
            match rest with
            | [] => Exited 1 "--keyword requires one or more STRING arguments."
            | _ :: _ => parse_args compile Keywords rest c true
            end
          else if String.eqb arg "--regex" then
            match rest with
            | [] => Exited 1 "--regex requires one or more PATTERN arguments."
            | _ :: _ => parse_args compile Regexes rest c true
            end
          else if String.eqb arg "--days" then
            match rest with
            | [] => Exited 1 "--days requires a positive integer argument."
            | daysStr :: rest' =>
                match stoi daysStr with
                | StollValue d =>
                    if (d <=? 0)%Z
                    then Exited 1 "--days requires a positive integer."
                    else parse_args compile NoValues rest' (on_members (set_days d) c) true
                | _ => Exited 1 "Invalid number provided for --days"
                end
            end
          else if String.eqb arg "--passes" then
            match rest with
            | [] => Exited 1 "--passes requires a positive integer argument."
            | passesStr :: rest' =>
                match stoi passesStr with
                | StollValue n =>
                    if (n <=? 0)%Z
                    then Exited 1 "--passes requires a positive integer."
                    else parse_args compile NoValues rest' (on_members (set_passes n) c) true
                | _ => Exited 1 "Invalid number provided for --passes"
                end
            end
          else Exited 1 "Unknown option"
      end
  end.

(** Lines 447-458: [$HISTFILE], or [.zsh_history] in [$HOME], or in the
    current directory with a warning. *)
Definition default_histfile (getenv : string -> option string)
    : string * list msg :=
  let histfilePathStr := getEnvVar getenv "HISTFILE" "" in
  if Str.is_empty histfilePathStr
  then
    let homeDir := getEnvVar getenv "HOME" "" in
    if Str.is_empty homeDir
    then (".zsh_history",
          [Say "Warning: Cannot determine home directory (HOME not set). Using relative path '.zsh_history'."])
    else (homeDir +:+ "/.zsh_history", [])
  else (histfilePathStr, []).

Definition nonempty (s : string) : bool := negb (Str.is_empty s).

(** Lines 564-606: the validation of a command line that is not
    interactive, and the messages it prints. *)
Definition validate (c : Cli) : outcome (Cli * list msg) :=
  let hc := members c in
  if match mode_ hc with NONE => true | _ => false end
  then Exited 1 "The --mode option is required when running non-interactively. Use -h for options."
  else
    let checked : outcome (list msg) :=
      match mode_ hc with
      | BETWEEN =>
          if Str.is_empty (startDateStr_ hc) || Str.is_empty (endDateStr_ hc)
          then Exited 1 "--start-date and --end-date are required for 'between' mode."
          else Continue []
      | SPECIFIC_DAY | BEFORE | AFTER =>
          if Str.is_empty (specificDateStr_ hc)
          then Exited 1 "--date is required for 'specific_day', 'before', or 'after' mode."
          else Continue []
      | OLDER_THAN =>
          if (olderThanDays_ hc <=? 0)%Z
          then Exited 1 "--days <positive_integer> is required for 'older_than' mode."
          else if nonempty (startDateStr_ hc) || nonempty (endDateStr_ hc)
                  || nonempty (specificDateStr_ hc) || preciseTime_ hc
          then Exited 1 "'older_than' mode cannot be used with --start-date, --end-date, --date, or --precise."
          else Continue []
      | _ =>
          Continue
            ((if nonempty (startDateStr_ hc) || nonempty (endDateStr_ hc)
                 || nonempty (specificDateStr_ hc) || (0 <? olderThanDays_ hc)%Z
              then [Say "Warning: Date/days arguments are ignored for the selected mode."]
              else [])
             ++ (if preciseTime_ hc
                 then [Say "Warning: --precise flag is ignored for the selected mode."]
                 else []))
      end in
    match checked with
    | Exited code message => Exited code message
    | Continue notes =>
        (* Dry run implies no backup needed *)
        if dryRun_ hc && doBackup_ hc
        then Continue (on_members (set_doBackup false) c,
                       notes ++ [Say "Info: --backup option ignored when --dry-run is specified."])
        else Continue (c, notes)
    end.

(** [void HistoryCleaner::parseArguments(int argc, char* argv[])], on the
    arguments after the program name; the messages printed come with the
    result. *)
Definition parseArguments (getenv : string -> option string)
    (compile : string -> option regex) (args : list string) (c : Cli)
    : outcome (Cli * list msg) :=
  let '(histfilePathStr, notes) := default_histfile getenv in
  let c1 := set_interactive true (set_historyFilePath histfilePathStr c) in
  match parse_args compile NoValues args c1 false with
  | Exited code message => Exited code message
  | Continue (c2, hasNonHistfileArgs) =>
      let c3 := set_interactive (negb hasNonHistfileArgs) c2 in
      if hasNonHistfileArgs
      then match validate c3 with
           | Exited code message => Exited code message
           | Continue (c4, notes') => Continue (c4, notes ++ notes')
           end
      else Continue (c3, notes)
  end.

(* ===================================================================== *)
(** * Utils.cpp: questions and the display of instants *)
(* ===================================================================== *)

(** [std::tolower] in the C locale. *)
Definition tolower (c : ascii) : ascii :=
  let n := nat_of_ascii c in
  if (65 <=? n) && (n <=? 90) then ascii_of_nat (n + 32) else c.

Definition invalid_answer : msg :=
  Say "Invalid input. Please answer yes (y) or no (n).".

(** [bool askYesNo(prompt, defaultYes)] over the lines still to be read from
    the standard input (none at its end): the answer, the lines left and
    what was printed. *)
Fixpoint askYesNo (prompt : string) (defaultYes : bool) (stdin : list string)
    : bool * list string * list msg :=
  match stdin with
  | [] =>
      (defaultYes, [],
       [Say prompt; Say "Input error or EOF detected. Assuming default"])
  | answerStr :: rest =>
      (* Trim leading/trailing whitespace for robustness *)
      match Str.erase_leading is_space answerStr with
      | EmptyString => (defaultYes, rest, [Say prompt])
      | String c _ =>
          let firstChar := tolower c in
          if Ascii.eqb firstChar "y" then (true, rest, [Say prompt])
          else if Ascii.eqb firstChar "n" then (false, rest, [Say prompt])
          else
            let '(answer, rest', out) := askYesNo prompt defaultYes rest in
            (answer, rest', Say prompt :: invalid_answer :: out)
      end
  end.

(** [strftime(buf, size, format, tm)] for a format whose expansion is
    [text]: the length written, 0 when the text and its terminator do not
    fit. *)
Definition strftime_len (size : nat) (text : string) : nat :=
  if String.length text <? size then String.length text else 0.

(** The loop of [epochToString]: the buffer doubles from 32 bytes on, up to
    256; [fuel] bounds the number of turns. *)
Fixpoint format_loop (fuel bufSize : nat) (text : string) : option string :=
  match fuel with
  | 0 => None
  | S fuel' =>
      if 0 <? strftime_len bufSize text then Some text
      else if 256 <=? bufSize then Some "Error formatting timestamp"
      else format_loop fuel' (2 * bufSize) text
  end.

(** [std::string epochToString(std::time_t epoch)]; [localtime] is
    [localtime_r], which may fail, and [expand] the expansion of the format
    ["%Y-%m-%d %H:%M:%S %Z"]. *)
Definition epochToString (localtime : Z -> option tm) (expand : tm -> string)
    (fuel : nat) (epoch : Z) : option string :=
  if (epoch =? TIME_T_MAX)%Z then Some "∞"
  else match localtime epoch with
       | None => Some "Invalid timestamp"
       | Some tm_snapshot => format_loop fuel 32 (expand tm_snapshot)
       end.

(* ===================================================================== *)
(** * HistoryCleaner.cpp: the run without interaction *)
(* ===================================================================== *)

(** How a call ends: it returns, or the process exits with a code
    ([errorExit]); the cleaner and the world are those of that moment. *)
Inductive ended :=
| Returned (hc : HistoryCleaner) (w : World)
| ExitCode (code : Z) (hc : HistoryCleaner) (w : World).

Definition world_at_end (r : ended) : World :=
  match r with
  | Returned _ w => w
  | ExitCode _ _ w => w
  end.

(** [void HistoryCleaner::runNonInteractive()]. *)
Definition runNonInteractive (L : Libc) (E : Env) (hc : HistoryCleaner)
    (w : World) : ended :=
  let w0 := log_out (Say "History file")
              (log_out (Say "Running in non-interactive mode.") w) in
  match calculateTimestamps L hc with
  | Throw _ =>
      ExitCode 1 hc (log_err (Say "Error: Error calculating timestamps") w0)
  | Ok hc1 =>
      (* Check for interruption after potentially slow date parsing *)
      if interrupted_ hc1
      then Returned hc1 (log_err (Say "Interrupted after timestamp calculation.") w0)
      else
        let w1 := log_out (Say "Processing entries between") w0 in
        if dryRun_ hc1
        then
          let w2 := log_out (Say "--- Dry Run Mode ---") w1 in
          match processHistory E hc1 ToCout w2 with
          | (false, hc2, w3) =>
              ExitCode 1 hc2
                (log_err (Say "Error: Dry run failed during history processing.") w3)
          | (true, hc2, w3) =>
              Returned hc2 (log_out (Say "--- End Dry Run ---") w3)
          end
        else
          match processHistory E hc1 ToNull w1 with
          | (false, hc2, w3) =>
              ExitCode 1 hc2
                (log_err (Say "Error: Failed to process history file.") w3)
          | (true, hc2, w3) =>
              if interrupted_ hc2
              then Returned hc2
                     (log_err (Say "Interrupted after processing history.") w3)
              else Returned hc2 (log_out (Say "History cleaning complete.") w3)
          end
  end.

(* ===================================================================== *)
(** * Further vocabulary *)
(* ===================================================================== *)

(** The entry [p] is a regular file of [n] bytes. *)
Definition sized (p : string) (n : nat) (w : World) : Prop :=
  exists c, files w !! p = Some (RegularFile c) /\ String.length c = n.

(** The size [secureDelete] reads for its passes: that of a regular file,
    nothing for any other entry. *)
Definition overwritable_size (p : string) (w : World) : nat :=
  match files w !! p with
  | Some (RegularFile c) => String.length c
  | _ => 0
  end.

(** What the overwrite loops keep, whatever the outcomes of the writes: the
    file keeps its length, the other entries are untouched and the bytes
    counted stay below what remained to be written. *)
Definition overwrite_inv (p : string) (n budget : nat) (w w' : World) : Prop :=
  sized p n w'
  /\ (forall q, q <> p -> files w' !! q = files w !! q)
  /\ sink w <= sink w' <= sink w + budget.

(** The end of [secureDelete], from the rename on, started on a file of [n]
    bytes. *)
Definition finish (E : Env) (p obscure : string) (w : World) : bool * World :=
  let '(renamed, w3) := fs_rename E p obscure w in
  match fs_remove E (if renamed then obscure else p) w3 with
  | (false, w4) => (false, log_err (Say "Error: Failed to delete file") w4)
  | (true, w4) => (true, w4)
  end.

Definition erase_post (E : Env) (p : string) (passes : Z) (w : World)
    (r : bool * World) : Prop :=
  (forall q, q <> p -> q <> obscure_path E p passes ->
             files (snd r) !! q = files w !! q)
  /\ sink w <= sink (snd r) <= sink w + Z.to_nat passes * overwritable_size p w
  /\ (forall n, sized p n w -> files (snd r) !! p = None \/ sized p n (snd r))
  /\ (fst r = true -> files (snd r) !! p = None).

(** What a dry run prints for a record it would delete. *)
Definition report (r : record) : msg :=
  match r with
  | Entry raw ln => WouldDelete ln raw
  | Preamble raw => WouldDelete 0 raw
  end.

(** What the scan sends to its output stream for some records: the report of
    those to delete, in a dry run on [std::cout]. *)
Definition announced (hc : HistoryCleaner) (output : ostream)
    (rs : list record) : list msg :=
  match output with
  | ToCout => if dryRun_ hc then map report (casualties hc rs) else []
  | ToNull => []
  end.



(** The modes whose window has no upper end. *)
Definition open_ended (m : Mode) : bool :=
  match m with
  | TODAY | LAST_7_DAYS | LAST_30_DAYS | AFTER | NEWER_THAN | ALL_TIME => true
  | _ => false
  end.

(** What holds of the members after any command line: the passes and the
    days are positive [int] values or still the initial ones, every compiled
    expression has its source text, and no path is registered. *)
Definition plausible (c : Cli) : Prop :=
  (1 <= shredPasses_ (members c) <= INT_MAX)%Z
  /\ (olderThanDays_ (members c) = (-1)%Z
      \/ (0 < olderThanDays_ (members c) <= INT_MAX)%Z)
  /\ length (filterRegexStrs_ c) = length (filterRegexes_ (members c))
  /\ tempFilePath_ (members c) = "" /\ backupFilePath_ (members c) = "".

(** What the validation of a command line that is not interactive
    guarantees, mode by mode. *)
Definition validated (hc : HistoryCleaner) : Prop :=
  mode_ hc <> NONE
  /\ (mode_ hc = BETWEEN -> startDateStr_ hc <> "" /\ endDateStr_ hc <> "")
  /\ (mode_ hc = SPECIFIC_DAY \/ mode_ hc = BEFORE \/ mode_ hc = AFTER ->
      specificDateStr_ hc <> "")
  /\ (mode_ hc = OLDER_THAN ->
      (0 < olderThanDays_ hc)%Z /\ startDateStr_ hc = "" /\ endDateStr_ hc = ""
      /\ specificDateStr_ hc = "" /\ preciseTime_ hc = false)
  /\ (dryRun_ hc = true -> doBackup_ hc = false).

(** As long as no option other than [--precise] and [--histfile] was met,
    the members are the initial ones but for the precise flag. *)
Definition untouched_members (c : Cli) (has : bool) : Prop :=
  has = false ->
  (exists p, members c = set_precise p initial_members)
  /\ filterRegexStrs_ c = [].

(** A line that answers the question: empty or blank for the default, or
    a first visible character that is a [y] or an [n], in either case. *)
Definition answer_of (defaultYes : bool) (line : string) : option bool :=
  match Str.erase_leading is_space line with
  | EmptyString => Some defaultYes
  | String c _ =>
      if Ascii.eqb c "y" || Ascii.eqb c "Y" then Some true
      else if Ascii.eqb c "n" || Ascii.eqb c "N" then Some false
      else None
  end.

(* ===================================================================== *)
(** * Further sample inputs *)
(* ===================================================================== *)


(** An environment in which no file can be removed or renamed. *)
Definition stuck_env : Env :=
  {| status_error := fun _ => false; size_error := fun _ => false;
     open_sync := fun _ => OpenOk; open_plain_fails := fun _ => false;
     seek_fails := fun _ => false; fsync_fails := fun _ => false;
     rename_fails := fun _ _ => true;
     remove_fails := fun _ => true;
     read_open_fails := fun _ => false; read_error_after := None;
     create_fails := fun _ => false; append_fails := fun _ => false;
     copy_fails := fun _ _ => false;
     shred_gen := sample_gen; temp_gen := sample_gen; backup_gen := sample_gen |}.


(** An environment in which nothing fails but the second read of a line. *)
Definition read_blocked_env : Env :=
  {| status_error := fun _ => false; size_error := fun _ => false;
     open_sync := fun _ => OpenOk; open_plain_fails := fun _ => false;
     seek_fails := fun _ => false; fsync_fails := fun _ => false;
     rename_fails := fun _ _ => false;
     remove_fails := fun _ => false;
     read_open_fails := fun _ => false; read_error_after := Some 1;
     create_fails := fun _ => false; append_fails := fun _ => false;
     copy_fails := fun _ _ => false;
     shred_gen := sample_gen; temp_gen := sample_gen; backup_gen := sample_gen |}.

(** The modes "older than" and "newer than" a number of days. *)
Definition days_cleaner (m : Mode) (days : Z) : HistoryCleaner :=
  {| tempFilePath_ := ""; backupFilePath_ := "";
     effectiveHistoryFilePath_ := sample_path;
     mode_ := m; startDateStr_ := ""; endDateStr_ := "";
     specificDateStr_ := ""; olderThanDays_ := days;
     doBackup_ := false; dryRun_ := false; preciseTime_ := false;
     shredPasses_ := 2; startTimestamp_ := 0; endTimestamp_ := 0;
     filterKeywords_ := []; filterRegexes_ := [];
     interrupted_ := false |}.

Definition sample_getenv (name : string) : option string :=
  if String.eqb name "HOME" then Some "/home/u" else None.

Definition sample_compile (pattern : string) : option regex :=
  if String.eqb pattern "(" then None
  else Some (fun s => match Str.find pattern s with Some _ => true | None => false end).

(** The mode "specific_day" on the first day of 2024. *)
Definition day_cleaner (dry : bool) : HistoryCleaner :=
  {| tempFilePath_ := ""; backupFilePath_ := "";
     effectiveHistoryFilePath_ := sample_path;
     mode_ := SPECIFIC_DAY; startDateStr_ := ""; endDateStr_ := "";
     specificDateStr_ := "2024-01-01"; olderThanDays_ := -1;
     doBackup_ := false; dryRun_ := dry; preciseTime_ := false;
     shredPasses_ := 2; startTimestamp_ := 0; endTimestamp_ := 0;
     filterKeywords_ := []; filterRegexes_ := [];
     interrupted_ := false |}.

(** A history with an entry of the first day of 2024 between two entries
    of other days. *)
Definition day_history : string :=
  ": 1704000000:0;make" +:+ NL +:+ ": 1704070000:0;ls" +:+ NL
  +:+ ": 1704200000:0;pwd" +:+ NL.

Definition day_world : World :=
  world_of {[ sample_path := RegularFile day_history ]}.

(* ===================================================================== *)
(** * Properties of strings *)
(* ===================================================================== *)

Module StrFacts.

Lemma sapp_nil_r (s : string) : s +:+ "" = s.
Proof. induction s as [|c s IH]; simpl; [reflexivity | now rewrite IH]. Qed.

Lemma sapp_assoc (a b c : string) : (a +:+ b) +:+ c = a +:+ (b +:+ c).
Proof. induction a as [|x a IH]; simpl; [reflexivity | now rewrite IH]. Qed.

Lemma length_app (a b : string) :
  String.length (a +:+ b) = String.length a + String.length b.
Proof. induction a as [|x a IH]; simpl; [reflexivity | now rewrite IH]. Qed.

Lemma length_tabulate f from n : String.length (Str.tabulate f from n) = n.
Proof.
  revert from; induction n as [|n IH]; intros from; simpl;
    [reflexivity | now rewrite IH].
Qed.

Lemma length_take n s :
  n <= String.length s -> String.length (Str.take n s) = n.
Proof.
  revert s; induction n as [|n IH]; intros [|c s] H; simpl in *;
    try reflexivity; try lia.
  rewrite IH; [reflexivity | lia].
Qed.

Lemma concat_app (l1 l2 : list string) :
  Str.concat (l1 ++ l2) = Str.concat l1 +:+ Str.concat l2.
Proof.
  induction l1 as [|s l1 IH]; simpl; [reflexivity|].
  now rewrite IH, sapp_assoc.
Qed.

Lemma is_empty_true s : Str.is_empty s = true <-> s = "".
Proof. destruct s; simpl; split; congruence. Qed.

End StrFacts.

(* ===================================================================== *)
(** * Properties of the erase primitive *)
(* ===================================================================== *)

Lemma quiet_env_NoFaults g : NoFaults (quiet_env g).
Proof. constructor; reflexivity. Qed.

#[local] Arguments SHRED_BUFFER_SIZE : simpl never.
#[local] Arguments fillRandom : simpl never.

Lemma SHRED_BUFFER_SIZE_pos : 0 < SHRED_BUFFER_SIZE.
Proof. unfold SHRED_BUFFER_SIZE; lia. Qed.

Lemma length_fillRandom gen cur :
  String.length (fillRandom gen cur) = SHRED_BUFFER_SIZE.
Proof. apply StrFacts.length_tabulate. Qed.

Section Chunks.

Variable p : string.
Variable b : nat.
Hypothesis b_pos : 0 < b.

Lemma chunks_0 : chunks b 0 = 0.
Proof. unfold chunks; simpl. apply Nat.div_small; lia. Qed.

Lemma chunks_small n : 0 < n -> n <= b -> chunks b n = 1.
Proof.
  intros Hn Hb. unfold chunks.
  replace (n + (b - 1)) with ((n - 1) + 1 * b) by lia.
  rewrite Nat.div_add by lia. rewrite Nat.div_small by lia. reflexivity.
Qed.

Lemma chunks_large n : b < n -> chunks b n = S (chunks b (n - b)).
Proof.
  intros Hb. unfold chunks.
  replace (n + (b - 1)) with ((n - b + (b - 1)) + 1 * b) by lia.
  rewrite Nat.div_add by lia. lia.
Qed.

Lemma pass_writes_0 pos : pass_writes p b pos 0 = [].
Proof. unfold pass_writes. now rewrite chunks_0. Qed.

Lemma pass_writes_step pos n :
  0 < n ->
  pass_writes p b pos n =
  EvWrite p pos (Nat.min b n) ::
    pass_writes p b (pos + Nat.min b n) (n - Nat.min b n).
Proof.
  intros Hn. unfold pass_writes.
  destruct (Nat.le_gt_cases n b) as [Hle | Hgt].
  - rewrite chunks_small by assumption.
    replace (n - Nat.min b n) with 0 by lia. rewrite chunks_0. simpl.
    do 2 f_equal; lia.
  - rewrite chunks_large by assumption.
    replace (Nat.min b n) with b by lia.
    rewrite <- cons_seq, <- seq_shift, map_cons, map_map. f_equal.
    + f_equal; lia.
    + apply map_ext. intros i. f_equal; lia.
Qed.

(** The bytes of the writes of one pass add up to the length of the file. *)
Lemma written_bytes_pass_writes fuel :
  forall n pos, n <= fuel -> written_bytes (pass_writes p b pos n) = n.
Proof.
  induction fuel as [|fuel IH]; intros n pos Hle.
  - assert (n = 0) as -> by lia. now rewrite pass_writes_0.
  - destruct n as [|n]; [now rewrite pass_writes_0|].
    rewrite pass_writes_step by lia. cbn [written_bytes].
    rewrite IH by lia. lia.
Qed.

End Chunks.

Section WriteLoop.

Variable p : string.
Variable buf : string.
Hypothesis buf_pos : 0 < String.length buf.

Lemma length_take_buf n :
  String.length (Str.take (Nat.min (String.length buf) n) buf)
  = Nat.min (String.length buf) n.
Proof. apply StrFacts.length_take. lia. Qed.

(** A run of complete writes: the bytes counted, the events recorded, the
    entry still there and the other entries untouched. *)
Lemma write_rest_spec fuel remaining pos w :
  remaining <= fuel ->
  let w' := write_rest fuel p buf remaining pos w in
  sink w' = sink w + remaining
  /\ trace w' = trace w ++ pass_writes p (String.length buf) pos remaining
  /\ writes w' = writes w
  /\ cerr w' = cerr w
  /\ cout w' = cout w
  /\ (is_Some (files w !! p) -> is_Some (files w' !! p))
  /\ (forall q, q <> p -> files w' !! q = files w !! q).
Proof.
  revert remaining pos w.
  induction fuel as [|fuel IH]; intros remaining pos w Hle; simpl.
  - assert (remaining = 0) as -> by lia.
    rewrite pass_writes_0 by assumption. rewrite List.app_nil_r.
    repeat split; auto.
  - destruct (Nat.eqb_spec remaining 0) as [-> | Hne].
    + rewrite pass_writes_0 by assumption. rewrite List.app_nil_r.
      repeat split; auto.
    + set (b := String.length buf) in *.
      specialize (IH (remaining - Nat.min b remaining) (pos + Nat.min b remaining)
                    (do_write p pos (Str.take (Nat.min b remaining) buf) w)).
      destruct IH as (Hs & Ht & Hw & He & Ho & Hp & Hq); [lia|].
      rewrite (pass_writes_step p b buf_pos pos remaining) by lia.
      rewrite Hs, Ht, Hw, He, Ho. unfold do_write at 1 2 3 4 5. simpl.
      unfold b. rewrite length_take_buf. fold b.
      repeat split; try reflexivity.
      * lia.
      * now rewrite <- List.app_assoc.
      * intros Hsome. apply Hp. unfold do_write; simpl.
        destruct Hsome as [nd Hnd]. rewrite Hnd.
        destruct nd; [rewrite lookup_insert_eq | rewrite Hnd]; eauto.
      * intros q Hq'. rewrite Hq by assumption. unfold do_write; simpl.
        destruct (files w !! p) as [[c|]|]; try reflexivity.
        now rewrite lookup_insert_ne by congruence.
Qed.

End WriteLoop.

Lemma write_loop_complete p buf n w :
  0 < String.length buf ->
  writes w = [] ->
  exists w',
    write_loop [] p buf n 0 w = (true, w')
    /\ sink w' = sink w + n
    /\ trace w' = trace w ++ pass_writes p (String.length buf) 0 n
    /\ writes w' = []
    /\ cerr w' = cerr w
    /\ cout w' = cout w
    /\ (is_Some (files w !! p) -> is_Some (files w' !! p))
    /\ (forall q, q <> p -> files w' !! q = files w !! q).
Proof.
  intros Hb Hw. destruct n as [|n].
  - exists (set_writes [] w). simpl. rewrite pass_writes_0 by assumption.
    rewrite List.app_nil_r. repeat split; auto; lia.
  - eexists. split; [reflexivity|].
    pose proof (write_rest_spec p buf Hb (S n) (S n) 0 (set_writes [] w)
                  (Nat.le_refl _)) as H.
    simpl in H. exact H.
Qed.

(** All passes of a run that nothing disturbs. *)
Lemma overwrite_passes_complete E p fileSize n :
  NoFaults E ->
  forall pass cur w,
    writes w = [] ->
    exists w',
      overwrite_passes E n pass p fileSize cur w
        = (true, cur + n * SHRED_BUFFER_SIZE, w')
      /\ sink w' = sink w + n * fileSize
      /\ trace w' = trace w ++ concat (repeat (pass_events p fileSize) n)
      /\ writes w' = []
      /\ cerr w' = cerr w
      /\ cout w' = cout w
      /\ (is_Some (files w !! p) -> is_Some (files w' !! p))
      /\ (forall q, q <> p -> files w' !! q = files w !! q).
Proof.
  intros NF. induction n as [|n IH]; intros pass cur w Hw.
  - exists w. simpl. rewrite List.app_nil_r, Nat.add_0_r.
    repeat split; auto.
  - cbn [overwrite_passes]. rewrite (nf_seek E NF), Hw.
    destruct (write_loop_complete p (fillRandom (shred_gen E) cur) fileSize w)
      as (w1 & Hrun & Hs1 & Ht1 & Hw1 & He1 & Ho1 & Hp1 & Hq1);
      [rewrite length_fillRandom; apply SHRED_BUFFER_SIZE_pos | assumption |].
    rewrite Hrun, (nf_fsync E NF).
    destruct (IH (S pass) (cur + SHRED_BUFFER_SIZE) (emit (EvFsync p) w1))
      as (w2 & Hrun2 & Hs2 & Ht2 & Hw2 & He2 & Ho2 & Hp2 & Hq2);
      [exact Hw1|].
    exists w2. rewrite Hrun2.
    rewrite length_fillRandom in Ht1. cbn [emit sink trace] in Hs2, Ht2.
    split; [f_equal; f_equal; lia|].
    split; [lia|].
    split.
    { rewrite Ht2, Ht1. unfold pass_events. cbn [repeat concat].
      rewrite <- !List.app_assoc. reflexivity. }
    cbn [emit files cerr cout] in He2, Ho2, Hp2, Hq2.
    repeat split; try congruence.
    + intros Hsome. apply Hp2, Hp1, Hsome.
    + intros q Hq. rewrite Hq2, Hq1 by assumption. reflexivity.
Qed.

Lemma fs_is_regular_file_regular E p c w :
  NoFaults E ->
  files w !! p = Some (RegularFile c) ->
  fs_is_regular_file E p w = (true, false).
Proof.
  intros NF H. unfold fs_is_regular_file. now rewrite (nf_status E NF), H.
Qed.

Lemma fs_file_size_regular E p c w :
  NoFaults E ->
  files w !! p = Some (RegularFile c) ->
  fs_file_size E p w = Some (String.length c).
Proof.
  intros NF H. unfold fs_file_size. now rewrite (nf_size E NF), H.
Qed.

Lemma open_for_overwrite_ok E p w :
  NoFaults E ->
  is_Some (files w !! p) ->
  open_for_overwrite E p w = (true, w).
Proof.
  intros NF [n H]. unfold open_for_overwrite. now rewrite H, (nf_open E NF).
Qed.

(** Renaming an entry and removing it under its new name leaves neither
    name. *)
Lemma rename_then_remove E src dst w :
  NoFaults E ->
  is_Some (files w !! src) ->
  exists w1 w2,
    fs_rename E src dst w = (true, w1)
    /\ fs_remove E dst w1 = (true, w2)
    /\ files w2 = delete dst (delete src (files w))
    /\ trace w2 = trace w ++ [EvRename src dst; EvRemove dst]
    /\ sink w2 = sink w /\ writes w2 = writes w
    /\ cerr w2 = cerr w /\ cout w2 = cout w.
Proof.
  intros NF [n H]. unfold fs_rename. rewrite H, (nf_rename E NF).
  eexists. eexists. split; [reflexivity|].
  unfold fs_remove. cbn [emit set_files files].
  rewrite lookup_insert_eq, (nf_remove E NF).
  split; [reflexivity|].
  cbn [emit set_files files trace sink writes cerr cout].
  rewrite delete_insert_eq, <- List.app_assoc. repeat split; reflexivity.
Qed.

(** The erase of a non-empty regular file when nothing fails: the helper the
    properties of the complete run rest on. *)
Lemma secureDelete_unhindered E filepath passes content w :
  NoFaults E ->
  writes w = [] ->
  files w !! filepath = Some (RegularFile content) ->
  0 < String.length content ->
  exists w',
    secureDelete E filepath passes w = (true, w')
    /\ sink w' = sink w + Z.to_nat passes * String.length content
    /\ trace w' =
         trace w
         ++ concat (repeat (pass_events filepath (String.length content))
                      (Z.to_nat passes))
         ++ [EvRename filepath (obscure_path E filepath passes);
             EvRemove (obscure_path E filepath passes)]
    /\ files w' = delete (obscure_path E filepath passes)
                    (delete filepath (files w))
    /\ writes w' = [] /\ cerr w' = cerr w /\ cout w' = cout w.
Proof.
  intros NF Hw Hf Hlen. unfold secureDelete.
  rewrite (fs_is_regular_file_regular E filepath content w NF Hf).
  rewrite (fs_file_size_regular E filepath content w NF Hf).
  destruct (String.length content) as [|len] eqn:Elen; [lia|].
  rewrite open_for_overwrite_ok by (rewrite ?Hf; eauto).
  destruct (overwrite_passes_complete E filepath (S len) (Z.to_nat passes) NF 1 0 w Hw)
    as (w2 & Hrun & Hs & Ht & Hw2 & He & Ho & Hp & Hq).
  rewrite Hrun. cbn [Nat.add].
  fold (obscure_path E filepath passes).
  destruct (rename_then_remove E filepath (obscure_path E filepath passes) w2 NF)
    as (w3 & w4 & Hren & Hrem & Hfiles & Htr & Hsk & Hwr & Her & Hou).
  { apply Hp. rewrite Hf. eauto. }
  rewrite Hren, Hrem. exists w4. split; [reflexivity|].
  rewrite Hsk, Htr, Hwr, Her, Hou, Ht, Hfiles.
  repeat split; try congruence.
  - now rewrite <- List.app_assoc.
  - apply map_eq. intros q. rewrite !lookup_delete.
    repeat case_decide; try reflexivity. apply Hq. congruence.
Qed.

(** C4. On a regular file of N > 0 bytes, with at least one pass and nothing
    failing, [secureDelete] succeeds after exactly [passes] passes, each a
    sequence of writes from offset 0 that adds up to N bytes and a sync, so
    that [passes * N] bytes are written; then the file is renamed to the
    randomized name and removed, and neither name exists afterwards. *)
Theorem secureDelete_full_passes E filepath passes content w :
  NoFaults E ->
  writes w = [] ->
  files w !! filepath = Some (RegularFile content) ->
  0 < String.length content ->
  (1 <= passes)%Z ->
  exists w',
    secureDelete E filepath passes w = (true, w')
    /\ trace w' =
         trace w
         ++ concat (repeat (pass_events filepath (String.length content))
                      (Z.to_nat passes))
         ++ [EvRename filepath (obscure_path E filepath passes);
             EvRemove (obscure_path E filepath passes)]
    /\ written_bytes (pass_events filepath (String.length content))
         = String.length content
    /\ sink w' = sink w + Z.to_nat passes * String.length content
    /\ files w' !! filepath = None
    /\ files w' !! obscure_path E filepath passes = None.
Proof.
  intros NF Hw Hf Hlen Hp.
  destruct (secureDelete_unhindered E filepath passes content w NF Hw Hf Hlen)
    as (w' & Hrun & Hs & Ht & Hfiles & _).
  exists w'. repeat split; try assumption.
  - unfold pass_events.
    assert (forall a, written_bytes (a ++ [EvFsync filepath]) = written_bytes a) as Hsync.
    { induction a as [|[] a IH]; simpl; auto. }
    rewrite Hsync.
    apply written_bytes_pass_writes with (fuel := String.length content);
      [apply SHRED_BUFFER_SIZE_pos | lia].
  - rewrite Hfiles, !lookup_delete. repeat case_decide; congruence.
  - rewrite Hfiles. apply lookup_delete_eq.
Qed.

Lemma secureDelete_full_passes_witness :
  NoFaults sample_env
  /\ writes sample_world = []
  /\ files sample_world !! sample_path = Some (RegularFile "secret")
  /\ 0 < String.length "secret"
  /\ (1 <= 2)%Z
  /\ exists w',
       secureDelete sample_env sample_path 2 sample_world = (true, w')
       /\ trace w' =
            trace sample_world
            ++ concat (repeat (pass_events sample_path (String.length "secret"))
                         (Z.to_nat 2))
            ++ [EvRename sample_path (obscure_path sample_env sample_path 2);
                EvRemove (obscure_path sample_env sample_path 2)]
       /\ written_bytes (pass_events sample_path (String.length "secret"))
            = String.length "secret"
       /\ sink w' = sink sample_world + Z.to_nat 2 * String.length "secret"
       /\ files w' !! sample_path = None
       /\ files w' !! obscure_path sample_env sample_path 2 = None.
Proof.
  assert (NoFaults sample_env) as NF by (constructor; reflexivity).
  assert (files sample_world !! sample_path = Some (RegularFile "secret")) as Hf
    by reflexivity.
  assert (0 < String.length "secret") as Hlen by (simpl; lia).
  assert (1 <= 2)%Z as Hp by lia.
  repeat split; try assumption.
  exact (secureDelete_full_passes sample_env sample_path 2 "secret" sample_world
           NF eq_refl Hf Hlen Hp).
Defined.

(** C10. On a non-empty regular file, with a pass count of zero or less and
    nothing failing, [secureDelete] runs no pass: no byte is written, the
    file is renamed to the randomized name with its content as it was,
    removed, and success is reported. *)
Theorem secureDelete_no_pass E filepath passes content w :
  NoFaults E ->
  files w !! filepath = Some (RegularFile content) ->
  0 < String.length content ->
  (passes <= 0)%Z ->
  exists w',
    secureDelete E filepath passes w = (true, w')
    /\ sink w' = sink w
    /\ trace w' =
         trace w ++ [EvRename filepath (obscure_path E filepath passes);
                     EvRemove (obscure_path E filepath passes)]
    /\ written_bytes (trace w') = written_bytes (trace w)
    /\ files w' !! filepath = None
    /\ files w' !! obscure_path E filepath passes = None.
Proof.
  intros NF Hf Hlen Hp. unfold secureDelete, obscure_path.
  rewrite (fs_is_regular_file_regular E filepath content w NF Hf).
  rewrite (fs_file_size_regular E filepath content w NF Hf).
  destruct (String.length content) as [|len] eqn:Elen; [lia|].
  rewrite open_for_overwrite_ok by (rewrite ?Hf; eauto).
  replace (Z.to_nat passes) with 0 by lia. cbn [overwrite_passes Nat.mul].
  set (obscure := path_append (parent_path filepath) (random_name62 (shred_gen E) 0)).
  destruct (rename_then_remove E filepath obscure w NF)
    as (w1 & w2 & Hren & Hrem & Hfiles & Htr & Hsk & _).
  { rewrite Hf. eauto. }
  rewrite Hren, Hrem. exists w2. split; [reflexivity|].
  rewrite Hsk, Htr, Hfiles. repeat split.
  - assert (forall a, written_bytes (a ++ [EvRename filepath obscure; EvRemove obscure])
                      = written_bytes a) as Hsame.
    { induction a as [|[] a IH]; simpl; auto. }
    apply Hsame.
  - rewrite !lookup_delete. repeat case_decide; congruence.
  - apply lookup_delete_eq.
Qed.

Lemma secureDelete_no_pass_witness :
  NoFaults sample_env
  /\ files sample_world !! sample_path = Some (RegularFile "secret")
  /\ 0 < String.length "secret"
  /\ (-1 <= 0)%Z
  /\ exists w',
       secureDelete sample_env sample_path (-1) sample_world = (true, w')
       /\ sink w' = sink sample_world
       /\ trace w' =
            trace sample_world
            ++ [EvRename sample_path (obscure_path sample_env sample_path (-1));
                EvRemove (obscure_path sample_env sample_path (-1))]
       /\ written_bytes (trace w') = written_bytes (trace sample_world)
       /\ files w' !! sample_path = None
       /\ files w' !! obscure_path sample_env sample_path (-1) = None.
Proof.
  assert (NoFaults sample_env) as NF by (constructor; reflexivity).
  assert (files sample_world !! sample_path = Some (RegularFile "secret")) as Hf
    by reflexivity.
  assert (0 < String.length "secret") as Hlen by (simpl; lia).
  assert (-1 <= 0)%Z as Hp by lia.
  repeat split; try assumption.
  exact (secureDelete_no_pass sample_env sample_path (-1) "secret" sample_world
           NF Hf Hlen Hp).
Defined.

(** C2 (the code departs from the claim).  The first [write] of the first of
    three passes fails: the passes are given up and the plain removal is
    attempted, but its success is what [secureDelete] returns, so the erase
    reports success although no byte was overwritten. *)
Theorem secureDelete_failed_write_reports_removal :
  let w := set_writes [WriteError] sample_world in
  let r := secureDelete sample_env sample_path 3 w in
  fst r = true
  /\ sink (snd r) = 0
  /\ trace (snd r) = [EvRemove sample_path]
  /\ cerr (snd r) = [Say "Error: Write failed"]
  /\ files (snd r) !! sample_path = None.
Proof. vm_compute. repeat split; reflexivity. Qed.

(* ===================================================================== *)
(** * Header lines: the matcher against the grammar of the expression *)
(* ===================================================================== *)

Module ScanFacts.

Lemma erase_leading_split p s :
  exists a, s = a +:+ Str.erase_leading p s /\ Str.forallb p a = true.
Proof.
  induction s as [|c s (a & Ha & Hp)]; simpl.
  - exists "". split; reflexivity.
  - destruct (p c) eqn:Ec.
    + exists (String c a). simpl. rewrite Ec, Hp. split; [now f_equal | reflexivity].
    + exists "". split; reflexivity.
Qed.

Lemma erase_leading_app p a b :
  Str.forallb p a = true -> starts_outside p b ->
  Str.erase_leading p (a +:+ b) = b.
Proof.
  induction a as [|c a IH]; simpl; intros Ha Hb.
  - destruct b as [|d b]; simpl in *; [reflexivity | now rewrite Hb].
  - apply andb_true_iff in Ha as [Hc Ha]. rewrite Hc. now apply IH.
Qed.

Lemma span_split p s :
  s = fst (Str.span p s) +:+ snd (Str.span p s)
  /\ Str.forallb p (fst (Str.span p s)) = true
  /\ starts_outside p (snd (Str.span p s)).
Proof.
  induction s as [|c s (Hs & Hp & Ho)]; simpl.
  - repeat split.
  - destruct (p c) eqn:Ec.
    + destruct (Str.span p s) as [a b]. simpl in *. rewrite Ec, Hp.
      repeat split; [now f_equal | assumption].
    + simpl. repeat split. assumption.
Qed.

Lemma span_app p a b :
  Str.forallb p a = true -> starts_outside p b ->
  Str.span p (a +:+ b) = (a, b).
Proof.
  induction a as [|c a IH]; simpl; intros Ha Hb.
  - destruct b as [|d b]; simpl in *; [reflexivity | now rewrite Hb].
  - apply andb_true_iff in Ha as [Hc Ha]. rewrite Hc, IH by assumption.
    reflexivity.
Qed.

Lemma forallb_app p a b :
  Str.forallb p (a +:+ b) = Str.forallb p a && Str.forallb p b.
Proof.
  induction a as [|c a IH]; simpl; [reflexivity|].
  now rewrite IH, andb_assoc.
Qed.

Lemma forallb_impl (p q : ascii -> bool) s :
  (forall c, p c = true -> q c = true) ->
  Str.forallb p s = true -> Str.forallb q s = true.
Proof.
  intros Hpq. induction s as [|c s IH]; simpl; [reflexivity|].
  intros H. apply andb_true_iff in H as [Hc Hs].
  now rewrite (Hpq c Hc), IH.
Qed.

Lemma find_char_app c a b :
  Str.forallb (fun d => negb (Ascii.eqb d c)) a = true ->
  Str.find_char c (a +:+ String c b) = Some (String.length a).
Proof.
  induction a as [|d a IH]; simpl; intros Ha.
  - now rewrite Ascii.eqb_refl.
  - apply andb_true_iff in Ha as [Hd Ha].
    apply negb_true_iff in Hd. rewrite Hd, IH by assumption. reflexivity.
Qed.

Lemma take_app a b : Str.take (String.length a) (a +:+ b) = a.
Proof. induction a as [|c a IH]; simpl; [now destruct b | now rewrite IH]. Qed.

Lemma drop_app a b : Str.drop (String.length a) (a +:+ b) = b.
Proof. induction a as [|c a IH]; simpl; [now destruct b | assumption]. Qed.

Lemma is_empty_false s : Str.is_empty s = false <-> s <> "".
Proof. destruct s; simpl; split; congruence. Qed.

End ScanFacts.

Module HeaderFacts.
Import ScanFacts.

Lemma expect_Some c s r : Str.expect c s = Some r <-> s = String c r.
Proof.
  destruct s as [|d s]; simpl; [split; discriminate|].
  destruct (Ascii.eqb_spec d c) as [-> | Hne]; split; intros H;
    inversion H; subst; congruence.
Qed.

Lemma digit_not_space c : is_digit c = true -> is_space c = false.
Proof.
  unfold is_digit, is_space. intros H.
  apply andb_true_iff in H as [H1 H2]. apply Nat.leb_le in H1, H2.
  apply orb_false_iff; split; [apply Nat.eqb_neq; lia|].
  apply andb_false_iff; right. apply Nat.leb_gt; lia.
Qed.

Lemma space_not_digit c : is_space c = true -> is_digit c = false.
Proof.
  intros H. destruct (is_digit c) eqn:E; [|reflexivity].
  apply digit_not_space in E. congruence.
Qed.

Lemma space_not_semicolon c : is_space c = true -> negb (Ascii.eqb c ";") = true.
Proof.
  intros H. destruct (Ascii.eqb_spec c ";") as [-> | _]; [discriminate H | reflexivity].
Qed.

Lemma digit_not_semicolon c : is_digit c = true -> negb (Ascii.eqb c ";") = true.
Proof.
  intros H. destruct (Ascii.eqb_spec c ";") as [-> | _]; [discriminate H | reflexivity].
Qed.

Lemma starts_outside_digits p ts tail :
  (forall c, is_digit c = true -> p c = false) ->
  Str.forallb is_digit ts = true -> ts <> "" ->
  starts_outside p (ts +:+ tail).
Proof.
  intros Hp Hd Hne. destruct ts as [|c ts]; [congruence|]. simpl in *.
  apply andb_true_iff in Hd as [Hc _]. now apply Hp.
Qed.

Lemma starts_outside_spaces ws c tail :
  is_digit c = false ->
  Str.forallb is_space ws = true ->
  starts_outside is_digit (ws +:+ String c tail).
Proof.
  intros Hc Hws. destruct ws as [|d ws]; simpl in *; [assumption|].
  apply andb_true_iff in Hws as [Hd _]. now apply space_not_digit.
Qed.

(** The matcher accepts exactly the lines of the grammar, and returns the
    capture group. *)
Lemma historyEntryRegex_sound line ts :
  historyEntryRegex_ line = Some ts -> exists rest, header_line line ts rest.
Proof.
  unfold historyEntryRegex_. intros H.
  destruct (erase_leading_split is_space line) as (ws1 & Hl & Hws1).
  destruct (Str.expect ":" (Str.erase_leading is_space line)) as [s1|] eqn:E1;
    [|discriminate].
  apply expect_Some in E1. rewrite E1 in Hl.
  destruct (erase_leading_split is_space s1) as (ws2 & Hs1 & Hws2).
  destruct (span_split is_digit (Str.erase_leading is_space s1)) as (Hsp & Hds & _).
  destruct (Str.span is_digit (Str.erase_leading is_space s1)) as [ts' s2].
  simpl in Hsp, Hds.
  destruct (Str.is_empty ts') eqn:Ets; [discriminate|].
  destruct (Str.expect ":" s2) as [s3|] eqn:E2; [|discriminate].
  apply expect_Some in E2.
  destruct (span_split is_digit s3) as (Hsp3 & Hdur & _).
  destruct (Str.span is_digit s3) as [dur s4]. simpl in Hsp3, Hdur.
  destruct (Str.is_empty dur) eqn:Edur; [discriminate|].
  destruct (erase_leading_split is_space s4) as (ws3 & Hs4 & Hws3).
  destruct (Str.expect ";" (Str.erase_leading is_space s4)) as [rest|] eqn:E3;
    [|discriminate].
  apply expect_Some in E3.
  destruct (Str.forallb is_dot rest) eqn:Edot; [|discriminate].
  injection H as <-.
  exists rest, ws1, ws2, dur, ws3.
  apply is_empty_false in Ets, Edur.
  repeat split; try assumption.
  rewrite Hl. do 2 f_equal. rewrite Hs1. f_equal. rewrite Hsp. f_equal.
  rewrite E2. f_equal. rewrite Hsp3. f_equal. rewrite Hs4. f_equal. exact E3.
Qed.

Lemma historyEntryRegex_complete line ts rest :
  header_line line ts rest -> historyEntryRegex_ line = Some ts.
Proof.
  intros (ws1 & ws2 & dur & ws3 & -> & Hws1 & Hws2 & Hts & Hne & Hdur & Hdne & Hws3 & Hdot).
  unfold historyEntryRegex_.
  rewrite erase_leading_app by (assumption || reflexivity).
  cbn [String.append Str.expect Ascii.eqb Bool.eqb].
  rewrite erase_leading_app;
    [| assumption | apply starts_outside_digits; auto using digit_not_space].
  rewrite span_app by (assumption || reflexivity).
  apply is_empty_false in Hne. rewrite Hne.
  cbn [String.append Str.expect Ascii.eqb Bool.eqb].
  rewrite span_app; [| assumption | now apply starts_outside_spaces].
  apply is_empty_false in Hdne. rewrite Hdne.
  rewrite erase_leading_app by (assumption || reflexivity).
  cbn [String.append Str.expect Ascii.eqb Bool.eqb].
  now rewrite Hdot.
Qed.

(** In a header line the first semicolon is the delimiter of the grammar:
    what lines 985-988 take as the command is the text after it, without
    its leading blanks. *)
Lemma header_command line ts rest :
  header_line line ts rest ->
  exists i,
    Str.find_char ";" line = Some i /\ Str.drop (S i) line = rest.
Proof.
  intros (ws1 & ws2 & dur & ws3 & -> & Hws1 & Hws2 & Hts & Hne & Hdur & Hdne & Hws3 & Hdot).
  set (pre := ws1 +:+ ":" +:+ ws2 +:+ ts +:+ ":" +:+ dur +:+ ws3).
  assert (ws1 +:+ ":" +:+ ws2 +:+ ts +:+ ":" +:+ dur +:+ ws3 +:+ ";" +:+ rest
          = pre +:+ String ";" rest) as ->.
  { unfold pre. now rewrite !StrFacts.sapp_assoc. }
  exists (String.length pre). split.
  - apply find_char_app. unfold pre.
    rewrite !forallb_app. simpl.
    rewrite (forallb_impl _ _ ws1 space_not_semicolon Hws1).
    rewrite (forallb_impl _ _ ws2 space_not_semicolon Hws2).
    rewrite (forallb_impl _ _ ts digit_not_semicolon Hts).
    rewrite (forallb_impl _ _ dur digit_not_semicolon Hdur).
    rewrite (forallb_impl _ _ ws3 space_not_semicolon Hws3).
    reflexivity.
  - change (Str.drop (S (String.length pre)) (pre +:+ String ";" rest))
      with (Str.drop (S (String.length pre)) (pre +:+ (String ";" "" +:+ rest))).
    rewrite <- StrFacts.sapp_assoc.
    replace (S (String.length pre)) with (String.length (pre +:+ String ";" ""))
      by (rewrite StrFacts.length_app; simpl; lia).
    apply drop_app.
Qed.

End HeaderFacts.

(* ===================================================================== *)
(** * The decision on one entry against the specification *)
(* ===================================================================== *)

Module FilterFacts.

Lemma prefix_spec k s :
  String.prefix k s = true <-> exists post, s = k +:+ post.
Proof.
  revert s. induction k as [|a k IH]; intros s; simpl.
  - destruct s; split; eauto.
  - destruct s as [|b s]; simpl.
    + split; [discriminate | intros [post H]; discriminate].
    + destruct (ascii_dec a b) as [-> | Hne].
      * rewrite IH. split; intros [post H]; exists post; [now f_equal | congruence].
      * split; [discriminate | intros [post H]; congruence].
Qed.

Lemma find_spec k s : Str.find k s <> None <-> is_substring k s.
Proof.
  induction s as [|c s IH].
  - cbn [Str.find]. destruct (String.prefix k "") eqn:Ep; cbn beta iota.
    + split; [|congruence]. intros _.
      apply prefix_spec in Ep as [post Hp]. exists "", post. exact Hp.
    + split; [congruence|]. intros (pre & post & H).
      destruct pre; simpl in H; [|discriminate].
      assert (String.prefix k "" = true) by (apply prefix_spec; eauto).
      congruence.
  - cbn [Str.find]. destruct (String.prefix k (String c s)) eqn:Ep; cbn beta iota.
    + split; [|congruence]. intros _.
      apply prefix_spec in Ep as [post Hp]. exists "", post. exact Hp.
    + destruct (Str.find k s) as [i|] eqn:Ef; simpl.
      * split; [|congruence]. intros _.
        destruct IH as [IH _]. destruct IH as (pre & post & H); [congruence|].
        exists (String c pre), post. simpl. now f_equal.
      * split; [congruence|]. intros (pre & post & H).
        destruct pre as [|d pre]; simpl in H.
        -- assert (String.prefix k (String c s) = true)
             by (apply prefix_spec; eauto).
           congruence.
        -- injection H as _ H. destruct IH as [_ IH].
           exfalso. apply IH; [|reflexivity]. now exists pre, post.
Qed.

Lemma any_keyword_spec ks cmd :
  any_keyword ks cmd = true <-> exists k, In k ks /\ is_substring k cmd.
Proof.
  induction ks as [|k ks IH]; simpl.
  - split; [discriminate | intros (k & [] & _)].
  - destruct (Str.find k cmd) as [i|] eqn:Ef.
    + split; [|reflexivity]. intros _. exists k. split; [now left|].
      apply find_spec. congruence.
    + rewrite IH. split.
      * intros (k' & Hin & Hs). exists k'. split; [now right | assumption].
      * intros (k' & [-> | Hin] & Hs); [|eauto].
        apply find_spec in Hs. congruence.
Qed.

Lemma any_regex_spec rs cmd :
  any_regex rs cmd = true <-> exists r, In r rs /\ r cmd = true.
Proof.
  induction rs as [|r rs IH]; simpl.
  - split; [discriminate | intros (r & [] & _)].
  - destruct (r cmd) eqn:Er.
    + split; [|reflexivity]. intros _. exists r. split; [now left | assumption].
    + rewrite IH. split.
      * intros (r' & Hin & Hs). exists r'. split; [now right | assumption].
      * intros (r' & [-> | Hin] & Hs); [congruence | eauto].
Qed.

Lemma is_nil_true {A} (l : list A) : is_nil l = true <-> l = [].
Proof. destruct l; simpl; split; congruence. Qed.

(** Lines 990-1013 compute the [matches] of the specification: with no
    filter at all, or a keyword found, or an expression found. *)
Lemma filters_spec hc command :
  (if is_nil (filterKeywords_ hc) && is_nil (filterRegexes_ hc) then true
   else
     let shouldDelete :=
       if negb (is_nil (filterKeywords_ hc))
       then any_keyword (filterKeywords_ hc) command
       else false in
     if negb (is_nil (filterRegexes_ hc)) && negb shouldDelete
     then any_regex (filterRegexes_ hc) command
     else shouldDelete) = true
  <-> matches hc command.
Proof.
  unfold matches.
  destruct (filterKeywords_ hc) as [|k ks] eqn:Ek;
    destruct (filterRegexes_ hc) as [|r rs] eqn:Er; cbn [is_nil andb negb].
  - split; auto.
  - rewrite any_regex_spec. split; [auto|].
    intros [[_ H] | [(k & [] & _) | H]]; [discriminate | assumption].
  - rewrite any_keyword_spec. split; [auto|].
    intros [[H _] | [H | (r & [] & _)]]; [discriminate | assumption].
  - destruct (any_keyword (k :: ks) command) eqn:Ea; cbn [negb].
    + split; [|reflexivity]. intros _. right; left. now apply any_keyword_spec.
    + rewrite any_regex_spec. split; [auto|].
      intros [[H _] | [H | H]]; [discriminate | | assumption].
      apply any_keyword_spec in H. congruence.
Qed.

End FilterFacts.

(** C5. For a record whose first line is a header line with a timestamp
    [stoll] accepts, the block is deleted exactly when the timestamp is in
    the window and the content filters match the command text: no filter at
    all, or a keyword that is a substring of it, or an expression that
    search-matches it; the counter that moves is the one of the decision. *)
Theorem processCommandBlock_decide hc block ln output c w i digits rest ts :
  Str.find_char Str.LF block = Some i ->
  header_line (Str.take i block) digits rest ->
  stoll digits = StollValue ts ->
  (fst (fst (processCommandBlock hc block ln output c w)) = true
   <-> inWindow hc ts /\ matches hc (commandText rest))
  /\ snd (fst (processCommandBlock hc block ln output c w))
     = (if fst (fst (processCommandBlock hc block ln output c w))
        then deleted_incr c else kept_incr c).
Proof.
  intros Hi Hh Hts. unfold processCommandBlock. rewrite Hi.
  rewrite (HeaderFacts.historyEntryRegex_complete _ _ _ Hh), Hts.
  destruct (HeaderFacts.header_command _ _ _ Hh) as (j & Hj & Hrest).
  pose proof (FilterFacts.filters_spec hc (commandText rest)) as Hm.
  unfold content_filters. rewrite Hj, Hrest. fold (commandText rest).
  unfold inWindow.
  destruct (startTimestamp_ hc <=? ts)%Z eqn:E1;
    destruct (ts <=? endTimestamp_ hc)%Z eqn:E2; cbn [andb];
    try (split; [|reflexivity]; split; [discriminate | lia]).
  match goal with
  | |- context [if ?b then _ else _] => destruct b eqn:Eb
  end; cbn [fst snd]; (split; [|reflexivity]).
  - split; [|reflexivity]. intros _. split; [lia|]. now apply Hm.
  - split; [discriminate|]. intros [_ H]. apply Hm in H. congruence.
Qed.

Lemma processCommandBlock_decide_witness :
  let block := ": 150:0;  ls -l" +:+ NL in
  Str.find_char Str.LF block = Some 15
  /\ header_line (Str.take 15 block) "150" "  ls -l"
  /\ stoll "150" = StollValue 150
  /\ ((fst (fst (processCommandBlock sample_cleaner block 1 ToNull no_counts sample_world)) = true
       <-> inWindow sample_cleaner 150 /\ matches sample_cleaner (commandText "  ls -l"))
      /\ snd (fst (processCommandBlock sample_cleaner block 1 ToNull no_counts sample_world))
         = (if fst (fst (processCommandBlock sample_cleaner block 1 ToNull no_counts sample_world))
            then deleted_incr no_counts else kept_incr no_counts)).
Proof.
  assert (Str.find_char Str.LF (": 150:0;  ls -l" +:+ NL) = Some 15) as Hi
    by reflexivity.
  assert (header_line (Str.take 15 (": 150:0;  ls -l" +:+ NL)) "150" "  ls -l") as Hh.
  { exists "", " ", "0", "". repeat split; try reflexivity; discriminate. }
  assert (stoll "150" = StollValue 150) as Hts by reflexivity.
  split; [exact Hi|]. split; [exact Hh|]. split; [exact Hts|].
  exact (processCommandBlock_decide sample_cleaner _ 1 ToNull no_counts sample_world
           15 "150" "  ls -l" 150 Hi Hh Hts).
Defined.

(* ===================================================================== *)
(** * Records that cannot be dated *)
(* ===================================================================== *)

(** C8. A pending block whose header line yields no timestamp (it does not
    parse, or the number is out of range) is kept whatever the window and the
    filters are: the kept counter moves, one warning naming the line is
    logged, nothing is reported for deletion, and a mutating run stores the
    block among the entries to keep. *)
Theorem flush_block_keeps_undated hc output ln st :
  currentCommandBlock st <> "" ->
  header_timestamp (currentCommandBlock st) = None ->
  exists text,
    flush_block hc output ln st =
    {| lineNum := lineNum st;
       currentCommandBlock := currentCommandBlock st;
       keptEntries := if dryRun_ hc then keptEntries st
                      else keptEntries st ++ [currentCommandBlock st];
       counts := kept_incr (counts st);
       world := log_err (SayLine text ln) (world st) |}.
Proof.
  intros Hne Hts. unfold flush_block.
  apply ScanFacts.is_empty_false in Hne. rewrite Hne.
  unfold header_timestamp in Hts. unfold processCommandBlock.
  destruct (Str.find_char Str.LF (currentCommandBlock st)) as [i|].
  - destruct (historyEntryRegex_ (Str.take i (currentCommandBlock st))) as [digits|].
    + destruct (stoll digits) as [ts| |]; [discriminate| |];
        eexists; cbn [negb andb]; destruct (dryRun_ hc); reflexivity.
    + eexists; cbn [negb andb]; destruct (dryRun_ hc); reflexivity.
  - eexists; cbn [negb andb]; destruct (dryRun_ hc); reflexivity.
Qed.

Lemma flush_block_keeps_undated_witness :
  let st := sample_scan (": 99999999999999999999:0;ls" +:+ NL) in
  currentCommandBlock st <> ""
  /\ header_timestamp (currentCommandBlock st) = None
  /\ exists text,
       flush_block sample_cleaner ToNull 1 st =
       {| lineNum := lineNum st;
          currentCommandBlock := currentCommandBlock st;
          keptEntries := if dryRun_ sample_cleaner then keptEntries st
                         else keptEntries st ++ [currentCommandBlock st];
          counts := kept_incr (counts st);
          world := log_err (SayLine text 1) (world st) |}.
Proof.
  assert (currentCommandBlock (sample_scan (": 99999999999999999999:0;ls" +:+ NL)) <> "")
    as Hne by discriminate.
  assert (header_timestamp
            (currentCommandBlock (sample_scan (": 99999999999999999999:0;ls" +:+ NL)))
          = None) as Hts by reflexivity.
  split; [exact Hne|]. split; [exact Hts|].
  exact (flush_block_keeps_undated sample_cleaner ToNull 1 _ Hne Hts).
Defined.

(* ===================================================================== *)
(** * The scan *)
(* ===================================================================== *)

Module ScanLoop.

Lemma scan_lines_fold E hc output lines st :
  interrupted_ hc = false ->
  read_error_after E = None ->
  scan_lines E hc output lines st = (true, scan_fold hc output lines st).
Proof.
  intros Hi Hr. revert st.
  induction lines as [|raw lines IH]; intros st; simpl; rewrite Hi, Hr.
  - reflexivity.
  - apply IH.
Qed.

Lemma scan_fold_app hc output l1 l2 st :
  scan_fold hc output (l1 ++ l2) st
  = scan_fold hc output l2 (scan_fold hc output l1 st).
Proof. apply fold_left_app. Qed.

Lemma log_errs_nil w : log_errs [] w = w.
Proof. destruct w. unfold log_errs. simpl. now rewrite List.app_nil_r. Qed.

Lemma log_errs_cons m ms w : log_errs (m :: ms) w = log_errs ms (log_err m w).
Proof. unfold log_errs, log_err. simpl. now rewrite <- List.app_assoc. Qed.

Lemma scan_line_preamble hc output raw st :
  historyEntryRegex_ (strip_cr raw) = None ->
  currentCommandBlock st = "" ->
  scan_line hc output raw st =
  {| lineNum := S (lineNum st);
     currentCommandBlock := "";
     keptEntries := if dryRun_ hc then keptEntries st
                    else keptEntries st ++ [strip_cr raw +:+ NL];
     counts := kept_incr (counts st);
     world := log_err (preamble_warning (S (lineNum st))) (world st) |}.
Proof.
  intros H1 H2. unfold scan_line. rewrite H1, H2. cbn [Str.is_empty negb].
  destruct (dryRun_ hc); reflexivity.
Qed.

(** Lines met while no block is open are stored one by one. *)
Lemma scan_fold_preamble hc output pre :
  Forall (fun raw => historyEntryRegex_ (strip_cr raw) = None) pre ->
  forall st,
    currentCommandBlock st = "" ->
    scan_fold hc output pre st =
    {| lineNum := lineNum st + length pre;
       currentCommandBlock := "";
       keptEntries :=
         if dryRun_ hc then keptEntries st
         else keptEntries st ++ map (fun raw => strip_cr raw +:+ NL) pre;
       counts := {| keptCount := keptCount (counts st) + length pre;
                    deletedCount := deletedCount (counts st) |};
       world := log_errs (map preamble_warning (seq (S (lineNum st)) (length pre)))
                  (world st) |}.
Proof.
  induction 1 as [|raw pre Hraw Hpre IH]; intros st Hcur.
  - destruct st as [ln cur kept [k d] w]. simpl in Hcur. subst cur.
    cbn [scan_fold fold_left length map seq lineNum keptEntries counts
           keptCount deletedCount world].
    rewrite log_errs_nil, !Nat.add_0_r.
    destruct (dryRun_ hc); now rewrite ?List.app_nil_r.
  - change (scan_fold hc output (raw :: pre) st)
      with (scan_fold hc output pre (scan_line hc output raw st)).
    rewrite (scan_line_preamble hc output raw st Hraw Hcur).
    rewrite IH by reflexivity.
    cbn [lineNum keptEntries counts world keptCount deletedCount kept_incr
           length map seq].
    rewrite log_errs_cons.
    f_equal; try lia.
    + destruct (dryRun_ hc); [reflexivity|].
      now rewrite <- List.app_assoc.
    + f_equal; lia.
Qed.

End ScanLoop.

(** C9 (as the code has it).  In a run that is neither interrupted nor hit
    by a read error, the [k] lines before the first header line are kept one
    by one: each is its own entry to keep (in a mutating run), each adds one
    to the kept counter and each is warned about with its line number; the
    scan of the rest goes on from there with no block open. *)
Theorem scan_preamble_line_by_line E hc output pre rest w :
  interrupted_ hc = false ->
  read_error_after E = None ->
  Forall (fun raw => historyEntryRegex_ (strip_cr raw) = None) pre ->
  scan_lines E hc output (pre ++ rest) (scan_start w) =
  scan_lines E hc output rest
    {| lineNum := length pre;
       currentCommandBlock := "";
       keptEntries :=
         if dryRun_ hc then [] else map (fun raw => strip_cr raw +:+ NL) pre;
       counts := {| keptCount := length pre; deletedCount := 0 |};
       world := log_errs (map preamble_warning (seq 1 (length pre))) w |}.
Proof.
  intros Hi Hr Hpre.
  rewrite !ScanLoop.scan_lines_fold by assumption.
  rewrite ScanLoop.scan_fold_app.
  rewrite (ScanLoop.scan_fold_preamble hc output pre Hpre (scan_start w) eq_refl).
  reflexivity.
Qed.

Lemma scan_preamble_line_by_line_witness :
  interrupted_ sample_cleaner = false
  /\ read_error_after sample_env = None
  /\ Forall (fun raw => historyEntryRegex_ (strip_cr raw) = None) ["junk"; "more"]
  /\ scan_lines sample_env sample_cleaner ToNull
       (["junk"; "more"] ++ [": 150:0;ls"]) (scan_start sample_world) =
     scan_lines sample_env sample_cleaner ToNull [": 150:0;ls"]
       {| lineNum := length ["junk"; "more"];
          currentCommandBlock := "";
          keptEntries :=
            if dryRun_ sample_cleaner then []
            else map (fun raw => strip_cr raw +:+ NL) ["junk"; "more"];
          counts := {| keptCount := length ["junk"; "more"]; deletedCount := 0 |};
          world := log_errs (map preamble_warning (seq 1 (length ["junk"; "more"])))
                     sample_world |}.
Proof.
  assert (Forall (fun raw => historyEntryRegex_ (strip_cr raw) = None) ["junk"; "more"])
    as Hpre by (repeat constructor).
  split; [reflexivity|]. split; [reflexivity|]. split; [exact Hpre|].
  exact (scan_preamble_line_by_line sample_env sample_cleaner ToNull
           ["junk"; "more"] [": 150:0;ls"] sample_world eq_refl eq_refl Hpre).
Defined.

(** C9 (the claim as stated fails).  Two lines before the first header line
    are two kept entries and count for two, not for one. *)
Lemma preamble_two_lines_count_twice :
  let st := snd (scan_lines sample_env sample_cleaner ToNull
                   ["junk"; "more"; ": 150:0;ls"] (scan_start sample_world)) in
  keptEntries st = ["junk" +:+ NL; "more" +:+ NL]
  /\ keptCount (counts st) = 2
  /\ ~ (keptEntries st = ["junk" +:+ NL +:+ "more" +:+ NL]
        /\ keptCount (counts st) = 1).
Proof.
  vm_compute. repeat split; try reflexivity. intros [H _]. discriminate H.
Qed.

(* ===================================================================== *)
(** * What the scan leaves alone *)
(* ===================================================================== *)

Module Frame.

Lemma same_disk_refl w : same_disk w w.
Proof. repeat split. Qed.

Lemma same_disk_trans w1 w2 w3 :
  same_disk w1 w2 -> same_disk w2 w3 -> same_disk w1 w3.
Proof.
  intros (A1 & A2 & A3 & A4) (B1 & B2 & B3 & B4).
  repeat split; congruence.
Qed.

Lemma same_disk_log_err m w : same_disk w (log_err m w).
Proof. repeat split. Qed.

Lemma same_disk_log_out m w : same_disk w (log_out m w).
Proof. repeat split. Qed.

Lemma same_disk_send o m w : same_disk w (send o m w).
Proof. destruct o; repeat split. Qed.

Lemma processCommandBlock_same_disk hc block ln output c w :
  same_disk w (snd (processCommandBlock hc block ln output c w)).
Proof.
  unfold processCommandBlock.
  destruct (Str.find_char Str.LF block) as [i|]; [|apply same_disk_log_err].
  destruct (historyEntryRegex_ (Str.take i block)) as [digits|];
    [|apply same_disk_log_err].
  destruct (stoll digits) as [ts| |]; try apply same_disk_log_err.
  match goal with |- context [if ?b then _ else _] => destruct b end;
    cbn [snd]; [|apply same_disk_refl].
  destruct (dryRun_ hc); [apply same_disk_send | apply same_disk_refl].
Qed.

Lemma flush_block_same_disk hc output ln st :
  same_disk (world st) (world (flush_block hc output ln st)).
Proof.
  unfold flush_block.
  destruct (Str.is_empty (currentCommandBlock st)); [apply same_disk_refl|].
  pose proof (processCommandBlock_same_disk hc (currentCommandBlock st) ln
                output (counts st) (world st)) as H.
  destruct (processCommandBlock hc (currentCommandBlock st) ln output
              (counts st) (world st)) as [[d c] w']. exact H.
Qed.

Lemma scan_line_same_disk hc output raw st :
  same_disk (world st) (world (scan_line hc output raw st)).
Proof.
  unfold scan_line.
  destruct (historyEntryRegex_ (strip_cr raw)).
  - apply flush_block_same_disk.
  - destruct (negb (Str.is_empty (currentCommandBlock st)));
      [apply same_disk_refl | apply same_disk_log_err].
Qed.

Lemma scan_lines_same_disk E hc output lines st :
  same_disk (world st) (world (snd (scan_lines E hc output lines st))).
Proof.
  revert st. induction lines as [|raw lines IH]; intros st; cbn [scan_lines];
    destruct (interrupted_ hc); try apply same_disk_log_err;
    destruct (read_error_after E) as [k|];
    try destruct (k =? lineNum st); try apply same_disk_log_err;
    try apply same_disk_refl;
    (eapply same_disk_trans; [apply scan_line_same_disk | apply IH]).
Qed.

End Frame.

(** C7. A dry run, whatever the mode, the window, the filters, the
    environment and the content of the history file, leaves the file system
    as it was: every path holds what it held, no effect on a file is
    recorded (no file is created, written, renamed or removed) and the
    cleaner registers no temporary path. *)
Theorem processHistory_dry_run_no_mutation E hc output w :
  dryRun_ hc = true ->
  files (snd (processHistory E hc output w)) = files w
  /\ trace (snd (processHistory E hc output w)) = trace w
  /\ sink (snd (processHistory E hc output w)) = sink w
  /\ snd (fst (processHistory E hc output w)) = hc.
Proof.
  intros Hdry. unfold processHistory.
  destruct (interrupted_ hc); [repeat split|].
  destruct (open_history E (effectiveHistoryFilePath_ hc) w) as [content|];
    [|destruct (fs_exists (effectiveHistoryFilePath_ hc) w); repeat split].
  pose proof (Frame.scan_lines_same_disk E hc output (getlines content)
                (scan_start w)) as Hscan.
  destruct (scan_lines E hc output (getlines content) (scan_start w)) as [[] st];
    cbn [snd fst] in *.
  - rewrite Hdry. cbn [snd fst].
    pose proof (Frame.flush_block_same_disk hc output (lineNum st) st) as Hflush.
    destruct (Frame.same_disk_trans _ _ _ Hscan Hflush) as (H1 & H2 & H3 & _).
    repeat split; assumption.
  - destruct Hscan as (H1 & H2 & H3 & _). repeat split; assumption.
Qed.

Lemma processHistory_dry_run_no_mutation_witness :
  let hc := set_dryRun true sample_cleaner in
  let r := processHistory sample_env hc ToCout sample_history_world in
  dryRun_ hc = true
  /\ fst (fst r) = true
  /\ cout (snd r) =
       [WouldDelete 3 (": 150:0;ls -l" +:+ NL +:+ "continued" +:+ NL); Summary 4 2 1]
  /\ files (snd r) = files sample_history_world
  /\ trace (snd r) = trace sample_history_world
  /\ sink (snd r) = sink sample_history_world
  /\ snd (fst r) = hc.
Proof.
  split; [reflexivity|]. split; [reflexivity|]. split; [reflexivity|].
  exact (processHistory_dry_run_no_mutation sample_env
           (set_dryRun true sample_cleaner) ToCout sample_history_world eq_refl).
Defined.

(* ===================================================================== *)
(** * The commit when the last rename fails *)
(* ===================================================================== *)

Module CommitFacts.

Lemma backupHistoryFile_paths E hc w :
  tempFilePath_ (snd (fst (backupHistoryFile E hc w))) = tempFilePath_ hc
  /\ effectiveHistoryFilePath_ (snd (fst (backupHistoryFile E hc w)))
     = effectiveHistoryFilePath_ hc.
Proof.
  unfold backupHistoryFile. destruct (interrupted_ hc); [split; reflexivity|].
  destruct (fs_copy_file E (effectiveHistoryFilePath_ hc)
              (backupFilePath_ (set_backup (backup_path E hc) hc)) w) as [[] w1];
    split; reflexivity.
Qed.

Lemma performCleanup_paths E hc output w :
  tempFilePath_ (snd (fst (performCleanup E hc output w))) = tempFilePath_ hc
  /\ effectiveHistoryFilePath_ (snd (fst (performCleanup E hc output w)))
     = effectiveHistoryFilePath_ hc.
Proof.
  unfold performCleanup. destruct (interrupted_ hc); [split; reflexivity|].
  destruct (dryRun_ hc); [split; reflexivity|].
  destruct (doBackup_ hc).
  - pose proof (backupHistoryFile_paths E hc w) as H.
    destruct (backupHistoryFile E hc w) as [[b hc1] w1]. cbn [fst snd] in H.
    destruct b; cbn [negb]; [|exact H].
    destruct (secureDelete E (effectiveHistoryFilePath_ hc1) (shredPasses_ hc1)
                (send output (Say "Securely deleting original history file") w1))
      as [[] w3]; exact H.
  - cbn [negb].
    destruct (secureDelete E (effectiveHistoryFilePath_ hc) (shredPasses_ hc)
                (send output (Say "Securely deleting original history file") w))
      as [[] w3]; split; reflexivity.
Qed.

Lemma path_append_nonempty dir name : name <> "" -> path_append dir name <> "".
Proof.
  intros Hn. unfold path_append. destruct dir as [|c dir]; [exact Hn|].
  cbn [Str.is_empty]. destruct (Str.back (String c dir)) as [d|]; [|exact Hn].
  destruct (Ascii.eqb d "/"); discriminate.
Qed.

Lemma temp_path_nonempty E hc : Str.is_empty (temp_path E hc) = false.
Proof.
  apply ScanFacts.is_empty_false, path_append_nonempty. discriminate.
Qed.

(** After [cleanup] the registered temporary path holds nothing, unless
    its removal failed; the other paths hold what they held. *)
Lemma cleanup_removes_temp E hc w :
  Str.is_empty (tempFilePath_ hc) = false ->
  remove_fails E (tempFilePath_ hc) = false ->
  files (snd (cleanup E hc w)) !! tempFilePath_ hc = None
  /\ (forall q, q <> tempFilePath_ hc ->
                files (snd (cleanup E hc w)) !! q = files w !! q)
  /\ cerr (snd (cleanup E hc w)) = cerr w.
Proof.
  intros Hne Hrm. unfold cleanup, fs_exists, fs_remove.
  rewrite Hne. cbn [negb andb].
  destruct (files w !! tempFilePath_ hc) eqn:El.
  - rewrite Hrm. cbn [snd emit set_files files cerr].
    split; [apply lookup_delete_eq|]. split; [|reflexivity].
    intros q Hq. now apply lookup_delete_ne.
  - cbn [snd]. repeat split. exact El.
Qed.

End CommitFacts.

(** C1 (as the code has it).  In a mutating run in which the temporary file
    was written, the erase of the original succeeded and the rename of the
    temporary file onto the original path fails, the run logs the rename
    error, calls [cleanup] and returns false, the value of every other
    failure; unless the removal of the temporary file fails too, the
    temporary path holds nothing afterwards, and every other path is as the
    erase left it. *)
Theorem commit_rename_failure E hc output kept w w2 hc2 w3 :
  let tmp := temp_path E hc in
  create_fails E tmp = false ->
  write_entries E tmp 0 kept
    (emit (EvCreate tmp) (set_files (insert tmp (RegularFile "")) w)) = (true, w2) ->
  performCleanup E (set_temp tmp hc) output w2 = (true, hc2, w3) ->
  fst (fs_rename E tmp (effectiveHistoryFilePath_ hc) w3) = false ->
  remove_fails E tmp = false ->
  exists hc' w',
    commit E hc output kept w = (false, hc', w')
    /\ files w' !! tmp = None
    /\ (forall q, q <> tmp -> files w' !! q = files w3 !! q)
    /\ cerr w' = cerr w3 ++ [Say "Error: Failed to rename new history file"].
Proof.
  intros tmp Hcreate Hwrite Hclean Hrename Hrm. unfold commit.
  fold tmp. cbn [tempFilePath_ set_temp]. rewrite Hcreate, Hwrite, Hclean.
  pose proof (CommitFacts.performCleanup_paths E (set_temp tmp hc) output w2) as [Ht Hh].
  rewrite Hclean in Ht, Hh. cbn [fst snd tempFilePath_ effectiveHistoryFilePath_ set_temp] in Ht, Hh.
  rewrite Ht, Hh.
  destruct (fs_rename E tmp (effectiveHistoryFilePath_ hc) w3) as [renamed w4] eqn:Eren.
  cbn [fst] in Hrename. subst renamed.
  assert (w4 = w3) as ->.
  { unfold fs_rename in Eren.
    destruct (files w3 !! tmp); [|congruence].
    destruct (rename_fails E tmp (effectiveHistoryFilePath_ hc)); congruence. }
  set (w5 := log_err (Say "Error: Failed to rename new history file") w3).
  pose proof (CommitFacts.cleanup_removes_temp E hc2 w5) as Hc.
  rewrite Ht in Hc. specialize (Hc (CommitFacts.temp_path_nonempty E hc) Hrm).
  destruct (cleanup E hc2 w5) as [hc3 w6]. cbn [snd] in Hc.
  destruct Hc as (Hc1 & Hc2 & Hc3).
  exists hc3, w6. repeat split; assumption.
Qed.

Lemma commit_rename_failure_witness :
  let E := rename_blocked_env in
  let hc := sample_cleaner in
  let w := sample_history_world in
  let tmp := temp_path E hc in
  let w2 := snd (write_entries E tmp 0 sample_survivors
                   (emit (EvCreate tmp) (set_files (insert tmp (RegularFile "")) w))) in
  let hc2 := snd (fst (performCleanup E (set_temp tmp hc) ToNull w2)) in
  let w3 := snd (performCleanup E (set_temp tmp hc) ToNull w2) in
  create_fails E tmp = false
  /\ write_entries E tmp 0 sample_survivors
       (emit (EvCreate tmp) (set_files (insert tmp (RegularFile "")) w)) = (true, w2)
  /\ performCleanup E (set_temp tmp hc) ToNull w2 = (true, hc2, w3)
  /\ fst (fs_rename E tmp (effectiveHistoryFilePath_ hc) w3) = false
  /\ remove_fails E tmp = false
  /\ exists hc' w',
       commit E hc ToNull sample_survivors w = (false, hc', w')
       /\ files w' !! tmp = None
       /\ (forall q, q <> tmp -> files w' !! q = files w3 !! q)
       /\ cerr w' = cerr w3 ++ [Say "Error: Failed to rename new history file"].
Proof.
  intros E hc w tmp w2 hc2 w3.
  assert (create_fails E tmp = false) as H1 by reflexivity.
  assert (write_entries E tmp 0 sample_survivors
            (emit (EvCreate tmp) (set_files (insert tmp (RegularFile "")) w))
          = (true, w2)) as H2 by (vm_compute; reflexivity).
  assert (performCleanup E (set_temp tmp hc) ToNull w2 = (true, hc2, w3)) as H3
    by (vm_compute; reflexivity).
  assert (fst (fs_rename E tmp (effectiveHistoryFilePath_ hc) w3) = false) as H4
    by (vm_compute; reflexivity).
  assert (remove_fails E tmp = false) as H5 by reflexivity.
  split; [exact H1|]. split; [exact H2|]. split; [exact H3|].
  split; [exact H4|]. split; [exact H5|].
  exact (commit_rename_failure E hc ToNull sample_survivors w w2 hc2 w3 H1 H2 H3 H4 H5).
Defined.

(** C1 (the claim as stated fails).  The erase of the original succeeds and
    the rename onto it fails: afterwards the survivors are under no name,
    neither the temporary one nor the original one, and the run returns
    false, as it does when the temporary file cannot even be created. *)
Lemma rename_failure_discards_survivors :
  let r := processHistory rename_blocked_env sample_cleaner ToNull sample_history_world in
  let tmp := temp_path rename_blocked_env sample_cleaner in
  In (EvRemove (obscure_path rename_blocked_env sample_path 2)) (trace (snd r))
  /\ In (EvAppend tmp 16) (trace (snd r))
  /\ files (snd r) !! tmp = None
  /\ files (snd r) !! sample_path = None
  /\ fst (fst r) = false
  /\ fst (fst r)
     = fst (fst (processHistory create_blocked_env sample_cleaner ToNull
                   sample_history_world)).
Proof.
  vm_compute. repeat split; try reflexivity; tauto.
Qed.

(* ===================================================================== *)
(** * The time window of the mode "before" *)
(* ===================================================================== *)

(** The window of the mode "before": it ends at the given instant with the
    precise flag, one second earlier without. *)
Lemma calculateTimestamps_before L hc e :
  mode_ hc = BEFORE ->
  dateToEpoch L (specificDateStr_ hc) (preciseTime_ hc) = Ok e ->
  calculateTimestamps L hc
  = Ok (set_window 0 (if preciseTime_ hc then e else (e - 1)%Z) hc).
Proof.
  intros Hm He. unfold calculateTimestamps. rewrite Hm, He.
  destruct (preciseTime_ hc); reflexivity.
Qed.

(** C3 (the code departs from the claim).  With the precise flag the window
    of "before 2024-01-01 00:00:00" ends at that very instant, 1704067200,
    and a record stamped with it is deleted; without the flag the window of
    "before 2024-01-01" ends one second earlier and the same record is
    kept. *)
Theorem before_precise_includes_instant :
  let block := ": 1704067200:0;ls" +:+ NL in
  (exists hc,
     calculateTimestamps sample_libc (before_cleaner "2024-01-01 00:00:00" true) = Ok hc
     /\ startTimestamp_ hc = 0%Z
     /\ endTimestamp_ hc = 1704067200%Z
     /\ fst (fst (processCommandBlock hc block 1 ToNull no_counts sample_world)) = true)
  /\ (exists hc,
        calculateTimestamps sample_libc (before_cleaner "2024-01-01" false) = Ok hc
        /\ startTimestamp_ hc = 0%Z
        /\ endTimestamp_ hc = 1704067199%Z
        /\ fst (fst (processCommandBlock hc block 1 ToNull no_counts sample_world)) = false).
Proof.
  split; eexists; (split; [vm_compute; reflexivity|]); repeat split.
Qed.

(* ===================================================================== *)
(** * Records: what the scan cuts the file into *)
(* ===================================================================== *)

Module RecordFacts.

Lemma processCommandBlock_decision hc block ln output c w :
  fst (fst (processCommandBlock hc block ln output c w)) = decide hc block.
Proof.
  unfold decide, processCommandBlock.
  destruct (Str.find_char Str.LF block) as [i|]; [|reflexivity].
  destruct (historyEntryRegex_ (Str.take i block)) as [digits|]; [|reflexivity].
  destruct (stoll digits) as [ts| |]; try reflexivity.
  match goal with |- context [if ?b then _ else _] => destruct b end;
    reflexivity.
Qed.

Lemma processCommandBlock_counts hc block ln output c w :
  snd (fst (processCommandBlock hc block ln output c w))
  = if decide hc block then deleted_incr c else kept_incr c.
Proof.
  rewrite <- (processCommandBlock_decision hc block ln output c w).
  unfold processCommandBlock.
  destruct (Str.find_char Str.LF block) as [i|]; [|reflexivity].
  destruct (historyEntryRegex_ (Str.take i block)) as [digits|]; [|reflexivity].
  destruct (stoll digits) as [ts| |]; try reflexivity.
  match goal with |- context [if ?b then _ else _] => destruct b end;
    reflexivity.
Qed.

(** What a mutating run keeps and counts when the pending block is
    decided. *)
Lemma flush_block_records hc output ln st :
  dryRun_ hc = false ->
  let st' := flush_block hc output ln st in
  keptEntries st'
  = keptEntries st ++ map raw_of (survivors hc (pending (currentCommandBlock st) ln))
  /\ keptCount (counts st')
     = keptCount (counts st)
       + length (survivors hc (pending (currentCommandBlock st) ln))
  /\ deletedCount (counts st')
     = deletedCount (counts st)
       + length (casualties hc (pending (currentCommandBlock st) ln))
  /\ lineNum st' = lineNum st
  /\ currentCommandBlock st' = currentCommandBlock st.
Proof.
  intros Hdry. unfold flush_block, pending.
  destruct (Str.is_empty (currentCommandBlock st)).
  - cbn. rewrite List.app_nil_r, !Nat.add_0_r. repeat split.
  - pose proof (processCommandBlock_decision hc (currentCommandBlock st) ln
                  output (counts st) (world st)) as Hd.
    pose proof (processCommandBlock_counts hc (currentCommandBlock st) ln
                  output (counts st) (world st)) as Hc.
    destruct (processCommandBlock hc (currentCommandBlock st) ln output
                (counts st) (world st)) as [[d c] w'].
    cbn [fst snd] in Hd, Hc. subst d c. rewrite Hdry.
    unfold survivors, casualties. cbn [List.filter deleted].
    destruct (decide hc (currentCommandBlock st)); cbn;
      rewrite ?List.app_nil_r; repeat split; lia.
Qed.

End RecordFacts.

Module ScanRecords.
Import RecordFacts.

Lemma survivors_app hc a b :
  survivors hc (a ++ b) = survivors hc a ++ survivors hc b.
Proof. apply List.filter_app. Qed.

Lemma casualties_app hc a b :
  casualties hc (a ++ b) = casualties hc a ++ casualties hc b.
Proof. apply List.filter_app. Qed.

(** The scan of a mutating run followed by the last flush keeps the raw
    text of the records that are not deleted, in order, and counts both
    kinds. *)
Lemma scan_fold_records hc output lines :
  dryRun_ hc = false ->
  forall st,
    let st1 := scan_fold hc output lines st in
    let st' := flush_block hc output (lineNum st1) st1 in
    let rs := records_from (currentCommandBlock st) (lineNum st) lines in
    keptEntries st' = keptEntries st ++ map raw_of (survivors hc rs)
    /\ keptCount (counts st')
       = keptCount (counts st) + length (survivors hc rs)
    /\ deletedCount (counts st')
       = deletedCount (counts st) + length (casualties hc rs)
    /\ lineNum st' = lineNum st + length lines.
Proof.
  intros Hdry. induction lines as [|raw rest IH]; intros st.
  - cbn [scan_fold fold_left records_from length].
    destruct (flush_block_records hc output (lineNum st) st Hdry)
      as (H1 & H2 & H3 & H4 & _).
    repeat split; try assumption. lia.
  - change (scan_fold hc output (raw :: rest) st)
      with (scan_fold hc output rest (scan_line hc output raw st)).
    specialize (IH (scan_line hc output raw st)).
    cbv zeta in IH |- *. destruct IH as (I1 & I2 & I3 & I4).
    rewrite I1, I2, I3, I4. clear I1 I2 I3 I4.
    cbn [records_from length]. unfold scan_line.
    destruct (historyEntryRegex_ (strip_cr raw)) as [ts|].
    + destruct (flush_block_records hc output (S (lineNum st) - 1) st Hdry)
        as (H1 & H2 & H3 & H4 & H5).
      replace (S (lineNum st) - 1) with (lineNum st) in * by lia.
      cbn [keptEntries counts lineNum currentCommandBlock].
      rewrite H1, H2, H3, survivors_app, casualties_app, map_app, !length_app.
      rewrite <- List.app_assoc. repeat split; lia.
    + destruct (Str.is_empty (currentCommandBlock st)) eqn:Ecur; cbn [negb].
      * cbn [keptEntries counts lineNum currentCommandBlock kept_incr
               keptCount deletedCount].
        rewrite Hdry. cbn [negb].
        unfold survivors, casualties. cbn [List.filter deleted negb map length].
        rewrite <- List.app_assoc. repeat split; cbn [app]; lia.
      * cbn [keptEntries counts lineNum currentCommandBlock].
        repeat split; lia.
Qed.

(** The records hold every line read, each closed by one line feed and
    without its trailing carriage return. *)
Lemma records_from_lossless cur ln lines :
  Str.concat (map raw_of (records_from cur ln lines))
  = cur +:+ Str.concat (map (fun raw => strip_cr raw +:+ NL) lines).
Proof.
  revert cur ln. induction lines as [|raw rest IH]; intros cur ln;
    cbn [records_from map Str.concat].
  - unfold pending. destruct cur as [|c cur]; cbn; [reflexivity|].
    now rewrite !StrFacts.sapp_nil_r.
  - destruct (historyEntryRegex_ (strip_cr raw)).
    + rewrite map_app, StrFacts.concat_app, IH. unfold pending.
      destruct cur as [|c cur]; cbn; [reflexivity|].
      now rewrite !StrFacts.sapp_nil_r.
    + destruct (Str.is_empty cur) eqn:Ecur.
      * apply StrFacts.is_empty_true in Ecur. subst cur.
        cbn [map raw_of Str.concat]. rewrite IH. reflexivity.
      * rewrite IH. now rewrite StrFacts.sapp_assoc.
Qed.

End ScanRecords.

Module LineFacts.

Lemma back_cons c s : s <> "" -> Str.back (String c s) = Str.back s.
Proof. destruct s; [congruence | reflexivity]. Qed.

Lemma pop_back_cons c s :
  s <> "" -> Str.pop_back (String c s) = String c (Str.pop_back s).
Proof. destruct s; [congruence | reflexivity]. Qed.

Lemma back_nonempty s : s <> "" -> exists d, Str.back s = Some d.
Proof.
  induction s as [|c s IH]; [congruence|]. intros _.
  destruct s as [|c' s']; [now exists c|].
  rewrite back_cons by discriminate. apply IH. discriminate.
Qed.

Lemma ensure_cons c s :
  s <> "" -> ensure_final_newline (String c s) = String c (ensure_final_newline s).
Proof.
  intros Hs. unfold ensure_final_newline. rewrite back_cons by assumption.
  destruct (back_nonempty s Hs) as [d ->]. now destruct (Ascii.eqb d Str.LF).
Qed.

Lemma getlines_nil s : getlines s = [] -> s = "".
Proof.
  destruct s as [|c s]; [reflexivity|]. cbn [getlines].
  destruct (Ascii.eqb c Str.LF); [discriminate|].
  destruct (getlines s); discriminate.
Qed.

(** Closing every line read with a line feed gives the file back, with a
    line feed after a last line that had none. *)
Lemma getlines_join s :
  Str.concat (map (fun l => l +:+ NL) (getlines s)) = ensure_final_newline s.
Proof.
  induction s as [|c s IH]; [reflexivity|]. cbn [getlines].
  destruct (Ascii.eqb_spec c Str.LF) as [-> | Hc].
  - cbn [map Str.concat]. rewrite IH.
    destruct s as [|d s]; [reflexivity|].
    now rewrite (ensure_cons Str.LF (String d s)) by discriminate.
  - destruct (getlines s) as [|l ls] eqn:El.
    + apply getlines_nil in El. subst s. cbn.
      unfold ensure_final_newline. cbn [Str.back].
      destruct (Ascii.eqb_spec c Str.LF); [contradiction | reflexivity].
    + assert (s <> "") as Hs by (intros ->; discriminate El).
      rewrite ensure_cons by assumption. rewrite <- IH.
      cbn [map Str.concat]. reflexivity.
Qed.

Lemma getlines_no_LF s : Forall no_LF (getlines s).
Proof.
  induction s as [|c s IH]; [constructor|]. cbn [getlines].
  destruct (Ascii.eqb c Str.LF) eqn:Ec.
  - constructor; [reflexivity | assumption].
  - destruct (getlines s) as [|l ls].
    + constructor; [|constructor]. unfold no_LF. cbn. now rewrite Ec.
    + inversion IH as [|? ? Hl Hls]; subst. constructor; [|assumption].
      unfold no_LF in *. cbn. now rewrite Ec, Hl.
Qed.

Lemma strip_cr_cons c l :
  (l <> "" \/ Ascii.eqb c Str.CR = false) ->
  strip_cr (String c l) = String c (strip_cr l).
Proof.
  unfold strip_cr. intros [Hl | Hc].
  - rewrite back_cons by assumption.
    destruct (back_nonempty l Hl) as [d ->].
    destruct (Ascii.eqb d Str.CR); [now apply pop_back_cons | reflexivity].
  - destruct l as [|d l].
    + cbn. now rewrite Hc.
    + rewrite back_cons by discriminate.
      destruct (back_nonempty (String d l)) as [e ->]; [discriminate|].
      destruct (Ascii.eqb e Str.CR); [apply pop_back_cons; discriminate | reflexivity].
Qed.

Lemma crlf_to_lf_line l rest :
  no_LF l ->
  crlf_to_lf (l +:+ NL +:+ rest) = strip_cr l +:+ NL +:+ crlf_to_lf rest.
Proof.
  unfold no_LF. induction l as [|c l IH]; intros Hl.
  - reflexivity.
  - cbn [Str.forallb] in Hl. apply andb_true_iff in Hl as [Hc Hl].
    apply negb_true_iff in Hc.
    change (String c l +:+ NL +:+ rest) with (String c (l +:+ NL +:+ rest)).
    cbn [crlf_to_lf].
    destruct (Ascii.eqb c Str.CR) eqn:Ecr; cbn [andb].
    + destruct l as [|d l].
      * apply Ascii.eqb_eq in Ecr. subst c. reflexivity.
      * cbn [Str.forallb] in Hl. apply andb_true_iff in Hl as [Hd Hl'].
        apply negb_true_iff in Hd.
        change (starts_with Str.LF (String d l +:+ NL +:+ rest))
          with (Ascii.eqb d Str.LF).
        rewrite Hd. rewrite IH by (cbn; now rewrite Hd, Hl').
        rewrite (strip_cr_cons c (String d l)) by (left; discriminate).
        reflexivity.
    + rewrite IH by assumption.
      rewrite strip_cr_cons by (right; assumption). reflexivity.
Qed.

Lemma crlf_to_lf_lines ls :
  Forall no_LF ls ->
  crlf_to_lf (Str.concat (map (fun l => l +:+ NL) ls))
  = Str.concat (map (fun l => strip_cr l +:+ NL) ls).
Proof.
  induction 1 as [|l ls Hl Hls IH]; [reflexivity|].
  cbn [map Str.concat]. rewrite !StrFacts.sapp_assoc.
  rewrite crlf_to_lf_line by assumption. now rewrite IH.
Qed.

(** The lines as the scan stores them, put together, are the normalized
    file. *)
Lemma lines_normalized content :
  Str.concat (map (fun raw => strip_cr raw +:+ NL) (getlines content))
  = crlf_to_lf (ensure_final_newline content).
Proof.
  rewrite <- getlines_join. symmetry.
  apply crlf_to_lf_lines, getlines_no_LF.
Qed.

End LineFacts.

(* ===================================================================== *)
(** * The complete mutating run *)
(* ===================================================================== *)

Module RunFacts.

Lemma write_entries_ok E p entries :
  NoFaults E ->
  forall i c w,
    files w !! p = Some (RegularFile c) ->
    exists w',
      write_entries E p i entries w = (true, w')
      /\ files w' = <[p := RegularFile (c +:+ Str.concat entries)]> (files w)
      /\ writes w' = writes w.
Proof.
  intros NF. induction entries as [|entry rest IH]; intros i c w Hp.
  - exists w. cbn [write_entries Str.concat]. rewrite StrFacts.sapp_nil_r.
    repeat split. symmetry. now apply insert_id.
  - cbn [write_entries]. rewrite (nf_append E NF).
    destruct (IH (S i) (c +:+ entry) (append_entry p entry w)) as (w' & Hrun & Hf & Hw).
    { unfold append_entry. cbn [emit set_files files]. rewrite Hp.
      apply lookup_insert_eq. }
    exists w'. rewrite Hrun. split; [reflexivity|]. split; [|exact Hw].
    rewrite Hf. unfold append_entry. cbn [emit set_files files Str.concat].
    rewrite Hp, insert_insert_eq. now rewrite StrFacts.sapp_assoc.
Qed.

(** The erase of a regular file, empty or not, when nothing fails. *)
Lemma secureDelete_regular E p passes c w :
  NoFaults E ->
  writes w = [] ->
  files w !! p = Some (RegularFile c) ->
  exists w',
    secureDelete E p passes w = (true, w')
    /\ files w' !! p = None
    /\ (forall q, q <> p -> q <> obscure_path E p passes ->
                  files w' !! q = files w !! q).
Proof.
  intros NF Hw Hp.
  destruct (String.length c) as [|len] eqn:Elen.
  - unfold secureDelete.
    rewrite (fs_is_regular_file_regular E p c w NF Hp).
    rewrite (fs_file_size_regular E p c w NF Hp), Elen.
    unfold fs_remove. cbn [log_err files]. rewrite Hp, (nf_remove E NF).
    eexists. split; [reflexivity|]. cbn [emit set_files files].
    split; [apply lookup_delete_eq|].
    intros q Hq _. now apply lookup_delete_ne.
  - destruct (secureDelete_unhindered E p passes c w NF Hw Hp) as
      (w' & Hrun & _ & _ & Hf & _); [lia|].
    exists w'. split; [exact Hrun|]. rewrite Hf.
    split.
    + rewrite !lookup_delete. repeat case_decide; congruence.
    + intros q Hq Hq'. rewrite !lookup_delete.
      repeat case_decide; congruence.
Qed.

Lemma files_send o m w : files (send o m w) = files w.
Proof. now destruct o. Qed.

Lemma writes_send o m w : writes (send o m w) = writes w.
Proof. now destruct o. Qed.

(** Backup and erase when nothing fails: the original path is free
    afterwards, and the paths that are neither the original, nor the
    randomized name, nor the backup hold what they held. *)
Lemma performCleanup_ok E hc output c w :
  NoFaults E ->
  interrupted_ hc = false ->
  dryRun_ hc = false ->
  writes w = [] ->
  files w !! effectiveHistoryFilePath_ hc = Some (RegularFile c) ->
  exists hc' w',
    performCleanup E hc output w = (true, hc', w')
    /\ files w' !! effectiveHistoryFilePath_ hc = None
    /\ (forall q,
          q <> effectiveHistoryFilePath_ hc ->
          q <> obscure_path E (effectiveHistoryFilePath_ hc) (shredPasses_ hc) ->
          (doBackup_ hc = true -> q <> backup_path E hc) ->
          files w' !! q = files w !! q).
Proof.
  intros NF Hi Hdry Hw Hp. unfold performCleanup. rewrite Hi, Hdry.
  destruct (doBackup_ hc) eqn:Eb.
  - unfold backupHistoryFile, fs_copy_file. rewrite Hi.
    cbn [backupFilePath_ set_backup]. rewrite Hp, (nf_copy E NF). cbn [negb].
    cbn [effectiveHistoryFilePath_ shredPasses_ set_backup].
    set (w1 := send output (Say "Securely deleting original history file")
                 (log_out (Say "Backup created")
                    (emit (EvCopy (effectiveHistoryFilePath_ hc) (backup_path E hc))
                       (set_files (insert (backup_path E hc) (RegularFile c)) w)))).
    assert (files w1 = <[backup_path E hc := RegularFile c]> (files w)) as Hf1
      by (unfold w1; now rewrite files_send).
    destruct (secureDelete_regular E (effectiveHistoryFilePath_ hc)
                (shredPasses_ hc) c w1 NF) as (w2 & Hrun & Hgone & Hrest).
    { unfold w1. now rewrite writes_send. }
    { rewrite Hf1, lookup_insert. case_decide; [reflexivity | exact Hp]. }
    rewrite Hrun. eexists. eexists. split; [reflexivity|].
    rewrite !files_send. split; [exact Hgone|].
    intros q Hq1 Hq2 Hq3. rewrite Hrest by assumption.
    rewrite Hf1. apply lookup_insert_ne. intros Heq. now apply Hq3.
  - cbn [negb].
    destruct (secureDelete_regular E (effectiveHistoryFilePath_ hc)
                (shredPasses_ hc) c
                (send output (Say "Securely deleting original history file") w) NF)
      as (w2 & Hrun & Hgone & Hrest).
    { now rewrite writes_send. }
    { now rewrite files_send. }
    rewrite Hrun. eexists. eexists. split; [reflexivity|].
    rewrite !files_send. split; [exact Hgone|].
    intros q Hq1 Hq2 _. rewrite Hrest by assumption. now rewrite files_send.
Qed.

(** The commit when nothing fails: the original path holds the kept
    entries, the temporary path nothing. *)
Lemma commit_ok E hc output kept c w :
  NoFaults E ->
  interrupted_ hc = false ->
  dryRun_ hc = false ->
  writes w = [] ->
  files w !! effectiveHistoryFilePath_ hc = Some (RegularFile c) ->
  temp_path E hc <> effectiveHistoryFilePath_ hc ->
  temp_path E hc <> obscure_path E (effectiveHistoryFilePath_ hc) (shredPasses_ hc) ->
  (doBackup_ hc = true -> temp_path E hc <> backup_path E hc) ->
  exists hc' w',
    commit E hc output kept w = (true, hc', w')
    /\ files w' !! effectiveHistoryFilePath_ hc
       = Some (RegularFile (Str.concat kept))
    /\ files w' !! temp_path E hc = None
    /\ tempFilePath_ hc' = "".
Proof.
  intros NF Hi Hdry Hw Hp Ht1 Ht2 Ht3. unfold commit.
  set (tmp := temp_path E hc) in *. cbn [tempFilePath_ set_temp].
  rewrite (nf_create E NF).
  set (w1 := emit (EvCreate tmp) (set_files (insert tmp (RegularFile "")) w)).
  destruct (write_entries_ok E tmp kept NF 0 "" w1) as (w2 & Hrun & Hf2 & Hw2).
  { unfold w1. cbn [emit set_files files]. apply lookup_insert_eq. }
  rewrite Hrun. cbn [String.append] in Hf2.
  assert (files w2 !! effectiveHistoryFilePath_ hc = Some (RegularFile c)) as Hp2.
  { rewrite Hf2. unfold w1. cbn [emit set_files files].
    rewrite !lookup_insert_ne by assumption. exact Hp. }
  destruct (performCleanup_ok E (set_temp tmp hc) output c w2 NF Hi Hdry)
    as (hc2 & w3 & Hclean & Hgone & Hrest).
  { rewrite Hw2. exact Hw. }
  { exact Hp2. }
  rewrite Hclean.
  pose proof (CommitFacts.performCleanup_paths E (set_temp tmp hc) output w2) as [Hq1 Hq2].
  rewrite Hclean in Hq1, Hq2.
  cbn [fst snd tempFilePath_ effectiveHistoryFilePath_ set_temp] in Hq1, Hq2.
  rewrite Hq1, Hq2.
  cbn [effectiveHistoryFilePath_ shredPasses_ doBackup_ set_temp] in Hgone, Hrest.
  assert (files w3 !! tmp = Some (RegularFile (Str.concat kept))) as Htmp.
  { rewrite Hrest; [| assumption | assumption | exact Ht3].
    rewrite Hf2. apply lookup_insert_eq. }
  unfold fs_rename. rewrite Htmp, (nf_rename E NF).
  eexists. eexists. split; [reflexivity|].
  cbn [emit set_files files tempFilePath_ set_temp].
  split; [apply lookup_insert_eq|]. split; [|reflexivity].
  rewrite lookup_insert_ne by congruence. apply lookup_delete_eq.
Qed.

Lemma survivors_all hc rs : casualties hc rs = [] -> survivors hc rs = rs.
Proof.
  unfold casualties, survivors. induction rs as [|r rs IH]; [reflexivity|].
  cbn [List.filter]. destruct (deleted hc r); [discriminate|].
  intros H. cbn [negb]. now rewrite IH.
Qed.

End RunFacts.

(** C6 (as the code has it).  The raw text of the records of a file, put
    together in order, is the file with a line feed added after a last line
    that has none and without the carriage return that ends a line.  In a
    mutating run in which nothing fails and the random names do not collide,
    the history file afterwards holds exactly the raw text of the records
    that were not deleted, in order; when no record is deleted, that is the
    normalized original. *)
Theorem processHistory_lossless E hc output w content :
  NoFaults E ->
  interrupted_ hc = false ->
  dryRun_ hc = false ->
  writes w = [] ->
  files w !! effectiveHistoryFilePath_ hc = Some (RegularFile content) ->
  temp_path E hc <> effectiveHistoryFilePath_ hc ->
  temp_path E hc <> obscure_path E (effectiveHistoryFilePath_ hc) (shredPasses_ hc) ->
  (doBackup_ hc = true -> temp_path E hc <> backup_path E hc) ->
  Str.concat (map raw_of (records content))
  = crlf_to_lf (ensure_final_newline content)
  /\ exists hc' w',
       processHistory E hc output w = (true, hc', w')
       /\ files w' !! effectiveHistoryFilePath_ hc
          = Some (RegularFile
                    (Str.concat (map raw_of (survivors hc (records content)))))
       /\ files w' !! temp_path E hc = None
       /\ (casualties hc (records content) = [] ->
           files w' !! effectiveHistoryFilePath_ hc
           = Some (RegularFile (crlf_to_lf (ensure_final_newline content)))).
Proof.
  intros NF Hi Hdry Hw Hp Ht1 Ht2 Ht3.
  assert (Str.concat (map raw_of (records content))
          = crlf_to_lf (ensure_final_newline content)) as Hall.
  { unfold records. rewrite ScanRecords.records_from_lossless.
    cbn [String.append]. apply LineFacts.lines_normalized. }
  split; [exact Hall|].
  unfold processHistory. rewrite Hi.
  unfold open_history. rewrite (nf_read_open E NF), Hp.
  rewrite (ScanLoop.scan_lines_fold E hc output _ _ Hi (nf_read E NF)).
  rewrite Hdry.
  set (st1 := scan_fold hc output (getlines content) (scan_start w)).
  destruct (ScanRecords.scan_fold_records hc output (getlines content) Hdry (scan_start w))
    as (Hkept & _).
  fold st1 in Hkept. cbn [keptEntries scan_start app currentCommandBlock lineNum] in Hkept.
  fold (records content) in Hkept.
  pose proof (Frame.scan_lines_same_disk E hc output (getlines content) (scan_start w)) as Hd1.
  rewrite (ScanLoop.scan_lines_fold E hc output _ _ Hi (nf_read E NF)) in Hd1.
  cbn [snd world scan_start] in Hd1. fold st1 in Hd1.
  pose proof (Frame.flush_block_same_disk hc output (lineNum st1) st1) as Hd2.
  destruct (Frame.same_disk_trans _ _ _ Hd1 Hd2) as (Hf & _ & _ & Hwr).
  set (st2 := flush_block hc output (lineNum st1) st1) in *.
  set (w1 := log_out (Summary (lineNum st2) (keptCount (counts st2))
                        (deletedCount (counts st2))) (world st2)).
  destruct (RunFacts.commit_ok E hc output (keptEntries st2) content w1 NF Hi Hdry)
    as (hc' & w' & Hrun & Hhist & Htmp & _); try assumption.
  { unfold w1. cbn [log_out writes]. congruence. }
  { unfold w1. cbn [log_out files]. rewrite Hf. exact Hp. }
  exists hc', w'. split; [exact Hrun|].
  rewrite Hhist, Hkept. split; [reflexivity|]. split; [exact Htmp|].
  intros Hnone. rewrite (RunFacts.survivors_all hc _ Hnone), Hall. reflexivity.
Qed.

Lemma processHistory_lossless_witness :
  let E := sample_env in
  let hc := keep_all_cleaner in
  let w := sample_history_world in
  NoFaults E
  /\ interrupted_ hc = false
  /\ dryRun_ hc = false
  /\ writes w = []
  /\ files w !! effectiveHistoryFilePath_ hc = Some (RegularFile sample_history)
  /\ temp_path E hc <> effectiveHistoryFilePath_ hc
  /\ temp_path E hc <> obscure_path E (effectiveHistoryFilePath_ hc) (shredPasses_ hc)
  /\ (doBackup_ hc = true -> temp_path E hc <> backup_path E hc)
  /\ casualties hc (records sample_history) = []
  /\ Str.concat (map raw_of (records sample_history))
     = crlf_to_lf (ensure_final_newline sample_history)
  /\ exists hc' w',
       processHistory E hc ToNull w = (true, hc', w')
       /\ files w' !! effectiveHistoryFilePath_ hc
          = Some (RegularFile
                    (Str.concat (map raw_of (survivors hc (records sample_history)))))
       /\ files w' !! temp_path E hc = None
       /\ (casualties hc (records sample_history) = [] ->
           files w' !! effectiveHistoryFilePath_ hc
           = Some (RegularFile (crlf_to_lf (ensure_final_newline sample_history)))).
Proof.
  intros E hc w.
  assert (NoFaults E) as NF by (constructor; reflexivity).
  assert (temp_path E hc <> effectiveHistoryFilePath_ hc) as Ht1
    by (vm_compute; discriminate).
  assert (temp_path E hc
          <> obscure_path E (effectiveHistoryFilePath_ hc) (shredPasses_ hc)) as Ht2
    by (vm_compute; discriminate).
  assert (doBackup_ hc = true -> temp_path E hc <> backup_path E hc) as Ht3
    by (vm_compute; discriminate).
  split; [exact NF|]. split; [reflexivity|]. split; [reflexivity|].
  split; [reflexivity|]. split; [reflexivity|]. split; [exact Ht1|].
  split; [exact Ht2|]. split; [exact Ht3|]. split; [reflexivity|].
  exact (processHistory_lossless E hc ToNull w sample_history NF eq_refl eq_refl
           eq_refl eq_refl Ht1 Ht2 Ht3).
Defined.

(** C6 (the claim as stated fails).  A file whose last line has no line feed
    and no carriage return anywhere: its one record is the file plus a line
    feed, and so is the file after a run that deletes nothing. *)
Lemma unterminated_line_gains_line_feed :
  let content := ": 150:0;ls" in
  let w := world_of {[ sample_path := RegularFile content ]} in
  let r := processHistory sample_env keep_all_cleaner ToNull w in
  crlf_to_lf content = content
  /\ Str.concat (map raw_of (records content)) = content +:+ NL
  /\ Str.concat (map raw_of (records content)) <> content
  /\ fst (fst r) = true
  /\ casualties keep_all_cleaner (records content) = []
  /\ files (snd r) !! sample_path = Some (RegularFile (content +:+ NL)).
Proof.
  vm_compute. repeat split; try reflexivity. discriminate.
Qed.

(* ===================================================================== *)
(** * The erase primitive in any environment *)
(* ===================================================================== *)

Module EraseFacts.

Lemma length_take_min n s :
  String.length (Str.take n s) = Nat.min n (String.length s).
Proof.
  revert s; induction n as [|n IH]; intros [|c s]; simpl; try reflexivity.
  now rewrite IH.
Qed.

Lemma length_drop n s : String.length (Str.drop n s) = String.length s - n.
Proof.
  revert s; induction n as [|n IH]; intros [|c s]; simpl; try reflexivity.
  apply IH.
Qed.

Lemma length_overwrite c off bytes :
  off + String.length bytes <= String.length c ->
  String.length (overwrite c off bytes) = String.length c.
Proof.
  intros H. unfold overwrite.
  rewrite !StrFacts.length_app, length_take_min, length_drop. lia.
Qed.

Lemma do_write_sized p n off bytes w :
  sized p n w -> off + String.length bytes <= n ->
  sized p n (do_write p off bytes w).
Proof.
  intros (c & Hc & Hn) Hle. exists (overwrite c off bytes).
  unfold do_write. cbn [emit add_sink set_files files]. rewrite Hc.
  split; [apply lookup_insert_eq|]. rewrite length_overwrite; lia.
Qed.

Lemma do_write_other p q off bytes w :
  q <> p -> files (do_write p off bytes w) !! q = files w !! q.
Proof.
  intros Hq. unfold do_write. cbn [emit add_sink set_files files].
  destruct (files w !! p) as [[c|]|]; try reflexivity.
  now rewrite lookup_insert_ne by congruence.
Qed.

Lemma do_write_sink p off bytes w :
  sink (do_write p off bytes w) = sink w + String.length bytes.
Proof. reflexivity. Qed.

Lemma overwrite_inv_refl p n w : sized p n w -> overwrite_inv p n 0 w w.
Proof. intros H. repeat split; [exact H | lia | lia]. Qed.

Lemma overwrite_inv_step p n b1 b2 w1 w2 w3 :
  overwrite_inv p n b1 w1 w2 -> overwrite_inv p n b2 w2 w3 ->
  overwrite_inv p n (b1 + b2) w1 w3.
Proof.
  intros (A1 & A2 & A3) (B1 & B2 & B3). repeat split; try assumption; try lia.
  intros q Hq. now rewrite B2, A2.
Qed.

Lemma overwrite_inv_weaken p n b b' w w' :
  b <= b' -> overwrite_inv p n b w w' -> overwrite_inv p n b' w w'.
Proof. intros Hb (A1 & A2 & A3). repeat split; try assumption; lia. Qed.

Lemma overwrite_inv_do_write p n off bytes w :
  sized p n w -> off + String.length bytes <= n ->
  overwrite_inv p n (String.length bytes) w (do_write p off bytes w).
Proof.
  intros Hs Hle. repeat split.
  - now apply do_write_sized.
  - intros q Hq. now apply do_write_other.
  - rewrite do_write_sink. lia.
  - rewrite do_write_sink. lia.
Qed.

Lemma write_rest_inv p buf n fuel :
  forall remaining pos w,
    sized p n w -> pos + remaining <= n ->
    overwrite_inv p n remaining w (write_rest fuel p buf remaining pos w).
Proof.
  induction fuel as [|fuel IH]; intros remaining pos w Hs Hle; cbn [write_rest].
  - apply overwrite_inv_weaken with (b := 0); [lia | now apply overwrite_inv_refl].
  - destruct (Nat.eqb_spec remaining 0) as [-> | Hne].
    + now apply overwrite_inv_refl.
    + set (k := Nat.min (String.length buf) remaining).
      assert (String.length (Str.take k buf) = k) as Hk
        by (rewrite length_take_min; unfold k; lia).
      assert (k <= remaining) as Hkr by (unfold k; lia).
      apply overwrite_inv_weaken with (b := k + (remaining - k)); [lia|].
      apply overwrite_inv_step with (w2 := do_write p pos (Str.take k buf) w).
      * rewrite <- Hk at 1. apply overwrite_inv_do_write; [exact Hs | lia].
      * apply IH; [apply do_write_sized; [exact Hs | lia] | lia].
Qed.

Lemma sized_stream p n w w' :
  files w' = files w -> sized p n w -> sized p n w'.
Proof. intros Hf (c & Hc & Hn). exists c. now rewrite Hf. Qed.

Lemma overwrite_inv_stream p n b w w' w'' :
  files w'' = files w' -> sink w'' = sink w' ->
  overwrite_inv p n b w w' -> overwrite_inv p n b w w''.
Proof.
  intros Hf Hs (A1 & A2 & A3). repeat split.
  - now apply (sized_stream p n w').
  - intros q Hq. rewrite Hf. now apply A2.
  - lia.
  - lia.
Qed.

Lemma write_loop_inv p buf n script :
  forall remaining pos w,
    sized p n w -> pos + remaining <= n ->
    overwrite_inv p n remaining w
      (snd (write_loop script p buf remaining pos w)).
Proof.
  induction script as [|o script IH]; intros remaining pos w Hs Hle;
    cbn [write_loop]; destruct (Nat.eqb_spec remaining 0) as [-> | Hne];
    cbn [snd]; try (apply (overwrite_inv_stream p n 0 w w); auto using overwrite_inv_refl).
  - exact (write_rest_inv p buf n remaining remaining pos (set_writes [] w)
             (sized_stream p n w _ eq_refl Hs) Hle).
  - set (k := Nat.min (String.length buf) remaining).
    assert (k <= remaining) as Hkr by (unfold k; lia).
    destruct o as [| | |m].
    + assert (String.length (Str.take k buf) = k) as Hk
        by (rewrite length_take_min; unfold k; lia).
      apply overwrite_inv_weaken with (b := k + (remaining - k)); [lia|].
      apply overwrite_inv_step with (w2 := do_write p pos (Str.take k buf) w).
      * rewrite <- Hk at 1. apply overwrite_inv_do_write; [exact Hs | lia].
      * apply IH; [apply do_write_sized; [exact Hs | lia] | lia].
    + now apply IH.
    + cbn [snd]. apply (overwrite_inv_stream p n remaining w w); try reflexivity.
      apply overwrite_inv_weaken with (b := 0); [lia | now apply overwrite_inv_refl].
    + set (j := Nat.min m k).
      assert (String.length (Str.take j buf) = j) as Hj
        by (rewrite length_take_min; unfold j, k; lia).
      assert (j <= remaining) as Hjr by (unfold j; lia).
      destruct (j =? k).
      * apply overwrite_inv_weaken with (b := j + (remaining - j)); [lia|].
        apply overwrite_inv_step with (w2 := do_write p pos (Str.take j buf) w).
        -- rewrite <- Hj at 1. apply overwrite_inv_do_write; [exact Hs | lia].
        -- apply IH; [apply do_write_sized; [exact Hs | lia] | lia].
      * cbn [snd].
        apply (overwrite_inv_stream p n remaining w (do_write p pos (Str.take j buf) w));
          try reflexivity.
        apply overwrite_inv_weaken with (b := j); [lia|].
        rewrite <- Hj at 1. apply overwrite_inv_do_write; [exact Hs | lia].
Qed.

Lemma overwrite_passes_inv E p n :
  forall passes pass cur w,
    sized p n w ->
    overwrite_inv p n (passes * n) w
      (snd (overwrite_passes E passes pass p n cur w))
    /\ (fst (fst (overwrite_passes E passes pass p n cur w)) = true ->
        snd (fst (overwrite_passes E passes pass p n cur w))
        = cur + passes * SHRED_BUFFER_SIZE).
Proof.
  induction passes as [|passes IH]; intros pass cur w Hs; cbn [overwrite_passes].
  - split; [now apply overwrite_inv_refl | cbn; lia].
  - destruct (seek_fails E pass).
    + split; [|discriminate]. cbn [snd].
      apply (overwrite_inv_stream p n _ w w); try reflexivity.
      apply overwrite_inv_weaken with (b := 0); [lia | now apply overwrite_inv_refl].
    + pose proof (write_loop_inv p (fillRandom (shred_gen E) cur) n (writes w)
                    n 0 w Hs (Nat.le_refl _)) as Hloop.
      destruct (write_loop (writes w) p (fillRandom (shred_gen E) cur) n 0 w)
        as [[] w1]; cbn [snd fst] in *.
      * set (w2 := if fsync_fails E pass
                   then log_err (Say "Warning: fsync failed") w1
                   else emit (EvFsync p) w1).
        assert (overwrite_inv p n n w w2) as H2.
        { apply (overwrite_inv_stream p n n w w1); try assumption;
            unfold w2; destruct (fsync_fails E pass); reflexivity. }
        destruct (IH (S pass) (cur + SHRED_BUFFER_SIZE) w2) as [H3 H4];
          [apply H2|].
        split.
        -- apply overwrite_inv_weaken with (b := n + passes * n); [lia|].
           eapply overwrite_inv_step; eassumption.
        -- intros Hok. rewrite (H4 Hok). lia.
      * split; [|discriminate].
        apply overwrite_inv_weaken with (b := n); [lia | exact Hloop].
Qed.

Lemma fs_remove_gone E p w :
  fst (fs_remove E p w) = true -> files (snd (fs_remove E p w)) !! p = None.
Proof.
  unfold fs_remove. destruct (files w !! p); [|discriminate].
  destruct (remove_fails E p); [discriminate|]. intros _.
  cbn [snd emit set_files files]. apply lookup_delete_eq.
Qed.

Lemma fs_remove_other E p q w :
  q <> p -> files (snd (fs_remove E p w)) !! q = files w !! q.
Proof.
  intros Hq. unfold fs_remove. destruct (files w !! p); [|reflexivity].
  destruct (remove_fails E p); [reflexivity|].
  cbn [snd emit set_files files]. now apply lookup_delete_ne.
Qed.

Lemma fs_remove_sink E p w : sink (snd (fs_remove E p w)) = sink w.
Proof.
  unfold fs_remove. destruct (files w !! p); [|reflexivity].
  destruct (remove_fails E p); reflexivity.
Qed.

(** At a path, removal leaves the entry or nothing. *)
Lemma fs_remove_at E p q w :
  files (snd (fs_remove E p w)) !! q = files w !! q
  \/ files (snd (fs_remove E p w)) !! q = None.
Proof.
  destruct (base.decide (q = p)) as [-> | Hq]; [|left; now apply fs_remove_other].
  unfold fs_remove. destruct (files w !! p) eqn:El; [|left; exact El].
  destruct (remove_fails E p); [left; exact El|].
  right. cbn [snd emit set_files files]. apply lookup_delete_eq.
Qed.

End EraseFacts.

Module EraseRun.
Import EraseFacts.

Lemma fs_rename_true E src dst w w' :
  fs_rename E src dst w = (true, w') ->
  exists n, files w !! src = Some n
            /\ files w' = <[dst := n]> (delete src (files w))
            /\ sink w' = sink w.
Proof.
  unfold fs_rename. destruct (files w !! src) as [n|]; [|discriminate].
  destruct (rename_fails E src dst); [discriminate|].
  intros H. injection H as <-. exists n. repeat split.
Qed.

Lemma fs_rename_false E src dst w w' :
  fs_rename E src dst w = (false, w') -> w' = w.
Proof.
  unfold fs_rename. destruct (files w !! src) as [n|]; [|congruence].
  destruct (rename_fails E src dst); [congruence | discriminate].
Qed.

Lemma regular_inv E p w b :
  fs_is_regular_file E p w = (true, b) ->
  exists c, files w !! p = Some (RegularFile c).
Proof.
  unfold fs_is_regular_file. destruct (status_error E p); [discriminate|].
  destruct (files w !! p) as [[c|]|]; try discriminate. eauto.
Qed.

Lemma not_regular_inv E p w b :
  fs_is_regular_file E p w = (false, b) -> overwritable_size p w = 0 \/ b = true.
Proof.
  unfold fs_is_regular_file, overwritable_size.
  destruct (status_error E p); [intros H; injection H as <-; now right|].
  destruct (files w !! p) as [[c|]|]; try discriminate; intros _; now left.
Qed.

Lemma file_size_inv E p w c n :
  files w !! p = Some (RegularFile c) ->
  fs_file_size E p w = Some n -> String.length c = n.
Proof.
  intros Hc. unfold fs_file_size. rewrite Hc.
  destruct (size_error E p); congruence.
Qed.

Lemma open_for_overwrite_files E p w :
  files (snd (open_for_overwrite E p w)) = files w
  /\ sink (snd (open_for_overwrite E p w)) = sink w.
Proof.
  unfold open_for_overwrite. destruct (files w !! p); [|split; reflexivity].
  destruct (open_sync E p); split; reflexivity.
Qed.

Lemma finish_inv E p obscure n w :
  sized p n w ->
  (forall q, q <> p -> q <> obscure ->
             files (snd (finish E p obscure w)) !! q = files w !! q)
  /\ sink (snd (finish E p obscure w)) = sink w
  /\ (files (snd (finish E p obscure w)) !! p = None
      \/ sized p n (snd (finish E p obscure w)))
  /\ (fst (finish E p obscure w) = true ->
      files (snd (finish E p obscure w)) !! p = None).
Proof.
  intros Hs. unfold finish.
  destruct (fs_rename E p obscure w) as [[] w3] eqn:Eren.
  - destruct (fs_rename_true _ _ _ _ _ Eren) as (nd & Hnd & Hf & Hsk).
    pose proof (fun q => fs_remove_other E obscure q w3) as Ho.
    pose proof (fs_remove_sink E obscure w3) as Hk.
    pose proof (fs_remove_at E obscure p w3) as Hat.
    pose proof (fs_remove_gone E obscure w3) as Hg.
    assert (files w3 !! p = None \/ sized p n w3) as Hp3.
    { destruct (base.decide (p = obscure)) as [<- | Hne].
      - right. destruct Hs as (c & Hc & Hn). exists c.
        rewrite Hf, lookup_insert_eq. split; congruence.
      - left. rewrite Hf, lookup_insert_ne by congruence. apply lookup_delete_eq. }
    destruct (fs_remove E obscure w3) as [[] w4]; cbn [fst snd] in *;
      cbn [log_err files sink].
    + split; [intros q Hq1 Hq2; rewrite Ho, Hf by congruence;
              rewrite lookup_insert_ne, lookup_delete_ne by congruence;
              reflexivity|].
      split; [congruence|].
      assert (files w4 !! p = None) as Hnone.
      { destruct (base.decide (p = obscure)) as [<- | Hne]; [now apply Hg|].
        rewrite Ho, Hf by congruence.
        rewrite lookup_insert_ne by congruence. apply lookup_delete_eq. }
      split; [now left | intros _; exact Hnone].
    + split; [intros q Hq1 Hq2; rewrite Ho, Hf by congruence;
              rewrite lookup_insert_ne, lookup_delete_ne by congruence;
              reflexivity|].
      split; [congruence|]. split; [|discriminate].
      destruct Hat as [Hsame | Hnone]; [|now left].
      destruct Hp3 as [Hp3 | (c & Hc & Hn)]; [left; congruence|].
      right. exists c. cbn [log_err files]. split; congruence.
  - apply fs_rename_false in Eren. subst w3.
    pose proof (fun q => fs_remove_other E p q w) as Ho.
    pose proof (fs_remove_sink E p w) as Hk.
    pose proof (fs_remove_at E p p w) as Hat.
    pose proof (fs_remove_gone E p w) as Hg.
    destruct (fs_remove E p w) as [[] w4]; cbn [fst snd] in *;
      cbn [log_err files sink].
    + split; [intros q Hq1 Hq2; now apply Ho|]. split; [exact Hk|].
      split; [left; now apply Hg | intros _; now apply Hg].
    + split; [intros q Hq1 Hq2; now apply Ho|]. split; [exact Hk|].
      split; [|discriminate].
      destruct Hat as [Hsame | Hnone]; [|now left].
      right. destruct Hs as (c & Hc & Hn). exists c. cbn [log_err files].
      split; congruence.
Qed.

(** A plain removal, as at every early return of [secureDelete]. *)
Lemma plain_remove_inv E p w0 w :
  files w = files w0 -> sink w = sink w0 ->
  (forall q, q <> p -> files (snd (fs_remove E p w)) !! q = files w0 !! q)
  /\ sink (snd (fs_remove E p w)) = sink w0
  /\ (forall n, sized p n w0 ->
        files (snd (fs_remove E p w)) !! p = None
        \/ sized p n (snd (fs_remove E p w)))
  /\ (fst (fs_remove E p w) = true -> files (snd (fs_remove E p w)) !! p = None).
Proof.
  intros Hf Hs. split; [intros q Hq; rewrite fs_remove_other by assumption; congruence|].
  split; [rewrite fs_remove_sink; exact Hs|].
  split; [|apply fs_remove_gone].
  intros n (c & Hc & Hn).
  destruct (fs_remove_at E p p w) as [Hsame | Hnone]; [|now left].
  right. exists c. split; congruence.
Qed.

End EraseRun.

Module EraseAny.
Import EraseFacts EraseRun.

Lemma erase_post_plain E p passes w w1 :
  files w1 = files w -> sink w1 = sink w ->
  erase_post E p passes w (fs_remove E p w1).
Proof.
  intros Hf Hs.
  destruct (plain_remove_inv E p w w1 Hf Hs) as (A1 & A2 & A3 & A4).
  repeat split; try assumption; try lia.
  intros q Hq _. now apply A1.
Qed.

Lemma erase_post_stay E p passes w w1 b :
  files w1 = files w -> sink w1 = sink w ->
  (b = true -> files w !! p = None) ->
  erase_post E p passes w (b, w1).
Proof.
  intros Hf Hs Hb. unfold erase_post. cbn [fst snd]. rewrite Hf, Hs.
  repeat split; try lia.
  - intros n (c & Hc & Hn). right. exists c. rewrite Hf. now split.
  - exact Hb.
Qed.

Lemma sized_unique p n m w : sized p n w -> sized p m w -> n = m.
Proof. intros (c & Hc & Hn) (d & Hd & Hm). congruence. Qed.

(** What [secureDelete] does to the file system in any environment and with
    any outcomes of its writes. *)
Lemma secureDelete_post E p passes w :
  erase_post E p passes w (secureDelete E p passes w).
Proof.
  unfold secureDelete.
  destruct (fs_is_regular_file E p w) as [[] b] eqn:Ereg.
  - destruct (regular_inv _ _ _ _ Ereg) as (c & Hc).
    destruct (fs_file_size E p w) as [[|n]|] eqn:Esz;
      try (apply erase_post_plain; reflexivity).
    pose proof (file_size_inv _ _ _ _ _ Hc Esz) as Hlen.
    destruct (open_for_overwrite_files E p w) as [Hf1 Hs1].
    destruct (open_for_overwrite E p w) as [[] w1]; cbn [snd] in Hf1, Hs1;
      [|apply erase_post_plain; cbn [log_err files sink]; assumption].
    assert (sized p (S n) w1) as Hsz by (exists c; rewrite Hf1; now split).
    destruct (overwrite_passes_inv E p (S n) (Z.to_nat passes) 1 0 w1 Hsz)
      as ((Hsz2 & Hfr2 & Hsk2) & Hcur).
    assert (overwritable_size p w = S n) as Hos
      by (unfold overwritable_size; now rewrite Hc).
    destruct (overwrite_passes E (Z.to_nat passes) 1 p (S n) 0 w1)
      as [[[] cur] w2]; cbn [fst snd] in *.
    + rewrite (Hcur eq_refl). cbn [Nat.add].
      fold (obscure_path E p passes).
      change (erase_post E p passes w (finish E p (obscure_path E p passes) w2)).
      destruct (finish_inv E p (obscure_path E p passes) (S n) w2 Hsz2)
        as (B1 & B2 & B3 & B4).
      unfold erase_post. rewrite B2, Hos. repeat split; try lia.
      * intros q Hq1 Hq2. rewrite B1, Hfr2 by assumption. now rewrite Hf1.
      * intros m Hm.
        assert (m = S n) as -> by (apply (sized_unique p m (S n) w Hm);
                                   exists c; now split).
        exact B3.
      * exact B4.
    + destruct (plain_remove_inv E p w2 w2 eq_refl eq_refl) as (A1 & A2 & A3 & A4).
      unfold erase_post. rewrite A2, Hos. repeat split; try lia.
      * intros q Hq1 Hq2. rewrite A1, Hfr2 by assumption. now rewrite Hf1.
      * intros m Hm.
        assert (m = S n) as -> by (apply (sized_unique p m (S n) w Hm);
                                   exists c; now split).
        now apply A3.
      * exact A4.
  - destruct b.
    + apply erase_post_stay; try reflexivity. discriminate.
    + unfold fs_exists. destruct (files w !! p) eqn:El.
      * apply erase_post_plain; reflexivity.
      * apply erase_post_stay; try reflexivity. intros _. exact El.
Qed.

End EraseAny.

(** X1. In every environment, whatever the writes did: when [secureDelete]
    returns true, nothing is left under the path it was given. *)
Theorem secureDelete_true_removed E p passes w :
  fst (secureDelete E p passes w) = true ->
  files (snd (secureDelete E p passes w)) !! p = None.
Proof.
  destruct (EraseAny.secureDelete_post E p passes w) as (_ & _ & _ & H).
  exact H.
Qed.

Lemma secureDelete_true_removed_witness :
  fst (secureDelete sample_env sample_path 2 (set_writes [WriteAll; WriteError] sample_world))
  = true
  /\ files (snd (secureDelete sample_env sample_path 2
                   (set_writes [WriteAll; WriteError] sample_world)))
     !! sample_path = None.
Proof.
  assert (fst (secureDelete sample_env sample_path 2
                 (set_writes [WriteAll; WriteError] sample_world)) = true) as H
    by (vm_compute; reflexivity).
  split; [exact H|].
  exact (secureDelete_true_removed sample_env sample_path 2
           (set_writes [WriteAll; WriteError] sample_world) H).
Defined.



(** X3. In every environment, [secureDelete] never changes the length of a
    regular file: afterwards the path holds nothing, or a regular file of
    the length it had (every write stays inside the file). *)
Theorem secureDelete_keeps_length E p passes w c :
  files w !! p = Some (RegularFile c) ->
  files (snd (secureDelete E p passes w)) !! p = None
  \/ exists c',
       files (snd (secureDelete E p passes w)) !! p = Some (RegularFile c')
       /\ String.length c' = String.length c.
Proof.
  intros Hc.
  destruct (EraseAny.secureDelete_post E p passes w) as (_ & _ & H & _).
  apply (H (String.length c)). exists c. now split.
Qed.

Lemma secureDelete_keeps_length_witness :
  files sample_world !! sample_path = Some (RegularFile "secret")
  /\ fst (secureDelete stuck_env sample_path 2 sample_world) = false
  /\ (files (snd (secureDelete stuck_env sample_path 2 sample_world)) !! sample_path
      = None
      \/ exists c',
           files (snd (secureDelete stuck_env sample_path 2 sample_world))
             !! sample_path = Some (RegularFile c')
           /\ String.length c' = String.length "secret").
Proof.
  assert (files sample_world !! sample_path = Some (RegularFile "secret")) as H
    by reflexivity.
  split; [exact H|]. split; [vm_compute; reflexivity|].
  exact (secureDelete_keeps_length stuck_env sample_path 2 sample_world "secret" H).
Defined.

(** X4. In every environment, [secureDelete] writes at most [passes] times
    the size of the file: nothing at all when the entry is not a regular
    file, when the file is empty or when [passes] is not positive. *)
Theorem secureDelete_bytes_bound E p passes w :
  sink w <= sink (snd (secureDelete E p passes w))
  /\ sink (snd (secureDelete E p passes w))
     <= sink w + Z.to_nat passes * overwritable_size p w.
Proof.
  destruct (EraseAny.secureDelete_post E p passes w) as (_ & H & _).
  exact H.
Qed.

Module Interrupted.

Lemma write_loop_EINTR k script p buf remaining pos w :
  remaining <> 0 ->
  write_loop (repeat WriteEINTR k ++ script) p buf remaining pos w
  = write_loop script p buf remaining pos w.
Proof.
  intros Hr. induction k as [|k IH]; [reflexivity|].
  cbn [repeat app write_loop].
  destruct (Nat.eqb_spec remaining 0); [contradiction | exact IH].
Qed.

End Interrupted.

(** X5. A [write] interrupted by a signal ([EINTR]) is tried again: when
    nothing else fails, the erase of a non-empty regular file with any
    number of interrupted writes ends exactly as the erase with none. *)
Theorem secureDelete_retries_interrupted E p passes c k w :
  NoFaults E ->
  files w !! p = Some (RegularFile c) ->
  0 < String.length c ->
  (1 <= passes)%Z ->
  writes w = repeat WriteEINTR k ->
  secureDelete E p passes w = secureDelete E p passes (set_writes [] w).
Proof.
  intros NF Hc Hlen Hp Hw. unfold secureDelete.
  rewrite (fs_is_regular_file_regular E p c w NF Hc).
  rewrite (fs_is_regular_file_regular E p c (set_writes [] w) NF Hc).
  rewrite (fs_file_size_regular E p c w NF Hc).
  rewrite (fs_file_size_regular E p c (set_writes [] w) NF Hc).
  destruct (String.length c) as [|n]; [lia|].
  rewrite !open_for_overwrite_ok
    by first [exact NF | unfold is_Some; eexists; exact Hc].
  destruct (Z.to_nat passes) as [|m] eqn:Em; [lia|].
  cbn [overwrite_passes]. rewrite (nf_seek E NF), Hw.
  cbn [set_writes writes].
  rewrite <- (List.app_nil_r (repeat WriteEINTR k)).
  rewrite Interrupted.write_loop_EINTR by discriminate.
  reflexivity.
Qed.

Lemma secureDelete_retries_interrupted_witness :
  let w := set_writes (repeat WriteEINTR 3) sample_world in
  NoFaults sample_env
  /\ files w !! sample_path = Some (RegularFile "secret")
  /\ 0 < String.length "secret"
  /\ (1 <= 2)%Z
  /\ writes w = repeat WriteEINTR 3
  /\ secureDelete sample_env sample_path 2 w
     = secureDelete sample_env sample_path 2 (set_writes [] w).
Proof.
  intros w.
  assert (NoFaults sample_env) as NF by (constructor; reflexivity).
  assert (files w !! sample_path = Some (RegularFile "secret")) as Hc by reflexivity.
  assert (0 < String.length "secret") as Hlen by (simpl; lia).
  assert (1 <= 2)%Z as Hp by lia.
  split; [exact NF|]. split; [exact Hc|]. split; [exact Hlen|].
  split; [exact Hp|]. split; [reflexivity|].
  exact (secureDelete_retries_interrupted sample_env sample_path 2 "secret" 3 w
           NF Hc Hlen Hp eq_refl).
Defined.

(* ===================================================================== *)
(** * The counters and the report of the scan *)
(* ===================================================================== *)

Module Tally.
Import RecordFacts.

Lemma announced_app hc output a b :
  announced hc output (a ++ b) = announced hc output a ++ announced hc output b.
Proof.
  unfold announced. destruct output; [|reflexivity].
  destruct (dryRun_ hc); [|reflexivity].
  now rewrite ScanRecords.casualties_app, map_app.
Qed.

Lemma announced_entry hc output block ln :
  announced hc output [Entry block ln]
  = if decide hc block
    then match output with
         | ToCout => if dryRun_ hc then [WouldDelete ln block] else []
         | ToNull => []
         end
    else [].
Proof.
  unfold announced, casualties. cbn [List.filter deleted].
  destruct output, (decide hc block), (dryRun_ hc); reflexivity.
Qed.

Lemma processCommandBlock_said hc block ln output c w :
  cout (snd (processCommandBlock hc block ln output c w))
  = cout w ++ announced hc output [Entry block ln].
Proof.
  rewrite announced_entry.
  rewrite <- (processCommandBlock_decision hc block ln output c w).
  unfold processCommandBlock.
  destruct (Str.find_char Str.LF block) as [i|];
    [|cbn; now rewrite List.app_nil_r].
  destruct (historyEntryRegex_ (Str.take i block)) as [digits|];
    [|cbn; now rewrite List.app_nil_r].
  destruct (stoll digits) as [ts| |]; try (cbn; now rewrite List.app_nil_r).
  match goal with |- context [if ?b then _ else _] => destruct b end;
    cbn [fst snd]; [|now rewrite List.app_nil_r].
  destruct (dryRun_ hc), output; cbn; now rewrite ?List.app_nil_r.
Qed.

(** The pending block decided, in any mode: the counters and the output. *)
Lemma flush_block_tally hc output ln st :
  let st' := flush_block hc output ln st in
  keptCount (counts st')
  = keptCount (counts st) + length (survivors hc (pending (currentCommandBlock st) ln))
  /\ deletedCount (counts st')
     = deletedCount (counts st)
       + length (casualties hc (pending (currentCommandBlock st) ln))
  /\ cout (world st')
     = cout (world st) ++ announced hc output (pending (currentCommandBlock st) ln)
  /\ lineNum st' = lineNum st
  /\ currentCommandBlock st' = currentCommandBlock st.
Proof.
  unfold flush_block, pending.
  destruct (Str.is_empty (currentCommandBlock st)).
  - cbn. rewrite !Nat.add_0_r.
    assert (announced hc output [] = []) as -> by (unfold announced; destruct output, (dryRun_ hc); reflexivity).
    rewrite List.app_nil_r. repeat split.
  - pose proof (processCommandBlock_decision hc (currentCommandBlock st) ln
                  output (counts st) (world st)) as Hd.
    pose proof (processCommandBlock_counts hc (currentCommandBlock st) ln
                  output (counts st) (world st)) as Hc.
    pose proof (processCommandBlock_said hc (currentCommandBlock st) ln
                  output (counts st) (world st)) as Ho.
    destruct (processCommandBlock hc (currentCommandBlock st) ln output
                (counts st) (world st)) as [[d c] w'].
    cbn [fst snd] in Hd, Hc, Ho. subst d c.
    cbn [counts world lineNum currentCommandBlock]. rewrite Ho.
    unfold survivors, casualties. cbn [List.filter deleted].
    destruct (decide hc (currentCommandBlock st)); cbn; repeat split; lia.
Qed.

(** The whole scan and the last flush, in any mode. *)
Lemma scan_fold_tally hc output lines :
  forall st,
    let st1 := scan_fold hc output lines st in
    let st' := flush_block hc output (lineNum st1) st1 in
    let rs := records_from (currentCommandBlock st) (lineNum st) lines in
    keptCount (counts st') = keptCount (counts st) + length (survivors hc rs)
    /\ deletedCount (counts st')
       = deletedCount (counts st) + length (casualties hc rs)
    /\ cout (world st') = cout (world st) ++ announced hc output rs
    /\ lineNum st' = lineNum st + length lines.
Proof.
  induction lines as [|raw rest IH]; intros st.
  - cbn [scan_fold fold_left records_from length].
    destruct (flush_block_tally hc output (lineNum st) st)
      as (H1 & H2 & H3 & H4 & _).
    repeat split; try assumption. lia.
  - change (scan_fold hc output (raw :: rest) st)
      with (scan_fold hc output rest (scan_line hc output raw st)).
    specialize (IH (scan_line hc output raw st)).
    cbv zeta in IH |- *. destruct IH as (I1 & I2 & I3 & I4).
    rewrite I1, I2, I3, I4. clear I1 I2 I3 I4.
    cbn [records_from length]. unfold scan_line.
    destruct (historyEntryRegex_ (strip_cr raw)) as [ts|].
    + destruct (flush_block_tally hc output (S (lineNum st) - 1) st)
        as (H1 & H2 & H3 & H4 & H5).
      replace (S (lineNum st) - 1) with (lineNum st) in * by lia.
      cbn [counts world lineNum currentCommandBlock].
      rewrite H1, H2, H3, ScanRecords.survivors_app, ScanRecords.casualties_app,
        announced_app, !length_app.
      rewrite <- List.app_assoc. repeat split; lia.
    + destruct (Str.is_empty (currentCommandBlock st)) eqn:Ecur; cbn [negb].
      * cbn [counts world lineNum currentCommandBlock kept_incr keptCount
               deletedCount log_err cout].
        change (Preamble (strip_cr raw +:+ NL)
                  :: records_from (currentCommandBlock st) (S (lineNum st)) rest)
          with ([Preamble (strip_cr raw +:+ NL)]
                  ++ records_from (currentCommandBlock st) (S (lineNum st)) rest).
        rewrite ScanRecords.survivors_app, ScanRecords.casualties_app,
          announced_app, !length_app.
        assert (announced hc output [Preamble (strip_cr raw +:+ NL)] = []) as ->
          by (unfold announced; destruct output, (dryRun_ hc); reflexivity).
        cbn. repeat split; lia.
      * cbn [counts world lineNum currentCommandBlock].
        repeat split; lia.
Qed.

Lemma scan_lines_true E hc output lines :
  forall st0 st,
    scan_lines E hc output lines st0 = (true, st) ->
    st = scan_fold hc output lines st0.
Proof.
  induction lines as [|raw rest IH]; intros st0 st; cbn [scan_lines];
    destruct (interrupted_ hc); try discriminate;
    destruct (read_error_after E) as [k|];
    try destruct (k =? lineNum st0); try discriminate;
    try (intros H; injection H as <-; reflexivity);
    intros H; apply IH in H; exact H.
Qed.

Lemma partition_length hc rs :
  length (survivors hc rs) + length (casualties hc rs) = length rs.
Proof.
  unfold survivors, casualties. induction rs as [|r rs IH]; [reflexivity|].
  cbn [List.filter length]. destruct (deleted hc r); cbn [negb length]; lia.
Qed.

End Tally.

(** X6. The counters of the scan, in a dry run as in a mutating one: when the
    loop over the lines of the file ends without interruption or read error,
    then after the last pending block is decided the line counter is the
    number of lines read, the kept counter the number of records kept, the
    deleted counter the number of records to delete, and the two add up to
    the number of records. *)
Theorem scan_counts E hc output content w st :
  scan_lines E hc output (getlines content) (scan_start w) = (true, st) ->
  let st' := flush_block hc output (lineNum st) st in
  lineNum st' = length (getlines content)
  /\ keptCount (counts st') = length (survivors hc (records content))
  /\ deletedCount (counts st') = length (casualties hc (records content))
  /\ keptCount (counts st') + deletedCount (counts st')
     = length (records content).
Proof.
  intros Hscan. apply Tally.scan_lines_true in Hscan. subst st.
  destruct (Tally.scan_fold_tally hc output (getlines content) (scan_start w))
    as (H1 & H2 & _ & H4).
  cbv zeta. cbn [scan_start counts lineNum currentCommandBlock no_counts
                   keptCount deletedCount] in H1, H2, H4.
  fold (records content) in H1, H2.
  rewrite H1, H2, H4. repeat split; try lia.
  apply Tally.partition_length.
Qed.

Lemma scan_counts_witness :
  let st := snd (scan_lines sample_env sample_cleaner ToNull
                   (getlines sample_history) (scan_start sample_history_world)) in
  let st' := flush_block sample_cleaner ToNull (lineNum st) st in
  scan_lines sample_env sample_cleaner ToNull (getlines sample_history)
    (scan_start sample_history_world) = (true, st)
  /\ lineNum st' = 4
  /\ keptCount (counts st') = 2
  /\ deletedCount (counts st') = 1
  /\ lineNum st' = length (getlines sample_history)
  /\ keptCount (counts st')
     = length (survivors sample_cleaner (records sample_history))
  /\ deletedCount (counts st')
     = length (casualties sample_cleaner (records sample_history))
  /\ keptCount (counts st') + deletedCount (counts st')
     = length (records sample_history).
Proof.
  cbv zeta.
  assert (scan_lines sample_env sample_cleaner ToNull (getlines sample_history)
            (scan_start sample_history_world)
          = (true, snd (scan_lines sample_env sample_cleaner ToNull
                          (getlines sample_history)
                          (scan_start sample_history_world)))) as H
    by (vm_compute; reflexivity).
  split; [exact H|]. split; [vm_compute; reflexivity|].
  split; [vm_compute; reflexivity|]. split; [vm_compute; reflexivity|].
  exact (scan_counts sample_env sample_cleaner ToNull sample_history
           sample_history_world _ H).
Defined.

Module DryRun.

Lemma decide_set_dryRun b hc block :
  decide (set_dryRun b hc) block = decide hc block.
Proof.
  unfold decide, processCommandBlock.
  destruct (Str.find_char Str.LF block) as [i|]; [|reflexivity].
  destruct (historyEntryRegex_ (Str.take i block)) as [digits|]; [|reflexivity].
  destruct (stoll digits) as [ts| |]; try reflexivity.
  change (content_filters (set_dryRun b hc) (Str.take i block))
    with (content_filters hc (Str.take i block)).
  cbn [set_dryRun startTimestamp_ endTimestamp_].
  match goal with |- context [if ?c then _ else _] => destruct c end; reflexivity.
Qed.

Lemma casualties_set_dryRun b hc rs :
  casualties (set_dryRun b hc) rs = casualties hc rs.
Proof.
  unfold casualties. induction rs as [|r rs IH]; [reflexivity|].
  cbn [List.filter]. rewrite IH.
  destruct r as [raw|raw ln]; cbn [deleted]; [reflexivity|].
  now rewrite decide_set_dryRun.
Qed.

End DryRun.

(** X7. What a dry run prints on the standard output: for every record a
    mutating run with the same window and filters would delete, in the order
    of the file, the line number at which the record was decided and its
    text, and then the summary with the number of lines, of records kept and
    of records to delete; nothing else. *)
Theorem processHistory_dry_run_report E hc w content :
  dryRun_ hc = true ->
  interrupted_ hc = false ->
  read_open_fails E (effectiveHistoryFilePath_ hc) = false ->
  read_error_after E = None ->
  files w !! effectiveHistoryFilePath_ hc = Some (RegularFile content) ->
  let rs := records content in
  let gone := casualties (set_dryRun false hc) rs in
  fst (fst (processHistory E hc ToCout w)) = true
  /\ cout (snd (processHistory E hc ToCout w))
     = cout w ++ map report gone
         ++ [Summary (length (getlines content))
                     (length rs - length gone) (length gone)].
Proof.
  intros Hdry Hint Hopen Hread Hfile. cbv zeta.
  rewrite DryRun.casualties_set_dryRun.
  unfold processHistory, open_history. rewrite Hint, Hopen, Hfile.
  rewrite (ScanLoop.scan_lines_fold E hc ToCout _ _ Hint Hread), Hdry.
  cbn [fst snd log_out cout]. split; [reflexivity|].
  destruct (Tally.scan_fold_tally hc ToCout (getlines content) (scan_start w))
    as (H1 & H2 & H3 & H4).
  cbv zeta in H1, H2, H3, H4.
  cbn [scan_start counts lineNum currentCommandBlock no_counts world
         keptCount deletedCount] in H1, H2, H3, H4.
  fold (records content) in H1, H2, H3.
  rewrite H1, H2, H3, H4. unfold announced. rewrite Hdry.
  pose proof (Tally.partition_length hc (records content)) as Hp.
  replace (length (records content) - length (casualties hc (records content)))
    with (length (survivors hc (records content))) by lia.
  cbn [Nat.add]. now rewrite <- List.app_assoc.
Qed.

Lemma processHistory_dry_run_report_witness :
  let hc := set_dryRun true sample_cleaner in
  let w := sample_history_world in
  let rs := records sample_history in
  let gone := casualties (set_dryRun false hc) rs in
  dryRun_ hc = true
  /\ interrupted_ hc = false
  /\ read_open_fails sample_env (effectiveHistoryFilePath_ hc) = false
  /\ read_error_after sample_env = None
  /\ files w !! effectiveHistoryFilePath_ hc = Some (RegularFile sample_history)
  /\ gone = [Entry (": 150:0;ls -l" +:+ NL +:+ "continued" +:+ NL) 3]
  /\ fst (fst (processHistory sample_env hc ToCout w)) = true
  /\ cout (snd (processHistory sample_env hc ToCout w))
     = cout w ++ map report gone
         ++ [Summary (length (getlines sample_history))
                     (length rs - length gone) (length gone)].
Proof.
  cbv zeta.
  assert (files sample_history_world
            !! effectiveHistoryFilePath_ (set_dryRun true sample_cleaner)
          = Some (RegularFile sample_history)) as Hf by (vm_compute; reflexivity).
  split; [reflexivity|]. split; [reflexivity|]. split; [reflexivity|].
  split; [reflexivity|]. split; [exact Hf|]. split; [vm_compute; reflexivity|].
  exact (processHistory_dry_run_report sample_env
           (set_dryRun true sample_cleaner) sample_history_world sample_history
           eq_refl eq_refl eq_refl eq_refl Hf).
Defined.

(* ===================================================================== *)
(** * Header lines, their timestamps and the lines that follow them *)
(* ===================================================================== *)

Module Timestamp.
Import ScanFacts HeaderFacts.

Lemma digit_value_bounds c :
  is_digit c = true -> (0 <= digit_value c <= 9)%Z.
Proof.
  unfold is_digit, digit_value. intros H.
  apply andb_true_iff in H as [H1 H2]. apply Nat.leb_le in H1, H2. lia.
Qed.

Lemma digits_value_ge acc s :
  Str.forallb is_digit s = true -> (0 <= acc)%Z -> (acc <= digits_value acc s)%Z.
Proof.
  revert acc. induction s as [|c s IH]; intros acc Hd Hacc; cbn [digits_value].
  - lia.
  - cbn [Str.forallb] in Hd. apply andb_true_iff in Hd as [Hc Hs].
    pose proof (digit_value_bounds c Hc).
    specialize (IH (10 * acc + digit_value c)%Z Hs). lia.
Qed.

Lemma digit_not_sign c s r :
  is_digit c = true -> Str.expect r (String c s) = None \/ is_digit r = true.
Proof.
  intros Hc. cbn [Str.expect].
  destruct (Ascii.eqb_spec c r) as [<- | _]; [now right | now left].
Qed.

(** [std::stoll] on a non-empty string of digits. *)
Lemma stoll_digits ds :
  Str.forallb is_digit ds = true -> ds <> "" ->
  stoll ds = if (digits_value 0 ds <=? LLONG_MAX)%Z
             then StollValue (digits_value 0 ds) else StollOutOfRange.
Proof.
  intros Hd Hne. unfold stoll.
  assert (Str.erase_leading is_space ds = ds) as ->.
  { change ds with ("" +:+ ds) at 1. apply erase_leading_app; [reflexivity|].
    rewrite <- (StrFacts.sapp_nil_r ds).
    apply starts_outside_digits; auto using digit_not_space. }
  assert (Str.expect "-" ds = None) as ->.
  { destruct ds as [|c s]; [congruence|]. cbn [Str.forallb] in Hd.
    apply andb_true_iff in Hd as [Hc _].
    destruct (digit_not_sign c s "-" Hc) as [H|H]; [exact H | discriminate H]. }
  assert (Str.expect "+" ds = None) as ->.
  { destruct ds as [|c s]; [congruence|]. cbn [Str.forallb] in Hd.
    apply andb_true_iff in Hd as [Hc _].
    destruct (digit_not_sign c s "+" Hc) as [H|H]; [exact H | discriminate H]. }
  assert (Str.span is_digit ds = (ds, "")) as ->.
  { rewrite <- (StrFacts.sapp_nil_r ds) at 1. apply span_app; [exact Hd | exact I]. }
  apply is_empty_false in Hne. rewrite Hne.
  pose proof (digits_value_ge 0 ds Hd ltac:(lia)) as Hge.
  assert ((LLONG_MIN <=? digits_value 0 ds)%Z = true) as ->
    by (apply Z.leb_le; unfold LLONG_MIN; lia).
  reflexivity.
Qed.

Lemma first_line first more :
  no_LF first ->
  Str.find_char Str.LF (first +:+ NL +:+ more) = Some (String.length first)
  /\ Str.take (String.length first) (first +:+ NL +:+ more) = first.
Proof.
  intros Hf. split.
  - apply find_char_app. exact Hf.
  - apply take_app.
Qed.

End Timestamp.

(** X8. The header expression and its grammar: a line matches
    [^\s*:\s*(\d+):\d+\s*;.*$] with capture group [ts] exactly when it is
    white space, a colon, white space, the non-empty digits [ts], a colon,
    non-empty digits, white space, a semicolon and then characters none of
    which is a carriage return or a line feed. *)
Theorem historyEntryRegex_grammar line ts :
  historyEntryRegex_ line = Some ts <-> exists rest, header_line line ts rest.
Proof.
  split.
  - apply HeaderFacts.historyEntryRegex_sound.
  - intros [rest H]. exact (HeaderFacts.historyEntryRegex_complete _ _ _ H).
Qed.

(** X9. The digits of a header line are never an invalid argument for
    [std::stoll] and never read as a negative number: the conversion gives
    their decimal value when that is at most [LLONG_MAX] and is out of range
    otherwise, so the warning on an invalid timestamp format cannot be
    reached from a header line. *)
Theorem header_digits_stoll line ds :
  historyEntryRegex_ line = Some ds ->
  (0 <= digits_value 0 ds)%Z
  /\ stoll ds <> StollInvalid
  /\ ((digits_value 0 ds <= LLONG_MAX)%Z ->
      stoll ds = StollValue (digits_value 0 ds))
  /\ ((LLONG_MAX < digits_value 0 ds)%Z -> stoll ds = StollOutOfRange).
Proof.
  intros H. apply HeaderFacts.historyEntryRegex_sound in H as [rest H].
  destruct H as (ws1 & ws2 & dur & ws3 & _ & _ & _ & Hts & Hne & _).
  pose proof (Timestamp.digits_value_ge 0 ds Hts ltac:(lia)) as Hge.
  rewrite (Timestamp.stoll_digits ds Hts Hne).
  split; [exact Hge|]. split; [|split]; intros Hle.
  - destruct (digits_value 0 ds <=? LLONG_MAX)%Z; discriminate.
  - apply Z.leb_le in Hle. now rewrite Hle.
  - apply Z.leb_gt in Hle. now rewrite Hle.
Qed.

Lemma header_digits_stoll_witness :
  historyEntryRegex_ ": 9223372036854775808:0;ls" = Some "9223372036854775808"
  /\ stoll "9223372036854775808" = StollOutOfRange
  /\ (0 <= digits_value 0 "9223372036854775808")%Z
  /\ stoll "9223372036854775808" <> StollInvalid
  /\ ((digits_value 0 "9223372036854775808" <= LLONG_MAX)%Z ->
      stoll "9223372036854775808"
      = StollValue (digits_value 0 "9223372036854775808"))
  /\ ((LLONG_MAX < digits_value 0 "9223372036854775808")%Z ->
      stoll "9223372036854775808" = StollOutOfRange).
Proof.
  split; [reflexivity|]. split; [reflexivity|].
  exact (header_digits_stoll ": 9223372036854775808:0;ls" "9223372036854775808"
           eq_refl).
Defined.

(** X10. The decision on a block reads its first line only: the lines of a
    multi-line command that follow the header line change neither the
    timestamp nor the text the content filters see, so the block is deleted
    exactly when its header line alone would be. *)
Theorem processCommandBlock_first_line hc first more ln output c w :
  no_LF first ->
  fst (fst (processCommandBlock hc (first +:+ NL +:+ more) ln output c w))
  = fst (fst (processCommandBlock hc (first +:+ NL) ln output c w))
  /\ snd (fst (processCommandBlock hc (first +:+ NL +:+ more) ln output c w))
     = snd (fst (processCommandBlock hc (first +:+ NL) ln output c w)).
Proof.
  intros Hf.
  destruct (Timestamp.first_line first more Hf) as [H1 H2].
  destruct (Timestamp.first_line first "" Hf) as [H3 H4].
  rewrite StrFacts.sapp_nil_r in H3, H4.
  unfold processCommandBlock. rewrite H1, H2, H3, H4.
  destruct (historyEntryRegex_ first) as [digits|]; [|split; reflexivity].
  destruct (stoll digits) as [ts| |]; try (split; reflexivity).
  match goal with |- context [if ?b then _ else _] => destruct b end;
    split; reflexivity.
Qed.

Lemma processCommandBlock_first_line_witness :
  let first := ": 150:0;ls -l \" in
  let more := "/tmp" +:+ NL in
  no_LF first
  /\ fst (fst (processCommandBlock sample_cleaner (first +:+ NL +:+ more) 2
                 ToNull no_counts sample_world)) = true
  /\ fst (fst (processCommandBlock sample_cleaner (first +:+ NL +:+ more) 2
                 ToNull no_counts sample_world))
     = fst (fst (processCommandBlock sample_cleaner (first +:+ NL) 2
                   ToNull no_counts sample_world))
  /\ snd (fst (processCommandBlock sample_cleaner (first +:+ NL +:+ more) 2
                 ToNull no_counts sample_world))
     = snd (fst (processCommandBlock sample_cleaner (first +:+ NL) 2
                   ToNull no_counts sample_world)).
Proof.
  cbv zeta. split; [reflexivity|]. split; [reflexivity|].
  exact (processCommandBlock_first_line sample_cleaner ": 150:0;ls -l \"
           ("/tmp" +:+ NL) 2 ToNull no_counts sample_world eq_refl).
Defined.

(* ===================================================================== *)
(** * Failures before the erase *)
(* ===================================================================== *)

Module Abort.
Import CommitFacts EraseFacts.





End Abort.



(* ===================================================================== *)
(** * What a reported success means *)
(* ===================================================================== *)

Module Success.
Import CommitFacts EraseFacts.





End Success.



(* ===================================================================== *)
(** * A read error during the scan *)
(* ===================================================================== *)

Module ReadError.

Lemma lineNum_scan_line hc output raw st :
  lineNum (scan_line hc output raw st) = S (lineNum st).
Proof.
  unfold scan_line. destruct (historyEntryRegex_ (strip_cr raw)); [reflexivity|].
  destruct (negb (Str.is_empty (currentCommandBlock st))); reflexivity.
Qed.

(** The loop gives up at the read that fails, with the number of the lines
    read so far in its message. *)
Lemma scan_lines_read_error E hc output k lines :
  interrupted_ hc = false ->
  read_error_after E = Some k ->
  forall st,
    lineNum st <= k <= lineNum st + length lines ->
    fst (scan_lines E hc output lines st) = false
    /\ exists pre,
         cerr (world (snd (scan_lines E hc output lines st)))
         = pre ++ [SayLine "Error reading history file" k].
Proof.
  intros Hint Hk. induction lines as [|raw rest IH]; intros st Hle;
    cbn [scan_lines]; rewrite Hint, Hk.
  - cbn [length] in Hle. assert (k = lineNum st) as -> by lia.
    rewrite Nat.eqb_refl. cbn. split; [reflexivity|]. now eexists.
  - destruct (Nat.eqb_spec k (lineNum st)) as [-> | Hne].
    + cbn. split; [reflexivity|]. now eexists.
    + apply IH. rewrite lineNum_scan_line. cbn [length] in Hle. lia.
Qed.

End ReadError.

(** X13. A read error during the scan, in a dry run as in a mutating one:
    when reading fails after [k] lines of the file, the run returns false
    with a message naming [k]; the file system is as it was (no temporary
    file, no overwrite, the history file untouched), and the cleaner
    registers nothing, whatever the lines read before the error would have
    kept or deleted. *)
Theorem processHistory_read_error E hc output w content k :
  interrupted_ hc = false ->
  read_open_fails E (effectiveHistoryFilePath_ hc) = false ->
  files w !! effectiveHistoryFilePath_ hc = Some (RegularFile content) ->
  read_error_after E = Some k ->
  k <= length (getlines content) ->
  let r := processHistory E hc output w in
  fst (fst r) = false
  /\ snd (fst r) = hc
  /\ same_disk w (snd r)
  /\ exists pre, cerr (snd r) = pre ++ [SayLine "Error reading history file" k].
Proof.
  intros Hint Hopen Hfile Hk Hle. cbv zeta.
  unfold processHistory, open_history. rewrite Hint, Hopen, Hfile.
  pose proof (Frame.scan_lines_same_disk E hc output (getlines content)
                (scan_start w)) as Hscan.
  destruct (ReadError.scan_lines_read_error E hc output k (getlines content)
              Hint Hk (scan_start w)) as (Hf & pre & Hpre).
  { cbn [scan_start lineNum]. lia. }
  destruct (scan_lines E hc output (getlines content) (scan_start w))
    as [[] st]; [discriminate Hf|].
  cbn [fst snd] in *. repeat split; try apply Hscan. now exists pre.
Qed.

Lemma processHistory_read_error_witness :
  let r := processHistory read_blocked_env sample_cleaner ToNull
             sample_history_world in
  interrupted_ sample_cleaner = false
  /\ read_open_fails read_blocked_env (effectiveHistoryFilePath_ sample_cleaner)
     = false
  /\ files sample_history_world !! effectiveHistoryFilePath_ sample_cleaner
     = Some (RegularFile sample_history)
  /\ read_error_after read_blocked_env = Some 1
  /\ 1 <= length (getlines sample_history)
  /\ fst (fst r) = false
  /\ snd (fst r) = sample_cleaner
  /\ same_disk sample_history_world (snd r)
  /\ exists pre, cerr (snd r) = pre ++ [SayLine "Error reading history file" 1].
Proof.
  cbv zeta.
  assert (files sample_history_world !! effectiveHistoryFilePath_ sample_cleaner
          = Some (RegularFile sample_history)) as Hf by (vm_compute; reflexivity).
  assert (1 <= length (getlines sample_history)) as Hl by (vm_compute; lia).
  split; [reflexivity|]. split; [reflexivity|]. split; [exact Hf|].
  split; [reflexivity|]. split; [exact Hl|].
  exact (processHistory_read_error read_blocked_env sample_cleaner ToNull
           sample_history_world sample_history 1 eq_refl eq_refl Hf eq_refl Hl).
Defined.

(* ===================================================================== *)
(** * The time window of the modes *)
(* ===================================================================== *)

Module Window.

Lemma int_wrap_small z :
  (- 2 ^ 31 <= z < 2 ^ 31)%Z -> int_wrap z = z.
Proof.
  intros H. unfold int_wrap.
  rewrite Z.mod_small by lia. lia.
Qed.

Lemma try_formats_Ok L s precise formats :
  forall idx e,
    try_formats L s precise idx formats = Ok e ->
    exists j f t rest,
      nth_error formats j = Some f
      /\ strptime L s f = Some (t, rest)
      /\ Str.erase_leading is_space rest = ""
      /\ ((idx + j =? 2) && precise = false)
      /\ e <> (-1)%Z.
Proof.
  induction formats as [|f fs IH]; intros idx e; cbn [try_formats];
    [discriminate|].
  unfold try_format.
  destruct (strptime L s f) as [[t rest]|] eqn:Ep.
  - destruct (Str.erase_leading is_space rest) as [|c r] eqn:Er; cbn [Str.is_empty negb].
    + destruct ((idx =? 2) && precise) eqn:Ed; [discriminate|].
      match goal with
      | |- context [(?x =? -1)%Z] => destruct (Z.eqb_spec x (-1))
      end; [discriminate|].
      intros H. injection H as <-.
      exists 0, f, t, rest. rewrite Nat.add_0_r. repeat split; assumption.
    + intros H. apply IH in H as (j & f' & t' & rest' & H1 & H2 & H3 & H4 & H5).
      exists (S j), f', t', rest'. replace (idx + S j) with (S idx + j) by lia.
      repeat split; assumption.
  - intros H. apply IH in H as (j & f' & t' & rest' & H1 & H2 & H3 & H4 & H5).
    exists (S j), f', t', rest'. replace (idx + S j) with (S idx + j) by lia.
    repeat split; assumption.
Qed.

(** The timestamp read from a header line is not negative and not beyond
    the last instant of [time_t]. *)
Lemma header_digits_bounds line ds :
  historyEntryRegex_ line = Some ds ->
  forall ts, stoll ds = StollValue ts -> (0 <= ts <= TIME_T_MAX)%Z.
Proof.
  intros H ts. apply HeaderFacts.historyEntryRegex_sound in H as [rest H].
  destruct H as (ws1 & ws2 & dur & ws3 & _ & _ & _ & Hts & Hne & _).
  pose proof (Timestamp.digits_value_ge 0 ds Hts ltac:(lia)) as Hge.
  rewrite (Timestamp.stoll_digits ds Hts Hne).
  destruct (Z.leb_spec (digits_value 0 ds) LLONG_MAX) as [Hle|]; [|discriminate].
  intros E. injection E as <-. unfold TIME_T_MAX, LLONG_MAX in *. lia.
Qed.

End Window.

(** X14. The modes counted in days: for a number of days from 0 to 24855,
    for which the seconds fit the [int] they are computed in, "older than"
    gives the window from 0 to the current time minus that many days, and
    "newer than" the window from that same instant on, without upper end, so
    that an entry stamped at exactly that instant falls in both. *)
Theorem calculateTimestamps_days L hc :
  (0 <= olderThanDays_ hc <= 24855)%Z ->
  let cut := (nowEpoch L - olderThanDays_ hc * 86400)%Z in
  (mode_ hc = OLDER_THAN ->
   calculateTimestamps L hc = Ok (set_window 0 cut hc))
  /\ (mode_ hc = NEWER_THAN ->
      calculateTimestamps L hc = Ok (set_window cut TIME_T_MAX hc)).
Proof.
  intros Hd. cbv zeta. unfold calculateTimestamps.
  rewrite Window.int_wrap_small by lia.
  replace (olderThanDays_ hc * 24 * 60 * 60)%Z
    with (olderThanDays_ hc * 86400)%Z by lia.
  split; intros ->; reflexivity.
Qed.

Lemma calculateTimestamps_days_witness :
  (0 <= olderThanDays_ (days_cleaner OLDER_THAN 24855) <= 24855)%Z
  /\ calculateTimestamps sample_libc (days_cleaner OLDER_THAN 24855)
     = Ok (set_window 0 (1704100000 - 2147472000) (days_cleaner OLDER_THAN 24855))
  /\ ((mode_ (days_cleaner OLDER_THAN 24855) = OLDER_THAN ->
       calculateTimestamps sample_libc (days_cleaner OLDER_THAN 24855)
       = Ok (set_window 0
               (nowEpoch sample_libc
                - olderThanDays_ (days_cleaner OLDER_THAN 24855) * 86400)
               (days_cleaner OLDER_THAN 24855)))
      /\ (mode_ (days_cleaner OLDER_THAN 24855) = NEWER_THAN ->
          calculateTimestamps sample_libc (days_cleaner OLDER_THAN 24855)
          = Ok (set_window
                  (nowEpoch sample_libc
                   - olderThanDays_ (days_cleaner OLDER_THAN 24855) * 86400)
                  TIME_T_MAX (days_cleaner OLDER_THAN 24855)))).
Proof.
  assert (0 <= olderThanDays_ (days_cleaner OLDER_THAN 24855) <= 24855)%Z as H
    by (simpl; lia).
  split; [exact H|]. split; [reflexivity|].
  exact (calculateTimestamps_days sample_libc (days_cleaner OLDER_THAN 24855) H).
Defined.

(** X15. The computation of the window changes the two ends of the window
    and nothing else of the cleaner (mode, paths, flags, passes and filters
    stay), it fails for the unset mode, and in the modes "today", "last 7
    days", "last 30 days", "after", "newer than" and "all time" the window
    has no upper end. *)
Theorem calculateTimestamps_frame L hc hc' :
  calculateTimestamps L hc = Ok hc' ->
  hc' = set_window (startTimestamp_ hc') (endTimestamp_ hc') hc
  /\ mode_ hc <> NONE
  /\ (open_ended (mode_ hc) = true -> endTimestamp_ hc' = TIME_T_MAX).
Proof.
  unfold calculateTimestamps.
  destruct (mode_ hc) eqn:Hm; cbn [open_ended];
    repeat match goal with
           | |- context [dateToEpoch L ?s ?p] => destruct (dateToEpoch L s p)
           | |- context [if ?b then _ else _] => destruct b
           end;
    try discriminate;
    intros H; injection H as <-; repeat split; try discriminate.
Qed.

Lemma calculateTimestamps_frame_witness :
  let hc := days_cleaner ALL_TIME 0 in
  let hc' := set_window 0 TIME_T_MAX hc in
  calculateTimestamps sample_libc hc = Ok hc'
  /\ hc' = set_window (startTimestamp_ hc') (endTimestamp_ hc') hc
  /\ mode_ hc <> NONE
  /\ (open_ended (mode_ hc) = true -> endTimestamp_ hc' = TIME_T_MAX).
Proof.
  cbv zeta. split; [reflexivity|].
  exact (calculateTimestamps_frame sample_libc (days_cleaner ALL_TIME 0) _ eq_refl).
Defined.

(** X16. A date the conversion accepts: the result is never -1 (the instant
    one second before the epoch is refused as a failed conversion), it comes
    from one of the three formats, which parsed the text up to trailing white
    space, and with the precise flag that format is not the date-only
    one. *)
Theorem dateToEpoch_Ok L s precise e :
  dateToEpoch L s precise = Ok e ->
  e <> (-1)%Z
  /\ exists j f t rest,
       nth_error date_formats j = Some f
       /\ strptime L s f = Some (t, rest)
       /\ Str.erase_leading is_space rest = ""
       /\ (precise = true -> j < 2).
Proof.
  unfold dateToEpoch. intros H.
  apply Window.try_formats_Ok in H as (j & f & t & rest & H1 & H2 & H3 & H4 & H5).
  split; [exact H5|]. exists j, f, t, rest. repeat split; try assumption.
  intros ->. cbn [Nat.add] in H4. rewrite andb_true_r in H4.
  apply Nat.eqb_neq in H4.
  assert (j < length date_formats) as Hj
    by (apply nth_error_Some; rewrite H1; discriminate).
  cbn [date_formats length] in Hj. lia.
Qed.

Lemma dateToEpoch_Ok_witness :
  dateToEpoch sample_libc "2024-01-01 00:00:00" true = Ok 1704067200%Z
  /\ 1704067200%Z <> (-1)%Z
  /\ exists j f t rest,
       nth_error date_formats j = Some f
       /\ strptime sample_libc "2024-01-01 00:00:00" f = Some (t, rest)
       /\ Str.erase_leading is_space rest = ""
       /\ (true = true -> j < 2).
Proof.
  split; [reflexivity|].
  exact (dateToEpoch_Ok sample_libc "2024-01-01 00:00:00" true 1704067200 eq_refl).
Defined.

(** X17. The mode "all time" without content filter deletes exactly the
    records that can be dated: a block is deleted when, and only when, its
    first line is a header line whose digits [std::stoll] reads; no
    timestamp of a header line lies outside the window. *)
Theorem all_time_deletes_dated L hc hc' block ln output c w :
  mode_ hc = ALL_TIME ->
  filterKeywords_ hc = [] ->
  filterRegexes_ hc = [] ->
  calculateTimestamps L hc = Ok hc' ->
  fst (fst (processCommandBlock hc' block ln output c w)) = true
  <-> header_timestamp block <> None.
Proof.
  intros Hm Hk Hr Hcalc. unfold calculateTimestamps in Hcalc.
  rewrite Hm in Hcalc. injection Hcalc as <-.
  unfold processCommandBlock, header_timestamp.
  destruct (Str.find_char Str.LF block) as [i|]; [|cbn; split; congruence].
  destruct (historyEntryRegex_ (Str.take i block)) as [digits|] eqn:Eh;
    [|cbn; split; congruence].
  pose proof (Window.header_digits_bounds (Str.take i block) digits Eh) as Hst.
  destruct (stoll digits) as [ts| |] eqn:Es; try (cbn; split; congruence).
  destruct (Hst ts eq_refl) as [H0 Hmax].
  apply HeaderFacts.historyEntryRegex_sound in Eh as [rest Hh].
  destruct (HeaderFacts.header_command _ _ _ Hh) as (j & Hj & _).
  unfold content_filters. rewrite Hj.
  cbn [set_window startTimestamp_ endTimestamp_ filterKeywords_ filterRegexes_].
  rewrite Hk, Hr. cbn [is_nil andb].
  assert ((0 <=? ts)%Z = true) as -> by (apply Z.leb_le; lia).
  assert ((ts <=? TIME_T_MAX)%Z = true) as -> by (apply Z.leb_le; exact Hmax).
  cbn. split; congruence.
Qed.

Lemma all_time_deletes_dated_witness :
  let hc := days_cleaner ALL_TIME 0 in
  let hc' := set_window 0 TIME_T_MAX hc in
  let block := ": 150:0;ls -l" +:+ NL in
  mode_ hc = ALL_TIME
  /\ filterKeywords_ hc = []
  /\ filterRegexes_ hc = []
  /\ calculateTimestamps sample_libc hc = Ok hc'
  /\ header_timestamp block = Some 150%Z
  /\ (fst (fst (processCommandBlock hc' block 1 ToNull no_counts sample_world))
      = true
      <-> header_timestamp block <> None).
Proof.
  cbv zeta. split; [reflexivity|]. split; [reflexivity|]. split; [reflexivity|].
  split; [reflexivity|]. split; [reflexivity|].
  exact (all_time_deletes_dated sample_libc (days_cleaner ALL_TIME 0) _
           (": 150:0;ls -l" +:+ NL) 1 ToNull no_counts sample_world
           eq_refl eq_refl eq_refl eq_refl).
Defined.

(* ===================================================================== *)
(** * The command line: what the parser guarantees *)
(* ===================================================================== *)

Module Parse.

Lemma stoi_range s z :
  stoi s = StollValue z -> (INT_MIN <= z <= INT_MAX)%Z.
Proof.
  unfold stoi.
  destruct (match Str.expect "-" (Str.erase_leading is_space s),
                  Str.expect "+" (Str.erase_leading is_space s) with
            | Some r, _ => (true, r)
            | None, Some r => (false, r)
            | None, None => (false, Str.erase_leading is_space s)
            end) as [neg s2].
  destruct (Str.span is_digit s2) as [ds tl].
  destruct (Str.is_empty ds); [discriminate|].
  match goal with
  | |- context [if ?b then _ else _] => destruct b eqn:Eb
  end; [|discriminate].
  intros H. injection H as <-.
  apply andb_true_iff in Eb as [H1 H2].
  apply Z.leb_le in H1, H2. lia.
Qed.

Section Loop.

Variable compile : string -> option regex.
Variable I : Cli -> bool -> Prop.

Hypothesis I_keyword :
  forall c k, I c true -> I (on_members (push_keyword k) c) true.
Hypothesis I_regex :
  forall c s r, compile s = Some r -> I c true -> I (push_regexStr s r c) true.
Hypothesis I_mode :
  forall c has m, I c has -> I (on_members (set_mode m) c) true.
Hypothesis I_precise :
  forall c has, I c has -> I (on_members (set_precise true) c) has.
Hypothesis I_startDate :
  forall c has v, I c has -> I (on_members (set_startDate v) c) true.
Hypothesis I_endDate :
  forall c has v, I c has -> I (on_members (set_endDate v) c) true.
Hypothesis I_date :
  forall c has v, I c has -> I (on_members (set_date v) c) true.
Hypothesis I_backup :
  forall c has, I c has -> I (on_members (set_doBackup true) c) true.
Hypothesis I_dryRun :
  forall c has, I c has -> I (on_members (set_dryRun true) c) true.
Hypothesis I_histfile :
  forall c has v, I c has -> I (set_historyFilePath v c) has.
Hypothesis I_values :
  forall c has, I c has -> I c true.
Hypothesis I_days :
  forall c has d, (0 < d <= INT_MAX)%Z -> I c has ->
                  I (on_members (set_days d) c) true.
Hypothesis I_passes :
  forall c has n, (0 < n <= INT_MAX)%Z -> I c has ->
                  I (on_members (set_passes n) c) true.

(** A property every branch of the loop preserves holds when the loop
    ends. *)
Lemma parse_args_invariant n :
  forall args col c has c' has',
    length args <= n ->
    (col <> NoValues -> has = true) ->
    I c has ->
    parse_args compile col args c has = Continue (c', has') ->
    I c' has'.
Proof.
  induction n as [|n IH]; intros args col c has c' has' Hlen Hcol Hinv;
    destruct args as [|arg rest]; cbn [length] in Hlen; try lia;
    cbn [parse_args];
    try (intros H; injection H as <- <-; exact Hinv).
  assert (col = NoValues \/ has = true) as Hhas
    by (destruct col; [now left | right; apply Hcol; discriminate ..]).
  clear Hcol.
  destruct col; destruct (starts_with_dash arg) eqn:Edash;
    try (destruct Hhas as [Hx | ->]; [discriminate Hx|]);
    repeat match goal with
           | |- context [if ?b then _ else _] => destruct b eqn:?
           | |- context [match ?x with _ => _ end] => destruct x eqn:?
           end;
    try discriminate;
    repeat match goal with
           | H : stoi _ = StollValue _ |- _ => apply stoi_range in H
           | H : (_ <=? _)%Z = false |- _ => apply Z.leb_gt in H
           end;
    intros H;
    (refine (IH _ _ _ _ _ _ _ _ _ H);
     [ cbn [length] in *; lia
     | first [ congruence | intros _; reflexivity ]
     | first [ now apply I_keyword
             | now apply I_regex
             | now apply (I_mode _ _ _ Hinv)
             | now apply I_precise
             | now apply (I_startDate _ _ _ Hinv)
             | now apply (I_endDate _ _ _ Hinv)
             | now apply (I_date _ _ _ Hinv)
             | now apply (I_backup _ _ Hinv)
             | now apply (I_dryRun _ _ Hinv)
             | now apply I_histfile
             | now apply (I_values _ _ Hinv)
             | eapply I_days; [lia | exact Hinv]
             | eapply I_passes; [lia | exact Hinv] ] ]).
Qed.

End Loop.

End Parse.

Module ParseFacts.

Ltac plausible_step :=
  unfold plausible in *;
  cbn [on_members members filterRegexStrs_ push_regexStr set_historyFilePath
       set_interactive
       push_keyword push_regex set_mode set_precise set_startDate set_endDate
       set_date set_days set_passes set_doBackup set_dryRun with_options
       shredPasses_ olderThanDays_ filterRegexes_ tempFilePath_ backupFilePath_];
  rewrite ?length_app; cbn [length];
  intuition (try lia; try congruence).

Lemma plausible_initial p :
  plausible (set_interactive true (set_historyFilePath p initial_cli)).
Proof.
  unfold plausible. cbn. unfold INT_MAX, SHRED_PASSES.
  intuition (try lia; try congruence).
Qed.

(** The loop keeps the members plausible. *)
Lemma parse_args_plausible compile args col c has c' has' :
  (col <> NoValues -> has = true) ->
  plausible c ->
  parse_args compile col args c has = Continue (c', has') ->
  plausible c'.
Proof.
  intros Hcol Hp Hrun.
  refine (Parse.parse_args_invariant compile (fun c _ => plausible c)
            _ _ _ _ _ _ _ _ _ _ _ _ _ (length args) args col c has c' has'
            (le_n _) Hcol Hp Hrun);
    clear; intros; plausible_step.
Qed.

Lemma validate_frame c c' notes :
  validate c = Continue (c', notes) ->
  interactive_ c' = interactive_ c
  /\ historyFilePath_ c' = historyFilePath_ c
  /\ filterRegexStrs_ c' = filterRegexStrs_ c
  /\ (plausible c -> plausible c')
  /\ (members c' = members c \/ members c' = set_doBackup false (members c)).
Proof.
  unfold validate.
  destruct (match mode_ (members c) with NONE => true | _ => false end);
    [discriminate|].
  match goal with
  | |- context [match ?chk with Continue _ => _ | Exited _ _ => _ end] =>
      destruct chk as [ns|]; [|discriminate]
  end.
  destruct (dryRun_ (members c) && doBackup_ (members c)); intros H;
    injection H as <- <-; cbn [on_members interactive_ historyFilePath_
                                 filterRegexStrs_ members];
    (split; [reflexivity|]); (split; [reflexivity|]); (split; [reflexivity|]);
    (split; [intros Hp; plausible_step | first [now left | now right]]).
Qed.

Lemma nonempty_false s : nonempty s = false -> s = "".
Proof. destruct s; [reflexivity | discriminate]. Qed.

Lemma validate_validated c c' notes :
  validate c = Continue (c', notes) -> validated (members c').
Proof.
  unfold validate.
  destruct (mode_ (members c)) eqn:Hm; try discriminate;
    repeat match goal with
           | |- context [if ?b then _ else _] => destruct b eqn:?
           end;
    try discriminate; intros H; injection H as <- <-;
    unfold validated;
    cbn [on_members members set_doBackup mode_ startDateStr_ endDateStr_
         specificDateStr_ olderThanDays_ preciseTime_ dryRun_ doBackup_];
    rewrite ?Hm;
    repeat match goal with
           | H : _ || _ = false |- _ => apply orb_false_iff in H as [? ?]
           | H : _ && _ = false |- _ => apply andb_false_iff in H
           | H : _ && _ = true |- _ => apply andb_true_iff in H as [? ?]
           | H : nonempty _ = false |- _ => apply nonempty_false in H
           | H : Str.is_empty _ = false |- _ => apply ScanFacts.is_empty_false in H
           | H : (_ <=? _)%Z = false |- _ => apply Z.leb_gt in H
           end;
    repeat split; try congruence; try discriminate; try assumption;
    try (intros [E|[E|E]]; discriminate E);
    try (intros [E|[E|E]]; assumption);
    try (intros Hd; destruct (doBackup_ (members c)); [|reflexivity];
         intuition congruence).
Qed.

(** Every command line the parser accepts leaves the members plausible. *)
Lemma parseArguments_plausible getenv compile args c notes :
  parseArguments getenv compile args initial_cli = Continue (c, notes) ->
  plausible c.
Proof.
  unfold parseArguments.
  destruct (default_histfile getenv) as [p ns].
  destruct (parse_args compile NoValues args
              (set_interactive true (set_historyFilePath p initial_cli)) false)
    as [[c2 has]|] eqn:Erun; [|discriminate].
  apply parse_args_plausible in Erun;
    [| congruence | apply plausible_initial].
  destruct has.
  - destruct (validate (set_interactive (negb true) c2)) as [[c4 ns']|] eqn:Ev;
      [|discriminate].
    intros H. injection H as <- <-.
    apply validate_frame in Ev as (_ & _ & _ & Hp & _). apply Hp.
    revert Erun. clear. plausible_step.
  - intros H. injection H as <- <-. revert Erun. clear. plausible_step.
Qed.

End ParseFacts.

(** X18. What an accepted command line guarantees.  After [parseArguments]
    returns, the number of passes is an [int] of at least 1, the number of
    days is the initial -1 or a positive [int], and every compiled
    expression has its source text; when the run is not interactive, a mode
    is set, "between" has both dates, "specific_day", "before" and "after"
    have their date, "older_than" has a positive number of days and neither
    a date nor the precise flag, and a dry run makes no backup. *)
Theorem parseArguments_validated getenv compile args c notes :
  parseArguments getenv compile args initial_cli = Continue (c, notes) ->
  plausible c /\ (interactive_ c = false -> validated (members c)).
Proof.
  intros Hrun. split; [exact (ParseFacts.parseArguments_plausible _ _ _ _ _ Hrun)|].
  revert Hrun. unfold parseArguments.
  destruct (default_histfile getenv) as [p ns].
  destruct (parse_args compile NoValues args
              (set_interactive true (set_historyFilePath p initial_cli)) false)
    as [[c2 has]|]; [|discriminate].
  destruct has.
  - destruct (validate (set_interactive (negb true) c2)) as [[c4 ns']|] eqn:Ev;
      [|discriminate].
    intros H. injection H as <- <-. intros _.
    exact (ParseFacts.validate_validated _ _ _ Ev).
  - intros H. injection H as <- <-. discriminate.
Qed.

Lemma parseArguments_validated_witness :
  let args := ["--mode"; "older_than"; "--days"; "30"; "--dry-run"; "--backup";
               "--keyword"; "ls"; "rm"; "--passes"; "3"] in
  let r := parseArguments sample_getenv sample_compile args initial_cli in
  exists c notes,
    r = Continue (c, notes)
    /\ historyFilePath_ c = "/home/u/.zsh_history"
    /\ mode_ (members c) = OLDER_THAN
    /\ olderThanDays_ (members c) = 30%Z
    /\ shredPasses_ (members c) = 3%Z
    /\ filterKeywords_ (members c) = ["ls"; "rm"]
    /\ doBackup_ (members c) = false
    /\ plausible c /\ (interactive_ c = false -> validated (members c)).
Proof.
  cbv zeta.
  destruct (parseArguments sample_getenv sample_compile
              ["--mode"; "older_than"; "--days"; "30"; "--dry-run"; "--backup";
               "--keyword"; "ls"; "rm"; "--passes"; "3"] initial_cli)
    as [[c notes]|] eqn:E; [|vm_compute in E; discriminate E].
  exists c, notes.
  pose proof (parseArguments_validated _ _ _ _ _ E) as H.
  vm_compute in E. injection E as <- <-.
  split; [reflexivity|]. split; [reflexivity|]. split; [reflexivity|].
  split; [reflexivity|]. split; [reflexivity|]. split; [reflexivity|].
  split; [reflexivity|]. exact H.
Defined.

Module Interactive.

Lemma parse_args_untouched compile args c has c' has' :
  untouched_members c has ->
  parse_args compile NoValues args c has = Continue (c', has') ->
  untouched_members c' has'.
Proof.
  intros Hu Hrun.
  refine (Parse.parse_args_invariant compile untouched_members
            _ _ _ _ _ _ _ _ _ _ _ _ _ (length args) args NoValues c has c' has'
            (le_n _) _ Hu Hrun);
    clear; unfold untouched_members; try (intros; discriminate);
    try congruence.
  - intros c has H Hhas. destruct (H Hhas) as [[p Hp] Hr].
    split; [|exact Hr]. exists true.
    cbn [on_members members]. rewrite Hp. reflexivity.
  - intros c has v H Hhas. exact (H Hhas).
Qed.

End Interactive.

(** X19. A command line that leaves the run interactive has set nothing but
    the precise flag and the path of the history file: when
    [parseArguments] returns with the interactive flag set, no mode, date,
    number of days, number of passes, filter, backup or dry-run flag was
    taken from the command line; the members are the initial ones, but for
    the precise flag. *)
Theorem parseArguments_interactive getenv compile args c notes :
  parseArguments getenv compile args initial_cli = Continue (c, notes) ->
  interactive_ c = true ->
  members c = set_precise (preciseTime_ (members c)) initial_members
  /\ filterRegexStrs_ c = [].
Proof.
  unfold parseArguments.
  destruct (default_histfile getenv) as [p ns].
  destruct (parse_args compile NoValues args
              (set_interactive true (set_historyFilePath p initial_cli)) false)
    as [[c2 has]|] eqn:Erun; [|discriminate].
  apply Interactive.parse_args_untouched in Erun.
  2:{ intros _. split; [now exists false | reflexivity]. }
  destruct has.
  - destruct (validate (set_interactive (negb true) c2)) as [[c4 ns']|] eqn:Ev;
      [|discriminate].
    apply ParseFacts.validate_frame in Ev as (Hi & _).
    intros H. injection H as <- <-. rewrite Hi. discriminate.
  - intros H. injection H as <- <-. intros _.
    destruct (Erun eq_refl) as [[q Hq] Hr].
    cbn [set_interactive members filterRegexStrs_].
    split; [|exact Hr]. rewrite Hq. reflexivity.
Qed.

Lemma parseArguments_interactive_witness :
  let args := ["--precise"; "--histfile"; "/tmp/h"] in
  exists c notes,
    parseArguments sample_getenv sample_compile args initial_cli
    = Continue (c, notes)
    /\ interactive_ c = true
    /\ historyFilePath_ c = "/tmp/h"
    /\ preciseTime_ (members c) = true
    /\ members c = set_precise (preciseTime_ (members c)) initial_members
    /\ filterRegexStrs_ c = [].
Proof.
  cbv zeta.
  destruct (parseArguments sample_getenv sample_compile
              ["--precise"; "--histfile"; "/tmp/h"] initial_cli)
    as [[c notes]|] eqn:E; [|vm_compute in E; discriminate E].
  exists c, notes.
  assert (interactive_ c = true) as Hi
    by (vm_compute in E; injection E as <- <-; reflexivity).
  pose proof (parseArguments_interactive _ _ _ _ _ E Hi) as H.
  vm_compute in E. injection E as <- <-.
  split; [reflexivity|]. split; [reflexivity|]. split; [reflexivity|].
  split; [reflexivity|]. exact H.
Defined.

(** X20. The mode "newer_than" is accepted without [--days]: the validation
    asks for the number of days in the mode "older_than" only.  After an
    accepted command line in the mode "newer_than" the number of days is a
    positive [int], or it is still -1, and then the window starts one day
    after the current time. *)
Theorem parseArguments_newer_than L getenv compile args c notes hc :
  parseArguments getenv compile args initial_cli = Continue (c, notes) ->
  mode_ (members c) = NEWER_THAN ->
  calculateTimestamps L (members c) = Ok hc ->
  endTimestamp_ hc = TIME_T_MAX
  /\ ((olderThanDays_ (members c) = (-1)%Z
       /\ startTimestamp_ hc = (nowEpoch L + 86400)%Z)
      \/ ((0 < olderThanDays_ (members c) <= INT_MAX)%Z
          /\ ((olderThanDays_ (members c) <= 24855)%Z ->
              startTimestamp_ hc
              = (nowEpoch L - olderThanDays_ (members c) * 86400)%Z))).
Proof.
  intros Hrun Hm Hcalc.
  apply ParseFacts.parseArguments_plausible in Hrun as (_ & Hd & _).
  unfold calculateTimestamps in Hcalc. rewrite Hm in Hcalc.
  injection Hcalc as <-. cbn [set_window startTimestamp_ endTimestamp_].
  split; [reflexivity|].
  destruct Hd as [Hd | Hd]; [left | right]; split; try assumption.
  - rewrite Hd. reflexivity.
  - intros Hle. rewrite Window.int_wrap_small by lia. lia.
Qed.

Lemma parseArguments_newer_than_witness :
  let args := ["--mode"; "newer_than"] in
  exists c notes hc,
    parseArguments sample_getenv sample_compile args initial_cli
    = Continue (c, notes)
    /\ mode_ (members c) = NEWER_THAN
    /\ calculateTimestamps sample_libc (members c) = Ok hc
    /\ interactive_ c = false
    /\ olderThanDays_ (members c) = (-1)%Z
    /\ startTimestamp_ hc = 1704186400%Z
    /\ endTimestamp_ hc = TIME_T_MAX
    /\ ((olderThanDays_ (members c) = (-1)%Z
         /\ startTimestamp_ hc = (nowEpoch sample_libc + 86400)%Z)
        \/ ((0 < olderThanDays_ (members c) <= INT_MAX)%Z
            /\ ((olderThanDays_ (members c) <= 24855)%Z ->
                startTimestamp_ hc
                = (nowEpoch sample_libc
                   - olderThanDays_ (members c) * 86400)%Z))).
Proof.
  cbv zeta.
  destruct (parseArguments sample_getenv sample_compile
              ["--mode"; "newer_than"] initial_cli)
    as [[c notes]|] eqn:E; [|vm_compute in E; discriminate E].
  assert (mode_ (members c) = NEWER_THAN) as Hm
    by (vm_compute in E; injection E as <- <-; reflexivity).
  destruct (calculateTimestamps sample_libc (members c)) as [hc|e] eqn:Ec.
  2:{ vm_compute in E. injection E as <- <-. vm_compute in Ec. discriminate Ec. }
  exists c, notes, hc.
  pose proof (parseArguments_newer_than sample_libc _ _ _ _ _ _ E Hm Ec) as H.
  vm_compute in E. injection E as <- <-.
  vm_compute in Ec. injection Ec as <-.
  split; [reflexivity|]. split; [reflexivity|]. split; [reflexivity|].
  split; [reflexivity|]. split; [reflexivity|]. split; [reflexivity|].
  exact H.
Defined.

(** X21. An option right after [--keyword] or [--regex]: the inner loop
    that takes the values stops at once at an argument that starts with a
    dash, so no keyword and no expression is added, no error is raised, and
    the loop goes on with that argument as the next option; only the flag
    that ends the interactive mode is set. *)
Theorem parse_args_no_value compile flag opt rest c has :
  flag = "--keyword" \/ flag = "--regex" ->
  starts_with_dash opt = true ->
  parse_args compile NoValues (flag :: opt :: rest) c has
  = parse_args compile NoValues (opt :: rest) c true.
Proof.
  intros [-> | ->] Hd; cbn [parse_args]; rewrite Hd; reflexivity.
Qed.

Lemma parse_args_no_value_witness :
  ("--keyword" = "--keyword" \/ "--keyword" = "--regex")
  /\ starts_with_dash "--dry-run" = true
  /\ (exists c,
        parse_args sample_compile NoValues
          ["--mode"; "all"; "--keyword"; "--dry-run"] initial_cli false
        = Continue (c, true)
        /\ filterKeywords_ (members c) = []
        /\ dryRun_ (members c) = true)
  /\ parse_args sample_compile NoValues ["--keyword"; "--dry-run"] initial_cli false
     = parse_args sample_compile NoValues ["--dry-run"] initial_cli true.
Proof.
  assert ("--keyword" = "--keyword" \/ "--keyword" = "--regex") as Hf
    by (left; reflexivity).
  split; [exact Hf|]. split; [reflexivity|]. split.
  - eexists. split; [vm_compute; reflexivity|]. split; reflexivity.
  - exact (parse_args_no_value sample_compile "--keyword" "--dry-run" []
             initial_cli false Hf eq_refl).
Defined.

(* ===================================================================== *)
(** * Questions and the display of instants *)
(* ===================================================================== *)

Module Ask.

Lemma tolower_y c : Ascii.eqb (tolower c) "y" = Ascii.eqb c "y" || Ascii.eqb c "Y".
Proof.
  destruct c as [[] [] [] [] [] [] [] []]; reflexivity.
Qed.

Lemma tolower_n c : Ascii.eqb (tolower c) "n" = Ascii.eqb c "n" || Ascii.eqb c "N".
Proof.
  destruct c as [[] [] [] [] [] [] [] []]; reflexivity.
Qed.

Lemma askYesNo_answer prompt d line rest a :
  answer_of d line = Some a ->
  askYesNo prompt d (line :: rest) = (a, rest, [Say prompt]).
Proof.
  unfold answer_of. cbn [askYesNo].
  destruct (Str.erase_leading is_space line) as [|c s].
  - intros H. now injection H as <-.
  - cbv zeta. rewrite tolower_y, tolower_n.
    destruct (Ascii.eqb c "y" || Ascii.eqb c "Y").
    + intros H. now injection H as <-.
    + destruct (Ascii.eqb c "n" || Ascii.eqb c "N"); [|discriminate].
      intros H. now injection H as <-.
Qed.

Lemma askYesNo_retry prompt d line rest :
  answer_of d line = None ->
  askYesNo prompt d (line :: rest)
  = let '(answer, rest', out) := askYesNo prompt d rest in
    (answer, rest', Say prompt :: invalid_answer :: out).
Proof.
  unfold answer_of. cbn [askYesNo].
  destruct (Str.erase_leading is_space line) as [|c s]; [discriminate|].
  cbv zeta. rewrite tolower_y, tolower_n.
  destruct (Ascii.eqb c "y" || Ascii.eqb c "Y"); [discriminate|].
  destruct (Ascii.eqb c "n" || Ascii.eqb c "N"); [discriminate|].
  reflexivity.
Qed.

End Ask.

(** X22. The question asked until it is answered: lines that answer neither
    yes nor no are skipped, each at the cost of one more prompt and one
    notice; the first line that is blank, or whose first visible character
    is [y], [Y], [n] or [N], decides (a blank line for the default), whatever
    follows that character, and the lines after it are left unread. *)
Theorem askYesNo_first_answer prompt d junk line rest a :
  Forall (fun l => answer_of d l = None) junk ->
  answer_of d line = Some a ->
  askYesNo prompt d (junk ++ line :: rest)
  = (a, rest,
     List.concat (map (fun _ => [Say prompt; invalid_answer]) junk)
     ++ [Say prompt]).
Proof.
  intros Hjunk Hline. induction Hjunk as [|l junk Hl _ IH].
  - cbn [app map List.concat]. now apply Ask.askYesNo_answer.
  - cbn [app map List.concat]. rewrite (Ask.askYesNo_retry _ _ _ _ Hl), IH.
    reflexivity.
Qed.

Lemma askYesNo_first_answer_witness :
  Forall (fun l => answer_of false l = None) ["maybe"; "  ok"]
  /\ answer_of false "  Yep, go on" = Some true
  /\ askYesNo "Proceed?" false (["maybe"; "  ok"] ++ "  Yep, go on" :: ["n"])
     = (true, ["n"],
        List.concat (map (fun _ => [Say "Proceed?"; invalid_answer])
                       ["maybe"; "  ok"])
        ++ [Say "Proceed?"]).
Proof.
  assert (Forall (fun l => answer_of false l = None) ["maybe"; "  ok"]) as Hj
    by (repeat constructor).
  split; [exact Hj|]. split; [reflexivity|].
  exact (askYesNo_first_answer "Proceed?" false ["maybe"; "  ok"]
           "  Yep, go on" ["n"] true Hj eq_refl).
Defined.

(** X23. At the end of the input the question takes its default, and so
    does a run of the program whose input ends while lines that are no
    answer are all it was given. *)
Theorem askYesNo_end_of_input prompt d junk :
  Forall (fun l => answer_of d l = None) junk ->
  fst (fst (askYesNo prompt d junk)) = d
  /\ snd (fst (askYesNo prompt d junk)) = [].
Proof.
  intros Hjunk. induction Hjunk as [|l junk Hl _ IH].
  - split; reflexivity.
  - rewrite (Ask.askYesNo_retry _ _ _ _ Hl).
    destruct (askYesNo prompt d junk) as [[a r] out]. exact IH.
Qed.

Lemma askYesNo_end_of_input_witness :
  Forall (fun l => answer_of true l = None) ["what?"]
  /\ fst (fst (askYesNo "Proceed?" true ["what?"])) = true
  /\ snd (fst (askYesNo "Proceed?" true ["what?"])) = [].
Proof.
  assert (Forall (fun l => answer_of true l = None) ["what?"]) as Hj
    by (repeat constructor).
  split; [exact Hj|].
  exact (askYesNo_end_of_input "Proceed?" true ["what?"] Hj).
Defined.

Module Format.

Lemma format_loop_fits fuel size text :
  0 < fuel -> 0 < String.length text < size ->
  format_loop fuel size text = Some text.
Proof.
  intros Hf Hl. destruct fuel as [|fuel]; [lia|]. cbn [format_loop].
  unfold strftime_len.
  destruct (Nat.ltb_spec (String.length text) size); [|lia].
  destruct (Nat.ltb_spec 0 (String.length text)); [reflexivity | lia].
Qed.

Lemma format_loop_turn fuel size text :
  size < 256 -> ~ (0 < String.length text < size) ->
  format_loop (S fuel) size text = format_loop fuel (2 * size) text.
Proof.
  intros Hs Hl. cbn [format_loop]. unfold strftime_len.
  destruct (Nat.ltb_spec (String.length text) size).
  - destruct (Nat.ltb_spec 0 (String.length text)); [lia|].
    destruct (Nat.leb_spec 256 size); [lia | reflexivity].
  - rewrite Nat.ltb_irrefl.
    destruct (Nat.leb_spec 256 size); [lia | reflexivity].
Qed.

Lemma format_loop_last fuel text :
  ~ (0 < String.length text < 256) ->
  format_loop (S fuel) 256 text = Some "Error formatting timestamp".
Proof.
  intros Hl. cbn [format_loop]. unfold strftime_len.
  destruct (Nat.ltb_spec (String.length text) 256).
  - destruct (Nat.ltb_spec 0 (String.length text)); [lia | reflexivity].
  - reflexivity.
Qed.

End Format.

(** X24. The display of an instant: with four turns of the loop or more,
    the function returns, and what it returns is the infinity sign for the
    last instant of [time_t], a notice when the local time cannot be
    computed, the formatted text whenever that has from 1 to 255 bytes, and
    a notice of failure when the text is empty or longer. *)
Theorem epochToString_total localtime expand fuel epoch :
  4 <= fuel ->
  epochToString localtime expand fuel epoch
  = Some (if (epoch =? TIME_T_MAX)%Z then "∞"
          else match localtime epoch with
               | None => "Invalid timestamp"
               | Some t =>
                   if (0 <? String.length (expand t))
                      && (String.length (expand t) <? 256)
                   then expand t
                   else "Error formatting timestamp"
               end).
Proof.
  intros Hf. unfold epochToString.
  destruct (epoch =? TIME_T_MAX)%Z; [reflexivity|].
  destruct (localtime epoch) as [t|]; [|reflexivity].
  set (text := expand t).
  destruct fuel as [|[|[|[|fuel]]]]; try lia.
  destruct (Nat.ltb_spec 0 (String.length text)) as [H0|H0]; cbn [andb].
  - destruct (Nat.ltb_spec (String.length text) 256) as [H1|H1].
    + destruct (Nat.lt_ge_cases (String.length text) 32);
        [apply Format.format_loop_fits; lia|].
      rewrite Format.format_loop_turn by lia.
      destruct (Nat.lt_ge_cases (String.length text) 64);
        [apply Format.format_loop_fits; lia|].
      rewrite Format.format_loop_turn by lia.
      destruct (Nat.lt_ge_cases (String.length text) 128);
        [apply Format.format_loop_fits; lia|].
      rewrite Format.format_loop_turn by lia.
      apply Format.format_loop_fits; lia.
    + rewrite !Format.format_loop_turn by lia.
      apply Format.format_loop_last. lia.
  - rewrite !Format.format_loop_turn by lia.
    apply Format.format_loop_last. lia.
Qed.

Lemma epochToString_total_witness :
  4 <= 4
  /\ epochToString (fun z => Some (localtime_r sample_libc z))
       (fun _ => "2024-01-01 00:00:00 UTC and a zone name of some length")
       4 1704067200
     = Some "2024-01-01 00:00:00 UTC and a zone name of some length"
  /\ epochToString (fun z => Some (localtime_r sample_libc z))
       (fun _ => "2024-01-01 00:00:00 UTC and a zone name of some length")
       4 1704067200
     = Some (if (1704067200 =? TIME_T_MAX)%Z then "∞"
             else match Some (localtime_r sample_libc 1704067200) with
                  | None => "Invalid timestamp"
                  | Some t =>
                      if (0 <? String.length
                                 "2024-01-01 00:00:00 UTC and a zone name of some length")
                         && (String.length
                               "2024-01-01 00:00:00 UTC and a zone name of some length"
                             <? 256)
                      then "2024-01-01 00:00:00 UTC and a zone name of some length"
                      else "Error formatting timestamp"
                  end).
Proof.
  assert (4 <= 4) as H by lia.
  split; [exact H|]. split; [reflexivity|].
  exact (epochToString_total (fun z => Some (localtime_r sample_libc z))
           (fun _ => "2024-01-01 00:00:00 UTC and a zone name of some length")
           4 1704067200 H).
Defined.

(* ===================================================================== *)
(** * The run without interaction, end to end *)
(* ===================================================================== *)

Module Run.

Lemma calculateTimestamps_members L hc hc' :
  calculateTimestamps L hc = Ok hc' ->
  hc' = set_window (startTimestamp_ hc') (endTimestamp_ hc') hc.
Proof.
  unfold calculateTimestamps.
  destruct (mode_ hc);
    repeat match goal with
           | |- context [dateToEpoch L ?s ?p] => destruct (dateToEpoch L s p)
           | |- context [if ?b then _ else _] => destruct b
           end;
    try discriminate; intros H; injection H as <-; reflexivity.
Qed.

(** A dry run of [processHistory] leaves the disk as it was. *)
Lemma processHistory_dry E hc output w :
  dryRun_ hc = true ->
  same_disk w (snd (processHistory E hc output w)).
Proof.
  intros Hdry. unfold processHistory.
  destruct (interrupted_ hc); [apply Frame.same_disk_log_err|].
  destruct (open_history E (effectiveHistoryFilePath_ hc) w) as [content|];
    [|destruct (fs_exists (effectiveHistoryFilePath_ hc) w);
      apply Frame.same_disk_log_err].
  pose proof (Frame.scan_lines_same_disk E hc output (getlines content)
                (scan_start w)) as Hscan.
  destruct (scan_lines E hc output (getlines content) (scan_start w)) as [[] st];
    cbn [snd fst] in *; [|exact Hscan].
  rewrite Hdry. cbn [snd].
  pose proof (Frame.flush_block_same_disk hc output (lineNum st) st) as Hflush.
  destruct (Frame.same_disk_trans _ _ _ Hscan Hflush) as (H1 & H2 & H3 & H4).
  repeat split; assumption.
Qed.

End Run.

(** X25. A dry run from the command line changes nothing on disk, however
    it ends: whether the window cannot be computed, the scan fails and the
    process exits with code 1, or the run returns, every path holds what it
    held, no effect on a file is recorded and no byte of overwrite is
    written. *)
Theorem runNonInteractive_dry_run L E hc w :
  dryRun_ hc = true ->
  same_disk w (world_at_end (runNonInteractive L E hc w)).
Proof.
  intros Hdry. unfold runNonInteractive.
  destruct (calculateTimestamps L hc) as [hc1|e] eqn:Ecalc;
    [|cbn; repeat split].
  apply Run.calculateTimestamps_members in Ecalc.
  assert (dryRun_ hc1 = true) as Hdry1 by (rewrite Ecalc; exact Hdry).
  destruct (interrupted_ hc1); [cbn; repeat split|].
  rewrite Hdry1.
  match goal with
  | |- context [processHistory E hc1 ToCout ?x] =>
      pose proof (Run.processHistory_dry E hc1 ToCout x Hdry1) as Hp;
      destruct (processHistory E hc1 ToCout x) as [[[] hc2] w3]
  end; cbn [snd world_at_end] in *;
    destruct Hp as (H1 & H2 & H3 & H4); repeat split; assumption.
Qed.

Lemma runNonInteractive_dry_run_witness :
  dryRun_ (day_cleaner true) = true
  /\ (exists hc w,
        runNonInteractive sample_libc sample_env (day_cleaner true) day_world
        = Returned hc w
        /\ In (WouldDelete 2 (": 1704070000:0;ls" +:+ NL)) (cout w))
  /\ same_disk day_world
       (world_at_end
          (runNonInteractive sample_libc sample_env (day_cleaner true) day_world)).
Proof.
  split; [reflexivity|]. split.
  - eexists _, _. split; [vm_compute; reflexivity|]. vm_compute. tauto.
  - exact (runNonInteractive_dry_run sample_libc sample_env (day_cleaner true)
             day_world eq_refl).
Defined.



(* ===================================================================== *)
(** * Edge cases of the erase and of the cleanup *)
(* ===================================================================== *)

(** X27. A path that holds nothing: [fs::is_regular_file] reports the
    missing file through its error code, so the erase logs that the status
    check failed and returns false, whatever the environment and the number
    of passes; it does not report the file as already deleted, and the
    world is as it was but for that message. *)
Theorem secureDelete_missing E p passes w :
  files w !! p = None ->
  secureDelete E p passes w
  = (false, log_err (Say "Error: Failed to check file status") w).
Proof.
  intros Hp. unfold secureDelete, fs_is_regular_file. rewrite Hp.
  destruct (status_error E p); reflexivity.
Qed.

Lemma secureDelete_missing_witness :
  files sample_world !! "/home/u/none" = None
  /\ secureDelete sample_env "/home/u/none" 3 sample_world
     = (false, log_err (Say "Error: Failed to check file status") sample_world).
Proof.
  assert (files sample_world !! "/home/u/none" = None) as H
    by (vm_compute; reflexivity).
  split; [exact H|].
  exact (secureDelete_missing sample_env "/home/u/none" 3 sample_world H).
Defined.

(** X28. [cleanup] is attempted once: whether the temporary file was
    removed or its removal failed, the registered path is cleared, so a
    second call (the destructor after a failed run) changes neither the
    cleaner nor the world, and a temporary file whose removal failed is
    not removed later. *)
Theorem cleanup_once E hc w :
  cleanup E (fst (cleanup E hc w)) (snd (cleanup E hc w)) = cleanup E hc w.
Proof.
  unfold cleanup at 2 3 4.
  destruct (negb (Str.is_empty (tempFilePath_ hc)) && fs_exists (tempFilePath_ hc) w)
    eqn:Ec.
  - destruct (fs_remove E (tempFilePath_ hc) w) as [[] w1]; reflexivity.
  - cbn [fst snd]. unfold cleanup. rewrite Ec. reflexivity.
Qed.
